(** * Serial inventory stores: a shallow embedding

    The development follows the two state managers of the repository,
    [src/lib/serialStore.ts] (class SerialStoreManager, one IndexedDB record
    under the key 'data') and the global store (class GlobalStoreManager, an
    in-memory state mirrored to one IndexedDB record under the key 'state'),
    together with the bulk generation handler of [AddSerialsForm.tsx].

    Conventions of the embedding.
    - A TypeScript string is a [string]; only ASCII text is interpreted (for
      white space and digits).
    - A [Date] and a [Date.now()] value is its number of milliseconds since the
      epoch, a [Z].  Every operation takes the instant [now] at which it runs;
      the clock reads inside one operation return that instant.
    - An optional property ([asn_id?: string]) is an [option]; a property that
      holds [undefined] and a missing property are both [None].
    - JavaScript numbers are modelled on the integers, which is exact below
      2^53 in absolute value; a price is the rational that its decimal literal
      denotes.
    - A [Record<string, any>] is a finite map from strings to strings.
    - IndexedDB requests succeed.  The calls of a manager are made one after
      the other: an asynchronous method is run up to the settlement of its
      promise, the success handlers of the writes it issued included.  A
      promise that is never settled is the outcome [Unsettled].  When a
      success handler lets an exception out, IndexedDB aborts the transaction
      of the request, which undoes its write.
    - Observers are passive: a callback is recorded in the trace when it is
      called, and it either returns or raises. *)

From stdpp Require Import base list strings gmap.
From Stdlib Require Import ZArith Ascii DecimalString.
From Stdlib Require QArith DecimalPos DecimalZ.

Local Open Scope string_scope.
Local Open Scope list_scope.
Local Open Scope Z_scope.

(** ** Domain types ([src/types]) *)

Inductive SerialStatus : Type := unassigned | blocked | assigned.

#[global] Instance SerialStatus_eq_dec : EqDecision SerialStatus.
Proof. solve_decision. Defined.

Record SerialInventory : Type := mkSerial {
  id : string;
  supplier_id : string;
  buyer_id : string;
  part_number_id : string;
  serial_number : string;
  status : SerialStatus;
  asn_id : option string;
  attributes_json : option (gmap string string);
  parent_serial_id : option string;
  parent_serial_number : option string;
  expiry_date : option Z;
  created_date : Z;
  updated_date : Z;
  created_by : string;
  updated_by : string
}.

Module Product.
Record t : Type := mk {
  id : string;
  buyer_identifier : string;
  supplier_identifier : string;
  buyer_part_number : string;
  description : string;
  price : option QArith_base.Q;
  dimensions : option string;
  created_date : Z;
  updated_date : Z
}.
End Product.

Module ASNLot.
Record t : Type := mk {
  id : string;
  item_id : string;
  lot_number : string;
  quantity : Z
}.
End ASNLot.

Module ASNItem.
Record t : Type := mk {
  id : string;
  asn_id : string;
  part_number_id : string;
  buyer_part_number : string;
  ship_quantity : Z;
  lots : list ASNLot.t
}.
End ASNItem.

Module ASN.
Inductive Status : Type := draft | submitted | received.

Record t : Type := mk {
  id : string;
  supplier_id : string;
  buyer_id : string;
  asn_number : string;
  status : Status;
  ship_date : option Z;
  delivery_date : option Z;
  created_date : Z;
  updated_date : Z;
  items : list ASNItem.t
}.
End ASN.

(** [serial.status = status; serial.asn_id = asnId; serial.updated_date = new
    Date()], also [{ ...serial, status, asn_id: asnId, updated_date: new Date() }]:
    the three fields are written, the others are kept. *)
Definition withStatus (serial : SerialInventory) (st : SerialStatus)
    (asnId : option string) (now : Z) : SerialInventory :=
  {| id := id serial;
     supplier_id := supplier_id serial;
     buyer_id := buyer_id serial;
     part_number_id := part_number_id serial;
     serial_number := serial_number serial;
     status := st;
     asn_id := asnId;
     attributes_json := attributes_json serial;
     parent_serial_id := parent_serial_id serial;
     parent_serial_number := parent_serial_number serial;
     expiry_date := expiry_date serial;
     created_date := created_date serial;
     updated_date := now;
     created_by := created_by serial;
     updated_by := updated_by serial |}.

(** The seed serials, the same in both managers ([getDefaultSerials]). *)
Definition seedSerial (i pn sn : string) (st : SerialStatus) (a : option string)
    (created updated : Z) : SerialInventory :=
  {| id := i; supplier_id := "sup1"; buyer_id := "buy1"; part_number_id := pn;
     serial_number := sn; status := st; asn_id := a;
     attributes_json := None; parent_serial_id := None;
     parent_serial_number := None; expiry_date := None;
     created_date := created; updated_date := updated;
     created_by := "admin"; updated_by := "admin" |}.

Definition getDefaultSerials : list SerialInventory :=
  [ seedSerial "1" "1" "CPU001X7001" blocked (Some "1") 1705276800000 1705708800000;
    seedSerial "2" "1" "CPU001X7002" assigned (Some "1") 1705363200000 1705795200000;
    seedSerial "3" "1" "CPU001X7003" unassigned None 1705449600000 1705449600000;
    seedSerial "4" "1" "CPU001X7004" unassigned None 1705536000000 1705536000000;
    seedSerial "5" "2" "MEM002DDR5001" unassigned None 1705622400000 1705622400000 ].

(** The object returned by [getSerialCounts], in both managers: [total] is
    [serials.length], the other three are the lengths of the three filters. *)
Record Counts : Type := mkCounts {
  total : nat;
  unassigned_count : nat;
  blocked_count : nat;
  assigned_count : nat
}.

Definition countsOf (l : list SerialInventory) : Counts :=
  {| total := length l;
     unassigned_count := length (filter (λ s, status s = unassigned) l);
     blocked_count := length (filter (λ s, status s = blocked) l);
     assigned_count := length (filter (λ s, status s = assigned) l) |}.

(** ** Observers and outcomes *)

(** An observer registered with [subscribe].  [cb_id] stands for the identity
    of the function object (a JavaScript [Set] holds each function once),
    [cb_throws] says whether a call of it raises. *)
Record Callback : Type := mkCallback {
  cb_id : nat;
  cb_throws : bool
}.

#[global] Instance Callback_eq_dec : EqDecision Callback.
Proof. solve_decision. Defined.

(** [Set.prototype.add]: insertion order, no second copy. *)
Definition set_add (cb : Callback) (s : list Callback) : list Callback :=
  if decide (cb ∈ s) then s else s ++ [cb].

(** [Set.prototype.delete]. *)
Definition set_delete (cb : Callback) (s : list Callback) : list Callback :=
  filter (λ c, c ≠ cb) s.

(** [subscribers.forEach(callback => callback(...))]: the callbacks are called
    in insertion order; the first one that raises ends the loop and the
    exception leaves [forEach].  The result is the list of the identities of
    the callbacks that were called and whether the loop ran to its end. *)
Fixpoint forEach_call (cbs : list Callback) : list nat * bool :=
  match cbs with
  | [] => ([], true)
  | cb :: rest =>
      if cb_throws cb then ([cb_id cb], false)
      else let '(called, ok) := forEach_call rest in (cb_id cb :: called, ok)
  end.

(** The settlement of a promise, as far as the model goes. *)
Inductive Settled (A : Type) : Type :=
  | Resolved (a : A)
  | Unsettled.
Arguments Resolved {A} a.
Arguments Unsettled {A}.

(** ** The per-domain store: [src/lib/serialStore.ts] *)

Module SerialStoreManager.

Record SerialStore : Type := mkStore {
  serials : list SerialInventory;
  asns : list ASN.t;
  products : list Product.t;
  lastUpdated : Z
}.

(** [{ ...data, lastUpdated: Date.now() }] *)
Definition stamp (data : SerialStore) (now : Z) : SerialStore :=
  {| serials := serials data; asns := asns data; products := products data;
     lastUpdated := now |}.

Definition withSerials (data : SerialStore) (l : list SerialInventory) : SerialStore :=
  {| serials := l; asns := asns data; products := products data;
     lastUpdated := lastUpdated data |}.

Definition getDefaultASNs : list ASN.t :=
  [ ASN.mk "1" "sup1" "buy1" "ASN-2024-001" ASN.draft (Some 1707955200000) None
      1705276800000 1705708800000
      [ ASNItem.mk "item1" "1" "1" "CPU-001-X7" 10
          [ ASNLot.mk "lot1" "item1" "LOT001" 5; ASNLot.mk "lot2" "item1" "LOT002" 5 ];
        ASNItem.mk "item2" "1" "2" "MEM-002-DDR5" 20
          [ ASNLot.mk "lot3" "item2" "LOT003" 15; ASNLot.mk "lot4" "item2" "LOT004" 5 ];
        ASNItem.mk "item3" "1" "3" "SSD-003-NVMe" 8
          [ ASNLot.mk "lot5" "item3" "LOT005" 8 ] ];
    ASN.mk "2" "sup2" "buy2" "ASN-2024-002" ASN.submitted (Some 1708387200000) None
      1705536000000 1706140800000 [] ].

Definition getDefaultProducts : list Product.t :=
  [ Product.mk "1" "ACME_CORP" "TECH_SUPPLY_001" "CPU-001-X7"
      "High-performance processor unit with enhanced cooling"
      (Some (QArith_base.Qmake 29999 100)) (Some "40mm x 40mm x 5mm")
      1705276800000 1705708800000;
    Product.mk "2" "ACME_CORP" "TECH_SUPPLY_001" "MEM-002-DDR5"
      "DDR5 Memory Module 32GB"
      (Some (QArith_base.Qmake 18999 100)) (Some "133mm x 30mm x 5mm")
      1704844800000 1705536000000;
    Product.mk "3" "BETA_SYSTEMS" "COMPONENT_PLUS" "SSD-003-NVMe"
      "NVMe SSD 1TB High Speed Storage"
      (Some (QArith_base.Qmake 14999 100)) (Some "80mm x 22mm x 2.38mm")
      1705017600000 1705881600000 ].

(** What the manager does to the outside, in the order it does it. *)
Inductive Event : Type :=
  | EvOpen                        (* indexedDB.open succeeded *)
  | EvGet (found : bool)          (* store.get('data') answered *)
  | EvPut (data : SerialStore)    (* store.put(data, 'data') *)
  | EvCall (cb : nat).            (* a subscriber was called *)

(** The manager and its database.  [db] is [this.db !== null], [stored] is
    the record under the key 'data'. *)
Record World : Type := mkWorld {
  db : bool;
  stored : option SerialStore;
  subscribers : list Callback;
  trace : list Event
}.

Definition emit (evs : list Event) (w : World) : World :=
  {| db := db w; stored := stored w; subscribers := subscribers w;
     trace := trace w ++ evs |}.

(** The records written and the callbacks called, read off a trace. *)
Definition puts (tr : list Event) : list SerialStore :=
  omap (λ e, if e is EvPut d then Some d else None) tr.

Definition calls (tr : list Event) : list nat :=
  omap (λ e, if e is EvCall c then Some c else None) tr.

(** How many reads found no record. *)
Definition misses (tr : list Event) : nat :=
  length (omap (λ e, if e is EvGet false then Some () else None) tr).

(** How many times the callback [c] was called. *)
Definition notified (c : nat) (tr : list Event) : nat :=
  length (filter (λ x, x = c) (calls tr)).

(** A fresh manager on a database that holds no record. *)
Definition fresh : World :=
  {| db := false; stored := None; subscribers := []; trace := [] |}.

(** An asynchronous method: it changes the world and its promise settles or
    does not. *)
Definition Async (A : Type) : Type := World → Settled A * World.

Definition resolve {A} (a : A) : Async A := λ w, (Resolved a, w).

Definition await {A B} (m : Async A) (k : A → Async B) : Async B :=
  λ w, match m w with
       | (Resolved a, w') => k a w'
       | (Unsettled, w') => (Unsettled, w')
       end.

Notation "'let!' x ':=' m 'in' k" := (await m (λ x, k))
  (at level 10, x name, m at level 100, k at level 200, only parsing).

Definition init : Async unit := λ w,
  (Resolved (),
   {| db := true; stored := stored w; subscribers := subscribers w;
      trace := trace w ++ [EvOpen] |}).

(** [if (!this.db) await this.init();] *)
Definition ensureDb : Async unit := λ w,
  if db w then (Resolved (), w) else init w.

Definition subscribe (callback : Callback) (w : World) : World :=
  {| db := db w; stored := stored w;
     subscribers := set_add callback (subscribers w); trace := trace w |}.

(** The function returned by [subscribe]. *)
Definition unsubscribe (callback : Callback) (w : World) : World :=
  {| db := db w; stored := stored w;
     subscribers := set_delete callback (subscribers w); trace := trace w |}.

(** [notifySubscribers]: [false] when a callback raised. *)
Definition notifySubscribers (w : World) : bool * World :=
  let '(called, ok) := forEach_call (subscribers w) in
  (ok, emit (EvCall <$> called) w).

(** [setStore]: the record is replaced by the stamped copy; in the success
    handler of the [put] the subscribers are notified and then the promise is
    resolved.  When a subscriber raises, [resolve()] is not reached; the
    exception leaves the success handler, upon which IndexedDB aborts the
    transaction of the request, so that the record is the one from before. *)
Definition setStore (now : Z) (data : SerialStore) : Async unit :=
  let! _ := ensureDb in
  λ w,
    let rec := stamp data now in
    let w1 := {| db := db w; stored := Some rec; subscribers := subscribers w;
                 trace := trace w ++ [EvPut rec] |} in
    let '(ok, w2) := notifySubscribers w1 in
    if ok then (Resolved (), w2)
    else (Unsettled,
          {| db := db w2; stored := stored w; subscribers := subscribers w2;
             trace := trace w2 |}).

(** The object built by [getStore] when the database holds no record. *)
Definition defaultStore (now : Z) : SerialStore :=
  {| serials := getDefaultSerials; asns := getDefaultASNs;
     products := getDefaultProducts; lastUpdated := now |}.

(** [getStore]: the record when there is one; otherwise the default store,
    which is handed to [setStore] (not awaited) and returned. *)
Definition getStore (now : Z) : Async SerialStore :=
  let! _ := ensureDb in
  λ w,
    match stored w with
    | Some result => (Resolved result, emit [EvGet true] w)
    | None =>
        let '(_, w1) := setStore now (defaultStore now) (emit [EvGet false] w) in
        (Resolved (defaultStore now), w1)
    end.

Definition addSerials (now : Z) (new : list SerialInventory) : Async unit :=
  let! store := getStore now in
  setStore now (withSerials store (serials store ++ new)).

Definition updateSerial (now : Z) (updatedSerial : SerialInventory) : Async unit :=
  let! store := getStore now in
  match list_find (λ s, id s = id updatedSerial) (serials store) with
  | Some (index, _) =>
      setStore now (withSerials store (<[index := updatedSerial]> (serials store)))
  | None => resolve ()
  end.

Definition updateSerialStatus (now : Z) (serialId : string)
    (st : SerialStatus) (asnId : option string) : Async unit :=
  let! store := getStore now in
  match list_find (λ s, id s = serialId) (serials store) with
  | Some (index, serial) =>
      setStore now
        (withSerials store (<[index := withStatus serial st asnId now]> (serials store)))
  | None => resolve ()
  end.

Definition getSerialsByStatus (now : Z) (st : SerialStatus) : Async (list SerialInventory) :=
  let! store := getStore now in
  resolve (filter (λ s, status s = st) (serials store)).

Definition getSerialsByASN (now : Z) (asnId : string) : Async (list SerialInventory) :=
  let! store := getStore now in
  resolve (filter (λ s, asn_id s = Some asnId) (serials store)).

Definition getSerialsByPartNumber (now : Z) (partNumberId : string) :
    Async (list SerialInventory) :=
  let! store := getStore now in
  resolve (filter (λ s, part_number_id s = partNumberId) (serials store)).

Definition getSerialCounts (now : Z) : Async Counts :=
  let! store := getStore now in
  resolve (countsOf (serials store)).

(** One call of a method of the manager, with the instant of the call. *)
Inductive Op : Type :=
  | GetStore (now : Z)
  | AddSerials (now : Z) (new : list SerialInventory)
  | UpdateSerial (now : Z) (updatedSerial : SerialInventory)
  | UpdateSerialStatus (now : Z) (serialId : string) (st : SerialStatus)
      (asnId : option string)
  | GetSerialsByStatus (now : Z) (st : SerialStatus)
  | GetSerialsByASN (now : Z) (asnId : string)
  | GetSerialsByPartNumber (now : Z) (partNumberId : string)
  | GetSerialCounts (now : Z).

(** The world after the call; the value of the promise is dropped. *)
Definition perform (o : Op) (w : World) : World :=
  match o with
  | GetStore now => (getStore now w).2
  | AddSerials now new => (addSerials now new w).2
  | UpdateSerial now u => (updateSerial now u w).2
  | UpdateSerialStatus now i st a => (updateSerialStatus now i st a w).2
  | GetSerialsByStatus now st => (getSerialsByStatus now st w).2
  | GetSerialsByASN now a => (getSerialsByASN now a w).2
  | GetSerialsByPartNumber now p => (getSerialsByPartNumber now p w).2
  | GetSerialCounts now => (getSerialCounts now w).2
  end.

Definition performAll (l : list Op) (w : World) : World :=
  foldl (λ w o, perform o w) w l.

End SerialStoreManager.

(** ** The global store (class GlobalStoreManager) *)

Module GlobalStoreManager.

Record SearchTerms : Type := mkSearchTerms {
  st_serials : string;
  st_asns : string;
  st_products : string
}.

(** ['all'] is [None]. *)
Record Filters : Type := mkFilters {
  serialStatus : option SerialStatus;
  asnStatus : option ASN.Status
}.

Record Modals : Type := mkModals {
  serialDetail : bool;
  asnDetail : bool;
  addSerial : bool;
  addASN_modal : bool;
  assignSerials : bool;
  uploadChildSerials : bool;
  importSerials : bool
}.

Record UI : Type := mkUI {
  activeTab : string;
  selectedSerial : option SerialInventory;
  selectedASN : option ASN.t;
  selectedProduct : option Product.t;
  searchTerms : SearchTerms;
  filters : Filters;
  modals : Modals
}.

Record System : Type := mkSystem {
  loading : bool;
  lastUpdated : Z;
  errors : list string
}.

Record GlobalState : Type := mkState {
  serials : list SerialInventory;
  asns : list ASN.t;
  products : list Product.t;
  ui : UI;
  system : System
}.

(** [Partial<GlobalState>]: the properties an updater returns. *)
Record Updates : Type := mkUpdates {
  u_serials : option (list SerialInventory);
  u_asns : option (list ASN.t);
  u_products : option (list Product.t);
  u_ui : option UI;
  u_system : option System
}.

Definition noUpdates : Updates :=
  {| u_serials := None; u_asns := None; u_products := None; u_ui := None;
     u_system := None |}.

(** The module constant [defaultState]; [t0] is [Date.now()] at the time the
    module is evaluated. *)
Definition defaultState (t0 : Z) : GlobalState :=
  {| serials := []; asns := []; products := [];
     ui := {| activeTab := "products"; selectedSerial := None; selectedASN := None;
              selectedProduct := None;
              searchTerms := {| st_serials := ""; st_asns := ""; st_products := "" |};
              filters := {| serialStatus := None; asnStatus := None |};
              modals := {| serialDetail := false; asnDetail := false; addSerial := false;
                           addASN_modal := false; assignSerials := false;
                           uploadChildSerials := false; importSerials := false |} |};
     system := {| loading := false; lastUpdated := t0; errors := [] |} |}.

Definition getDefaultASNs : list ASN.t :=
  [ ASN.mk "1" "sup1" "buy1" "ASN001" ASN.draft (Some 1706745600000) (Some 1707091200000)
      1706140800000 1706140800000 [];
    ASN.mk "2" "sup2" "buy2" "ASN002" ASN.submitted (Some 1706918400000) (Some 1707264000000)
      1706313600000 1706572800000 [] ].

Definition getDefaultProducts : list Product.t :=
  [ Product.mk "1" "ACME-CPU-001" "INTEL-i7-13700K" "CPU001"
      "Intel Core i7-13700K Processor"
      (Some (QArith_base.Qmake 45099 100)) (Some "37.5 x 37.5 x 7.4 mm")
      1704067200000 1704067200000;
    Product.mk "2" "ACME-MEM-002" "CORSAIR-32GB-DDR5" "MEM002"
      "Corsair Vengeance 32GB DDR5-5600"
      (Some (QArith_base.Qmake 18999 100)) (Some "133.35 x 7.0 x 34.1 mm")
      1704153600000 1704153600000 ].

Inductive Event : Type :=
  | EvOpen                              (* indexedDB.open succeeded *)
  | EvGet (found : bool)                (* store.get('state') answered *)
  | EvPut (st : GlobalState)            (* store.put(this.state, 'state') *)
  | EvCall (cb : nat) (st : GlobalState). (* callback(this.state) *)

(** The manager and its database: [db] is [this.db !== null], [stored] the
    record under the key 'state', [state] the in-memory [this.state], [t0]
    the instant captured by [defaultState]. *)
Record World : Type := mkWorld {
  t0 : Z;
  db : bool;
  stored : option GlobalState;
  state : GlobalState;
  subscribers : list Callback;
  trace : list Event
}.

Definition setW (w : World) (d : bool) (r : option GlobalState) (s : GlobalState)
    (subs : list Callback) (evs : list Event) : World :=
  {| t0 := t0 w; db := d; stored := r; state := s; subscribers := subs;
     trace := trace w ++ evs |}.

Definition puts (tr : list Event) : list GlobalState :=
  omap (λ e, if e is EvPut d then Some d else None) tr.

Definition calls (tr : list Event) : list nat :=
  omap (λ e, if e is EvCall c _ then Some c else None) tr.

Definition notified (c : nat) (tr : list Event) : nat :=
  length (filter (λ x, x = c) (calls tr)).

(** A new manager, loaded at [t], on a database whose record is [r]. *)
Definition created (t : Z) (r : option GlobalState) : World :=
  {| t0 := t; db := false; stored := r; state := defaultState t;
     subscribers := []; trace := [] |}.

(** A synchronous method returns or lets an exception out. *)
Inductive Completion : Type := Returned | Threw.

(** [notifySubscribers]: every callback is called with [this.state]. *)
Definition notifySubscribers (w : World) : Completion * World :=
  let '(called, ok) := forEach_call (subscribers w) in
  (if ok then Returned else Threw,
   setW w (db w) (stored w) (state w) (subscribers w)
        ((λ c, EvCall c (state w)) <$> called)).

(** [saveState]: nothing without a database handle, else one [put]. *)
Definition saveState (w : World) : World :=
  if db w then
    setW w (db w) (Some (state w)) (state w) (subscribers w) [EvPut (state w)]
  else w.

(** The object built in [setState]. *)
Definition merge (s : GlobalState) (updates : Updates) (now : Z) : GlobalState :=
  {| serials := default (serials s) (u_serials updates);
     asns := default (asns s) (u_asns updates);
     products := default (products s) (u_products updates);
     ui := default (ui s) (u_ui updates);
     system := let base := default (system s) (u_system updates) in
               {| loading := loading base; lastUpdated := now;
                  errors := errors base |} |}.

(** [setState]: new state, then [notifySubscribers()], then [saveState()]. *)
Definition setState (now : Z) (updater : GlobalState → Updates) (w : World) :
    Completion * World :=
  let updates := updater (state w) in
  let w1 := setW w (db w) (stored w) (merge (state w) updates now) (subscribers w) [] in
  match notifySubscribers w1 with
  | (Returned, w2) => (Returned, saveState w2)
  | (Threw, w2) => (Threw, w2)
  end.

(** [subscribe]: the callback is added and called at once with the state. *)
Definition subscribe (callback : Callback) (w : World) : Completion * World :=
  (if cb_throws callback then Threw else Returned,
   setW w (db w) (stored w) (state w) (set_add callback (subscribers w))
        [EvCall (cb_id callback) (state w)]).

Definition unsubscribe (callback : Callback) (w : World) : World :=
  setW w (db w) (stored w) (state w) (set_delete callback (subscribers w)) [].

Definition getState (w : World) : GlobalState := state w.

(** [loadState], with its answer from the database. *)
Definition loadState (now : Z) (w : World) : Settled unit * World :=
  if db w then
    let st :=
      match stored w with
      | Some result =>
          {| serials := serials result; asns := asns result;
             products := products result; ui := ui result;
             system := {| loading := loading (system result); lastUpdated := now;
                          errors := errors (system result) |} |}
      | None =>
          {| serials := getDefaultSerials; asns := getDefaultASNs;
             products := getDefaultProducts; ui := ui (defaultState (t0 w));
             system := system (defaultState (t0 w)) |}
      end in
    let w1 := setW w (db w) (stored w) st (subscribers w)
                   [EvGet (bool_decide (is_Some (stored w)))] in
    match notifySubscribers w1 with
    | (Returned, w2) => (Resolved (), w2)
    | (Threw, w2) => (Unsettled, w2)
    end
  else (Resolved (), w).

(** [init]: open the database, then [loadState]. *)
Definition init (now : Z) (w : World) : Settled unit * World :=
  loadState now (setW w true (stored w) (state w) (subscribers w) [EvOpen]).

(** *** Actions on the data *)

Definition addSerials (now : Z) (new : list SerialInventory) :=
  setState now (λ s,
    {| u_serials := Some (serials s ++ new); u_asns := None; u_products := None;
       u_ui := None; u_system := None |}).

Definition updateSerial (now : Z) (updatedSerial : SerialInventory) :=
  setState now (λ s,
    {| u_serials := Some ((λ serial, if decide (id serial = id updatedSerial)
                                     then updatedSerial else serial) <$> serials s);
       u_asns := None; u_products := None; u_ui := None; u_system := None |}).

Definition deleteSerial (now : Z) (serialId : string) :=
  setState now (λ s,
    {| u_serials := Some (filter (λ serial, id serial ≠ serialId) (serials s));
       u_asns := None; u_products := None; u_ui := None; u_system := None |}).

Definition updateSerialStatus (now : Z) (serialId : string) (st : SerialStatus)
    (asnId : option string) :=
  setState now (λ s,
    {| u_serials := Some ((λ serial, if decide (id serial = serialId)
                                     then withStatus serial st asnId now
                                     else serial) <$> serials s);
       u_asns := None; u_products := None; u_ui := None; u_system := None |}).

Definition addASN (now : Z) (asn : ASN.t) :=
  setState now (λ s,
    {| u_serials := None; u_asns := Some (asns s ++ [asn]); u_products := None;
       u_ui := None; u_system := None |}).

Definition updateASN (now : Z) (updatedASN : ASN.t) :=
  setState now (λ s,
    {| u_serials := None;
       u_asns := Some ((λ asn, if decide (ASN.id asn = ASN.id updatedASN)
                               then updatedASN else asn) <$> asns s);
       u_products := None; u_ui := None; u_system := None |}).

Definition deleteASN (now : Z) (asnId : string) :=
  setState now (λ s,
    {| u_serials := None;
       u_asns := Some (filter (λ asn, ASN.id asn ≠ asnId) (asns s));
       u_products := None; u_ui := None; u_system := None |}).

Definition addProduct (now : Z) (product : Product.t) :=
  setState now (λ s,
    {| u_serials := None; u_asns := None;
       u_products := Some (products s ++ [product]);
       u_ui := None; u_system := None |}).

Definition updateProduct (now : Z) (updatedProduct : Product.t) :=
  setState now (λ s,
    {| u_serials := None; u_asns := None;
       u_products := Some ((λ product, if decide (Product.id product = Product.id updatedProduct)
                                       then updatedProduct else product) <$> products s);
       u_ui := None; u_system := None |}).

Definition deleteProduct (now : Z) (productId : string) :=
  setState now (λ s,
    {| u_serials := None; u_asns := None;
       u_products := Some (filter (λ product, Product.id product ≠ productId) (products s));
       u_ui := None; u_system := None |}).

(** *** Actions on the system part *)

Definition setLoading (now : Z) (l : bool) :=
  setState now (λ s,
    {| u_serials := None; u_asns := None; u_products := None; u_ui := None;
       u_system := Some {| loading := l; lastUpdated := lastUpdated (system s);
                           errors := errors (system s) |} |}).

Definition addError (now : Z) (error : string) :=
  setState now (λ s,
    {| u_serials := None; u_asns := None; u_products := None; u_ui := None;
       u_system := Some {| loading := loading (system s);
                           lastUpdated := lastUpdated (system s);
                           errors := errors (system s) ++ [error] |} |}).

Definition clearErrors (now : Z) :=
  setState now (λ s,
    {| u_serials := None; u_asns := None; u_products := None; u_ui := None;
       u_system := Some {| loading := loading (system s);
                           lastUpdated := lastUpdated (system s);
                           errors := [] |} |}).

Definition setActiveTab (now : Z) (tab : string) :=
  setState now (λ s,
    {| u_serials := None; u_asns := None; u_products := None;
       u_ui := Some {| activeTab := tab; selectedSerial := selectedSerial (ui s);
                       selectedASN := selectedASN (ui s);
                       selectedProduct := selectedProduct (ui s);
                       searchTerms := searchTerms (ui s); filters := filters (ui s);
                       modals := modals (ui s) |};
       u_system := None |}).

Definition setSelectedSerial (now : Z) (serial : option SerialInventory) :=
  setState now (λ s,
    {| u_serials := None; u_asns := None; u_products := None;
       u_ui := Some {| activeTab := activeTab (ui s); selectedSerial := serial;
                       selectedASN := selectedASN (ui s);
                       selectedProduct := selectedProduct (ui s);
                       searchTerms := searchTerms (ui s); filters := filters (ui s);
                       modals := modals (ui s) |};
       u_system := None |}).

Definition setSelectedASN (now : Z) (asn : option ASN.t) :=
  setState now (λ s,
    {| u_serials := None; u_asns := None; u_products := None;
       u_ui := Some {| activeTab := activeTab (ui s);
                       selectedSerial := selectedSerial (ui s); selectedASN := asn;
                       selectedProduct := selectedProduct (ui s);
                       searchTerms := searchTerms (ui s); filters := filters (ui s);
                       modals := modals (ui s) |};
       u_system := None |}).

Definition setSelectedProduct (now : Z) (product : option Product.t) :=
  setState now (λ s,
    {| u_serials := None; u_asns := None; u_products := None;
       u_ui := Some {| activeTab := activeTab (ui s);
                       selectedSerial := selectedSerial (ui s);
                       selectedASN := selectedASN (ui s); selectedProduct := product;
                       searchTerms := searchTerms (ui s); filters := filters (ui s);
                       modals := modals (ui s) |};
       u_system := None |}).

Inductive SearchKey : Type := KSerials | KAsns | KProducts.

Definition setSearchTerm (now : Z) (type : SearchKey) (term : string) :=
  setState now (λ s,
    let old := searchTerms (ui s) in
    {| u_serials := None; u_asns := None; u_products := None;
       u_ui := Some {| activeTab := activeTab (ui s);
                       selectedSerial := selectedSerial (ui s);
                       selectedASN := selectedASN (ui s);
                       selectedProduct := selectedProduct (ui s);
                       searchTerms :=
                         match type with
                         | KSerials => {| st_serials := term; st_asns := st_asns old;
                                          st_products := st_products old |}
                         | KAsns => {| st_serials := st_serials old; st_asns := term;
                                       st_products := st_products old |}
                         | KProducts => {| st_serials := st_serials old;
                                           st_asns := st_asns old; st_products := term |}
                         end;
                       filters := filters (ui s); modals := modals (ui s) |};
       u_system := None |}).

(** [setFilter(type, value)]: the key together with a value of its type. *)
Inductive FilterChoice : Type :=
  | FSerialStatus (value : option SerialStatus)
  | FAsnStatus (value : option ASN.Status).

Definition setFilter (now : Z) (choice : FilterChoice) :=
  setState now (λ s,
    let old := filters (ui s) in
    {| u_serials := None; u_asns := None; u_products := None;
       u_ui := Some {| activeTab := activeTab (ui s);
                       selectedSerial := selectedSerial (ui s);
                       selectedASN := selectedASN (ui s);
                       selectedProduct := selectedProduct (ui s);
                       searchTerms := searchTerms (ui s);
                       filters :=
                         match choice with
                         | FSerialStatus v => {| serialStatus := v; asnStatus := asnStatus old |}
                         | FAsnStatus v => {| serialStatus := serialStatus old; asnStatus := v |}
                         end;
                       modals := modals (ui s) |};
       u_system := None |}).

Inductive ModalKey : Type :=
  | MSerialDetail | MAsnDetail | MAddSerial | MAddASN | MAssignSerials
  | MUploadChildSerials | MImportSerials.

Definition modalOf (modal : ModalKey) (m : Modals) : bool :=
  match modal with
  | MSerialDetail => serialDetail m
  | MAsnDetail => asnDetail m
  | MAddSerial => addSerial m
  | MAddASN => addASN_modal m
  | MAssignSerials => assignSerials m
  | MUploadChildSerials => uploadChildSerials m
  | MImportSerials => importSerials m
  end.

Definition setModal (modal : ModalKey) (v : bool) (m : Modals) : Modals :=
  {| serialDetail := if modal is MSerialDetail then v else serialDetail m;
     asnDetail := if modal is MAsnDetail then v else asnDetail m;
     addSerial := if modal is MAddSerial then v else addSerial m;
     addASN_modal := if modal is MAddASN then v else addASN_modal m;
     assignSerials := if modal is MAssignSerials then v else assignSerials m;
     uploadChildSerials := if modal is MUploadChildSerials then v else uploadChildSerials m;
     importSerials := if modal is MImportSerials then v else importSerials m |}.

(** [open !== undefined ? open : !state.ui.modals[modal]] *)
Definition toggleModal (now : Z) (modal : ModalKey) (open : option bool) :=
  setState now (λ s,
    let old := modals (ui s) in
    {| u_serials := None; u_asns := None; u_products := None;
       u_ui := Some {| activeTab := activeTab (ui s);
                       selectedSerial := selectedSerial (ui s);
                       selectedASN := selectedASN (ui s);
                       selectedProduct := selectedProduct (ui s);
                       searchTerms := searchTerms (ui s); filters := filters (ui s);
                       modals := setModal modal
                                   (default (negb (modalOf modal old)) open) old |};
       u_system := None |}).

(** One call of a state-changing method, with the instant of the call. *)
Inductive Action : Type :=
  | AddSerials (now : Z) (new : list SerialInventory)
  | UpdateSerial (now : Z) (updatedSerial : SerialInventory)
  | DeleteSerial (now : Z) (serialId : string)
  | UpdateSerialStatus (now : Z) (serialId : string) (st : SerialStatus)
      (asnId : option string)
  | AddASN (now : Z) (asn : ASN.t)
  | UpdateASN (now : Z) (asn : ASN.t)
  | DeleteASN (now : Z) (asnId : string)
  | AddProduct (now : Z) (product : Product.t)
  | UpdateProduct (now : Z) (product : Product.t)
  | DeleteProduct (now : Z) (productId : string)
  | SetActiveTab (now : Z) (tab : string)
  | SetSelectedSerial (now : Z) (serial : option SerialInventory)
  | SetSelectedASN (now : Z) (asn : option ASN.t)
  | SetSelectedProduct (now : Z) (product : option Product.t)
  | SetSearchTerm (now : Z) (type : SearchKey) (term : string)
  | SetFilter (now : Z) (choice : FilterChoice)
  | ToggleModal (now : Z) (modal : ModalKey) (open : option bool)
  | SetLoading (now : Z) (l : bool)
  | AddError (now : Z) (error : string)
  | ClearErrors (now : Z).

Definition dispatch (a : Action) : World → Completion * World :=
  match a with
  | AddSerials now new => addSerials now new
  | UpdateSerial now u => updateSerial now u
  | DeleteSerial now i => deleteSerial now i
  | UpdateSerialStatus now i st a => updateSerialStatus now i st a
  | AddASN now a => addASN now a
  | UpdateASN now a => updateASN now a
  | DeleteASN now i => deleteASN now i
  | AddProduct now p => addProduct now p
  | UpdateProduct now p => updateProduct now p
  | DeleteProduct now i => deleteProduct now i
  | SetActiveTab now t => setActiveTab now t
  | SetSelectedSerial now s => setSelectedSerial now s
  | SetSelectedASN now a => setSelectedASN now a
  | SetSelectedProduct now p => setSelectedProduct now p
  | SetSearchTerm now k t => setSearchTerm now k t
  | SetFilter now c => setFilter now c
  | ToggleModal now m o => toggleModal now m o
  | SetLoading now l => setLoading now l
  | AddError now e => addError now e
  | ClearErrors now => clearErrors now
  end.

(** The calls of a list, one after the other; a call that raises does not
    keep its caller from making the next one. *)
Definition dispatchAll (l : list Action) (w : World) : World :=
  foldl (λ w a, (dispatch a w).2) w l.

(** *** Derived values *)

Definition getSerialsByStatus (st : SerialStatus) (w : World) : list SerialInventory :=
  filter (λ s, status s = st) (serials (state w)).

Definition getSerialsByASN (asnId : string) (w : World) : list SerialInventory :=
  filter (λ s, asn_id s = Some asnId) (serials (state w)).

Definition getSerialsByPartNumber (partNumberId : string) (w : World) :
    list SerialInventory :=
  filter (λ s, part_number_id s = partNumberId) (serials (state w)).

Definition getSerialCounts (w : World) : Counts :=
  countsOf (serials (state w)).

End GlobalStoreManager.

(** ** String and number primitives used by the form *)

(** White space of [String.prototype.trim] and of [parseInt], on ASCII: TAB,
    LF, VT, FF, CR and SP. *)
Definition isWhiteSpace (c : ascii) : bool :=
  let n := N_of_ascii c in
  ((9 <=? n) && (n <=? 13) || (n =? 32))%N.

Fixpoint trimStart (s : string) : string :=
  match s with
  | String c rest => if isWhiteSpace c then trimStart rest else s
  | EmptyString => EmptyString
  end.

Fixpoint trimEnd (s : string) : string :=
  match s with
  | String c rest =>
      match trimEnd rest with
      | EmptyString => if isWhiteSpace c then EmptyString else String c EmptyString
      | rest' => String c rest'
      end
  | EmptyString => EmptyString
  end.

Definition trim (s : string) : string := trimEnd (trimStart s).

(** The value of a character as a digit of the given radix. *)
Definition digitValue (radix : Z) (c : ascii) : option Z :=
  let n := Z.of_N (N_of_ascii c) in
  let v := if ((48 <=? n) && (n <=? 57))%Z then Some (n - 48)
           else if ((97 <=? n) && (n <=? 122))%Z then Some (n - 87)
           else if ((65 <=? n) && (n <=? 90))%Z then Some (n - 55)
           else None in
  match v with
  | Some d => if (d <? radix)%Z then Some d else None
  | None => None
  end.

(** The longest prefix of digits, as a number; [acc] is [None] until a digit
    was read. *)
Fixpoint parseDigits (radix : Z) (s : string) (acc : option Z) : option Z :=
  match s with
  | String c rest =>
      match digitValue radix c with
      | Some d => parseDigits radix rest (Some (default 0 acc * radix + d))
      | None => acc
      end
  | EmptyString => acc
  end.

(** [parseInt(s)] without a radix; [None] is [NaN]. *)
Definition parseInt (s : string) : option Z :=
  let s1 := trimStart s in
  let '(sign, s2) :=
    match s1 with
    | String "-"%char rest => (-1, rest)
    | String "+"%char rest => (1, rest)
    | _ => (1, s1)
    end in
  let '(radix, s3) :=
    match s2 with
    | String "0"%char (String "x"%char rest) => (16, rest)
    | String "0"%char (String "X"%char rest) => (16, rest)
    | _ => (10, s2)
    end in
  (λ m, sign * m) <$> parseDigits radix s3 None.

(** [Number.prototype.toString()] on an integer: decimal digits, with a minus
    sign when negative. *)
Definition toString (i : Z) : string := NilZero.string_of_int (Z.to_int i).

(** The filler of [padStart]: the first [n] characters of [pad] repeated. *)
Fixpoint filler (n : nat) (pad cur : string) : string :=
  match n with
  | O => EmptyString
  | S n' =>
      match cur with
      | String c rest => String c (filler n' pad rest)
      | EmptyString =>
          match pad with
          | String c rest => String c (filler n' pad rest)
          | EmptyString => EmptyString
          end
      end
  end.

(** [s.padStart(targetLength, padString)] *)
Definition padStart (targetLength : nat) (padString s : string) : string :=
  if (targetLength <=? String.length s)%nat then s
  else filler (targetLength - String.length s) padString padString +:+ s.

(** ** Bulk generation: [handleBulkGenerate] of [AddSerialsForm.tsx] *)

Module AddSerialsForm.

(** The state of the bulk generation tab. *)
Record Form : Type := mkForm {
  prefix : string;
  startNumber : string;
  endNumber : string;
  bulkExpiryDate : option Z;
  bulkAttributes : list (string * string);
  loading : bool
}.

Inductive Toast : Type :=
  | InvalidInput            (* "Invalid input" *)
  | RangeTooLarge           (* "Range too large": "Maximum 1000 serials can be
                               generated at once." *)
  | SerialsGenerated (n : nat) (* "Serials generated", with [serials.length] *)
  | ErrorToast.             (* "Error": [addSerials] was rejected *)

(** [acc[key] = value] on a plain object, for a value that is a string; the
    map holds the own properties of the object.  The key [__proto__] is the
    accessor property of [Object.prototype], whose setter does nothing for a
    value that is neither an object nor [null]: no own property is made.  The
    other properties of [Object.prototype] are writable data properties, so
    that every other key becomes an own property with the value. *)
Definition setProperty (key value : string) (acc : gmap string string) :
    gmap string string :=
  if decide (key = "__proto__") then acc else <[key := value]> acc.

(** [createAttributesJson]: the pairs whose trimmed key and trimmed value are
    not empty are assigned to an object that is empty at first, a later pair
    replacing an earlier one with the same key. *)
Definition createAttributesJson (attrs : list (string * string)) : gmap string string :=
  foldl (λ acc attr,
           if bool_decide (trim attr.1 ≠ EmptyString ∧ trim attr.2 ≠ EmptyString)
           then setProperty (trim attr.1) (trim attr.2) acc else acc)
        ∅ attrs.

(** The object pushed for the number [i]. *)
Definition generated (product : Product.t) (f : Form) (now i : Z) : SerialInventory :=
  {| id := "serial_" +:+ toString now +:+ "_" +:+ toString i;
     supplier_id := "sup1";
     buyer_id := "buy1";
     part_number_id := Product.id product;
     serial_number := prefix f +:+ padStart 3 "0" (toString i);
     status := unassigned;
     asn_id := None;
     attributes_json := Some (createAttributesJson (bulkAttributes f));
     parent_serial_id := None;
     parent_serial_number := None;
     expiry_date := bulkExpiryDate f;
     created_date := now;
     updated_date := now;
     created_by := "user";
     updated_by := "user" |}.

(** [for (let i = start; i <= end; i++) serials.push(...)], for safe integers
    [start] and [end]: there [i++] is exact and the loop visits the integers
    from [start] to [end] one after the other.  From 2^53 on [i++] does not
    advance and the loop of the source does not end; the statements about
    this function are made for safe integers only. *)
Definition generateRange (product : Product.t) (f : Form) (now start end_ : Z) :
    list SerialInventory :=
  generated product f now <$> seqZ start (end_ - start + 1).

Definition withLoading (f : Form) (b : bool) : Form :=
  {| prefix := prefix f; startNumber := startNumber f; endNumber := endNumber f;
     bulkExpiryDate := bulkExpiryDate f; bulkAttributes := bulkAttributes f;
     loading := b |}.

(** The fields after a successful generation. *)
Definition cleared : Form :=
  {| prefix := EmptyString; startNumber := EmptyString; endNumber := EmptyString;
     bulkExpiryDate := None; bulkAttributes := []; loading := false |}.

(** [handleBulkGenerate]: the toast shown (when the handler comes to its end),
    the form and the store afterwards.  The two guards return before anything
    else is done. *)
Definition handleBulkGenerate (product : Product.t) (now : Z) (f : Form)
    (w : SerialStoreManager.World) :
    Settled Toast * Form * SerialStoreManager.World :=
  match parseInt (startNumber f), parseInt (endNumber f) with
  | Some start, Some end_ =>
      if bool_decide (trim (prefix f) = EmptyString) || (end_ <? start)%Z
      then (Resolved InvalidInput, f, w)
      else if (1000 <? end_ - start)%Z
      then (Resolved RangeTooLarge, f, w)
      else
        let serials := generateRange product f now start end_ in
        match SerialStoreManager.addSerials now serials w with
        | (Resolved _, w') => (Resolved (SerialsGenerated (length serials)), cleared, w')
        | (Unsettled, w') => (Unsettled, withLoading f true, w')
        end
  | _, _ => (Resolved InvalidInput, f, w)
  end.

End AddSerialsForm.

(** ** More string and array primitives *)

(** [String.prototype.toLowerCase], on ASCII. *)
Definition toLowerChar (c : ascii) : ascii :=
  let n := N_of_ascii c in
  if ((65 <=? n) && (n <=? 90))%N then ascii_of_N (n + 32) else c.

Fixpoint toLowerCase (s : string) : string :=
  match s with
  | String c rest => String (toLowerChar c) (toLowerCase rest)
  | EmptyString => EmptyString
  end.

(** [s.includes(t)]: [t] occurs in [s]. *)
Fixpoint includes (s t : string) : bool :=
  if String.prefix t s then true
  else match s with
       | String _ rest => includes rest t
       | EmptyString => false
       end.

(** [s.split(sep)] for a separator of one character. *)
Fixpoint splitOn (sep : ascii) (s : string) : list string :=
  match s with
  | EmptyString => [EmptyString]
  | String c rest =>
      if Ascii.eqb c sep then EmptyString :: splitOn sep rest
      else match splitOn sep rest with
           | line :: lines => String c line :: lines
           | [] => [String c EmptyString]
           end
  end.

(** [l.slice(start, end)], with the negative indices counted from the end. *)
Definition slice {A} (l : list A) (start end_ : Z) : list A :=
  let len := Z.of_nat (length l) in
  let k := if (start <? 0)%Z then Z.max (len + start) 0 else Z.min start len in
  let final := if (end_ <? 0)%Z then Z.max (len + end_) 0 else Z.min end_ len in
  take (Z.to_nat (final - k)) (drop (Z.to_nat k) l).

(** [Set.prototype.add] and [delete] on a set of strings kept in insertion
    order. *)
Definition ids_add (x : string) (s : list string) : list string :=
  if decide (x ∈ s) then s else s ++ [x].

Definition ids_delete (x : string) (s : list string) : list string :=
  filter (λ y, y ≠ x) s.

#[global] Instance ASN_Status_eq_dec : EqDecision ASN.Status.
Proof. solve_decision. Defined.

(** ** The filtered lists of the global store *)

Module GlobalStoreDerived.
Import GlobalStoreManager.

Definition getFilteredSerials (w : World) : list SerialInventory :=
  let filtered := serials (state w) in
  let filtered :=
    match serialStatus (filters (ui (state w))) with
    | Some st => filter (λ s, status s = st) filtered
    | None => filtered
    end in
  let q := st_serials (searchTerms (ui (state w))) in
  if decide (q = EmptyString) then filtered
  else
    let term := toLowerCase q in
    filter (λ s, includes (toLowerCase (serial_number s)) term
                 || includes (toLowerCase (part_number_id s)) term) filtered.

Definition getFilteredASNs (w : World) : list ASN.t :=
  let filtered := asns (state w) in
  let filtered :=
    match asnStatus (filters (ui (state w))) with
    | Some st => filter (λ a, ASN.status a = st) filtered
    | None => filtered
    end in
  let q := st_asns (searchTerms (ui (state w))) in
  if decide (q = EmptyString) then filtered
  else
    let term := toLowerCase q in
    filter (λ a, includes (toLowerCase (ASN.asn_number a)) term : Prop) filtered.

Definition getFilteredProducts (w : World) : list Product.t :=
  let filtered := products (state w) in
  let q := st_products (searchTerms (ui (state w))) in
  if decide (q = EmptyString) then filtered
  else
    let term := toLowerCase q in
    filter (λ p, includes (toLowerCase (Product.buyer_part_number p)) term
                 || includes (toLowerCase (Product.description p)) term) filtered.

End GlobalStoreDerived.

(** ** The rest of [AddSerialsForm.tsx]: single entry and preview *)

Module AddSerialsFormSingle.
Import AddSerialsForm.

(** The state of the single entry tab. *)
Record Single : Type := mkSingle {
  singleSerial : string;
  expiryDate : option Z;
  attributes : list (string * string);
  busy : bool
}.

Inductive Notice : Type :=
  | SerialAdded (serial : string)   (* "Serial added", with [singleSerial] *)
  | AddFailed.                      (* "Error": [addSerials] was rejected *)

(** [handleSingleAdd]: nothing at all for a blank serial number; otherwise one
    unit is added and the fields are cleared. *)
Definition handleSingleAdd (product : Product.t) (now : Z) (f : Single)
    (w : SerialStoreManager.World) :
    Settled (option Notice) * Single * SerialStoreManager.World :=
  if decide (trim (singleSerial f) = EmptyString) then (Resolved None, f, w)
  else
    let newSerial :=
      {| id := "serial_" +:+ toString now;
         supplier_id := "sup1";
         buyer_id := "buy1";
         part_number_id := Product.id product;
         serial_number := trim (singleSerial f);
         status := unassigned;
         asn_id := None;
         attributes_json := Some (createAttributesJson (attributes f));
         parent_serial_id := None;
         parent_serial_number := None;
         expiry_date := expiryDate f;
         created_date := now;
         updated_date := now;
         created_by := "user";
         updated_by := "user" |} in
    match SerialStoreManager.addSerials now [newSerial] w with
    | (Resolved _, w') =>
        (Resolved (Some (SerialAdded (singleSerial f))),
         {| singleSerial := EmptyString; expiryDate := None; attributes := [];
            busy := false |}, w')
    | (Unsettled, w') =>
        (Unsettled,
         {| singleSerial := singleSerial f; expiryDate := expiryDate f;
            attributes := attributes f; busy := true |}, w')
    end.

(** [getBulkPreview]: the first five numbers of the range, and an ellipsis
    when there are more. *)
Definition getBulkPreview (f : Form) : list string :=
  match parseInt (startNumber f), parseInt (endNumber f) with
  | Some start, Some end_ =>
      if bool_decide (trim (prefix f) = EmptyString) || (end_ <? start)%Z then []
      else
        let count := Z.min (end_ - start + 1) 5 in
        ((λ i, prefix f +:+ padStart 3 "0" (toString (start + i))) <$> seqZ 0 count)
        ++ (if (5 <? end_ - start + 1)%Z then ["..."] else [])
  | _, _ => []
  end.

End AddSerialsFormSingle.

(** ** CSV import: [ImportSerialsForm.tsx] *)

Module ImportSerialsForm.

(** A [File]: its MIME type and its text. *)
Record File : Type := mkFile {
  file_type : string;
  file_text : string
}.

Record Import : Type := mkImport {
  csvFile : option File;
  expiryDate : option Z;
  attributes : list (string * string);
  busy : bool;
  closed : bool                     (* [onClose()] was called *)
}.

Inductive Notice : Type :=
  | InvalidFile               (* "Invalid file" *)
  | NoData                    (* "No data" *)
  | SerialsImported (n : nat) (* "Serials imported", with [serials.length] *)
  | ImportFailed.             (* "Error" *)

(** [handleFileUpload]: a file of type 'text/csv' is kept, anything else is
    answered with a toast. *)
Definition handleFileUpload (file : option File) (f : Import) : option Notice * Import :=
  match file with
  | Some file' =>
      if decide (file_type file' = "text/csv")
      then (None, {| csvFile := Some file'; expiryDate := expiryDate f;
                     attributes := attributes f; busy := busy f; closed := closed f |})
      else (Some InvalidFile, f)
  | None => (Some InvalidFile, f)
  end.

(** [text.trim().split('\n').filter(line => line.trim())], each line trimmed. *)
Definition serialLines (text : string) : list string :=
  trim <$> filter (λ line, trim line ≠ EmptyString) (splitOn "010"%char (trim text)).

(** The object pushed for the [k]-th line; [random k] is the text of the
    value of [Math.random()] in it. *)
Definition imported (product : Product.t) (f : Import) (now : Z) (random : nat → string)
    (k : nat) (line : string) : SerialInventory :=
  {| id := "serial_" +:+ toString now +:+ "_" +:+ random k;
     supplier_id := "sup1";
     buyer_id := "buy1";
     part_number_id := Product.id product;
     serial_number := line;
     status := unassigned;
     asn_id := None;
     attributes_json := Some (AddSerialsForm.createAttributesJson (attributes f));
     parent_serial_id := None;
     parent_serial_number := None;
     expiry_date := expiryDate f;
     created_date := now;
     updated_date := now;
     created_by := "user";
     updated_by := "user" |}.

Definition withBusy (f : Import) (b c : bool) : Import :=
  {| csvFile := csvFile f; expiryDate := expiryDate f; attributes := attributes f;
     busy := b; closed := c |}.

(** [handleImport] *)
Definition handleImport (product : Product.t) (now : Z) (random : nat → string)
    (f : Import) (w : SerialStoreManager.World) :
    Settled (option Notice) * Import * SerialStoreManager.World :=
  match csvFile f with
  | None => (Resolved None, f, w)
  | Some file =>
      let serials := imap (imported product f now random) (serialLines (file_text file)) in
      if decide (length serials = 0%nat)
      then (Resolved (Some NoData), withBusy f false (closed f), w)
      else
        match SerialStoreManager.addSerials now serials w with
        | (Resolved _, w') =>
            (Resolved (Some (SerialsImported (length serials))), withBusy f false true, w')
        | (Unsettled, w') => (Unsettled, withBusy f true (closed f), w')
        end
  end.

End ImportSerialsForm.

(** ** Assigning serials to an ASN: [SerialGridView.tsx] *)

Module SerialGridView.

Record Props : Type := mkProps {
  asn : ASN.t;
  partNumbers : option (list string);
  hasAssignmentContext : bool;      (* [assignmentContext] is given *)
  contextLaunched : bool
}.

Record View : Type := mkView {
  blockedSerials : list SerialInventory;
  inventorySerials : list SerialInventory;
  selectedSerials : list string;
  searchTerm : string;
  statusFilter : string;
  partNumberFilter : list string;
  currentPage : Z
}.

Definition ITEMS_PER_PAGE : Z := 100.

(** The value of the type [SerialStatus] as a string. *)
Definition statusName (st : SerialStatus) : string :=
  match st with
  | unassigned => "unassigned"
  | blocked => "blocked"
  | assigned => "assigned"
  end.

Definition withLists (v : View) (b i : list SerialInventory) : View :=
  {| blockedSerials := b; inventorySerials := i; selectedSerials := selectedSerials v;
     searchTerm := searchTerm v; statusFilter := statusFilter v;
     partNumberFilter := partNumberFilter v; currentPage := currentPage v |}.

Definition withSelection (v : View) (sel : list string) : View :=
  {| blockedSerials := blockedSerials v; inventorySerials := inventorySerials v;
     selectedSerials := sel; searchTerm := searchTerm v; statusFilter := statusFilter v;
     partNumberFilter := partNumberFilter v; currentPage := currentPage v |}.

Definition withPage (v : View) (n : Z) : View :=
  {| blockedSerials := blockedSerials v; inventorySerials := inventorySerials v;
     selectedSerials := selectedSerials v; searchTerm := searchTerm v;
     statusFilter := statusFilter v; partNumberFilter := partNumberFilter v;
     currentPage := n |}.

(** The buttons "Previous" and "Next" under a list of [total] pages:
    [setCurrentPage(Math.max(1, currentPage - 1))] and
    [setCurrentPage(Math.min(total, currentPage + 1))]. *)
Definition previousPage (v : View) : View :=
  withPage v (Z.max 1 (currentPage v - 1)).

Definition nextPage (total : Z) (v : View) : View :=
  withPage v (Z.min total (currentPage v + 1)).

(** [loadSerials] *)
Definition loadSerials (p : Props) (now : Z) (v : View) (w : SerialStoreManager.World) :
    Settled View * SerialStoreManager.World :=
  match SerialStoreManager.getSerialsByASN now (ASN.id (asn p)) w with
  | (Resolved asnSerials, w1) =>
      match SerialStoreManager.getSerialsByStatus now unassigned w1 with
      | (Resolved inventory, w2) =>
          (Resolved (withLists v (filter (λ s, status s = blocked) asnSerials) inventory), w2)
      | (Unsettled, w2) => (Unsettled, w2)
      end
  | (Unsettled, w1) => (Unsettled, w1)
  end.

Definition matches (p : Props) (v : View) (serial : SerialInventory) : bool :=
  includes (toLowerCase (serial_number serial)) (toLowerCase (searchTerm v))
  && (bool_decide (statusFilter v = "all")
      || bool_decide (statusName (status serial) = statusFilter v))
  && (bool_decide (length (partNumberFilter v) = 0%nat)
      || bool_decide (part_number_id serial ∈ partNumberFilter v))
  && match partNumbers p with
     | None => true
     | Some l => bool_decide (part_number_id serial ∈ l)
     end.

Definition filterSerials (p : Props) (v : View) (l : list SerialInventory) :
    list SerialInventory :=
  filter (λ serial, matches p v serial : Prop) l.

(** The serials of the current page. *)
Definition getFilteredSerials (p : Props) (v : View) (l : list SerialInventory) :
    list SerialInventory :=
  let startIndex := (currentPage v - 1) * ITEMS_PER_PAGE in
  slice (filterSerials p v l) startIndex (startIndex + ITEMS_PER_PAGE).

(** [Math.ceil(filtered.length / ITEMS_PER_PAGE)] *)
Definition getTotalPages (p : Props) (v : View) (l : list SerialInventory) : Z :=
  (Z.of_nat (length (filterSerials p v l)) + ITEMS_PER_PAGE - 1) / ITEMS_PER_PAGE.

(** The loop of [handleAssignSelected]: one awaited [updateSerialStatus] after
    the other. *)
Fixpoint assignEach (now : Z) (asnId : string) (ids : list string) :
    SerialStoreManager.Async unit :=
  match ids with
  | [] => SerialStoreManager.resolve ()
  | serialId :: rest =>
      SerialStoreManager.await
        (SerialStoreManager.updateSerialStatus now serialId blocked (Some asnId))
        (λ _, assignEach now asnId rest)
  end.

(** [handleAssignSelected(serialIds?)]: the given ids, or else the selected
    ones, are blocked for the ASN; then the selection is emptied and the lists
    are loaded again. *)
Definition handleAssignSelected (p : Props) (now : Z) (serialIds : option (list string))
    (v : View) (w : SerialStoreManager.World) : Settled View * SerialStoreManager.World :=
  let idsToAssign := default (selectedSerials v) serialIds in
  match assignEach now (ASN.id (asn p)) idsToAssign w with
  | (Resolved _, w1) => loadSerials p now (withSelection v []) w1
  | (Unsettled, w1) => (Unsettled, w1)
  end.

(** [handleSerialSelection(serialId, selected)]: the id is put into the
    selection or taken out of it; when the view was launched with an
    assignment context, a serial that is selected is assigned at once. *)
Definition handleSerialSelection (p : Props) (now : Z) (serialId : string) (selected : bool)
    (v : View) (w : SerialStoreManager.World) : Settled View * SerialStoreManager.World :=
  let newSelected :=
    if selected then ids_add serialId (selectedSerials v)
    else ids_delete serialId (selectedSerials v) in
  if contextLaunched p && selected && hasAssignmentContext p
  then handleAssignSelected p now (Some [serialId]) (withSelection v newSelected) w
  else (Resolved (withSelection v newSelected), w).

(** [handleSelectAll]: when every serial of the page is selected they are all
    taken out of the selection, otherwise they are all put in. *)
Definition handleSelectAll (p : Props) (v : View) (l : list SerialInventory) : View :=
  let page := getFilteredSerials p v l in
  if bool_decide (Forall (λ serial, id serial ∈ selectedSerials v) page)
  then withSelection v (foldl (λ sel serial, ids_delete (id serial) sel) (selectedSerials v) page)
  else withSelection v (foldl (λ sel serial, ids_add (id serial) sel) (selectedSerials v) page).

End SerialGridView.

(** * Vocabulary of the statements *)

(** No callback of the list raises. *)
Definition quiet (cbs : list Callback) : Prop :=
  Forall (λ c, cb_throws c = false) cbs.

(** The events of opening the database, when it is not open yet. *)
Definition opening (opened : bool) : list SerialStoreManager.Event :=
  if opened then [] else [SerialStoreManager.EvOpen].

(** The serials a read of the per-domain store answers with: those of the
    record, or the seed when there is no record. *)
Definition readable (w : SerialStoreManager.World) : list SerialInventory :=
  match SerialStoreManager.stored w with
  | Some s => SerialStoreManager.serials s
  | None => getDefaultSerials
  end.

(** [Number.isSafeInteger]: the integers the embedding of numbers is exact on. *)
Definition safeInteger (n : Z) : Prop := - (2 ^ 53 - 1) ≤ n ≤ 2 ^ 53 - 1.

(** The status invariant of a serial, with respect to the ASNs of its
    snapshot: unassigned exactly when it has no ASN, and otherwise the ASN it
    names is one of the snapshot. *)
Definition statusInvariant (asns : list ASN.t) (u : SerialInventory) : Prop :=
  (status u = unassigned ↔ asn_id u = None) ∧
  (status u ≠ unassigned → ∃ a, asn_id u = Some a ∧ a ∈ ASN.id <$> asns).

(** The same of the arguments [status] and [asnId] of [updateSerialStatus]. *)
Definition argumentsInvariant (asns : list ASN.t) (st : SerialStatus)
    (asnId : option string) : Prop :=
  (st = unassigned ↔ asnId = None) ∧
  (st ≠ unassigned → ∃ a, asnId = Some a ∧ a ∈ ASN.id <$> asns).

(** A call of the per-domain store whose arguments satisfy the invariant. *)
Definition respects (asns : list ASN.t) (o : SerialStoreManager.Op) : Prop :=
  match o with
  | SerialStoreManager.AddSerials _ new => Forall (statusInvariant asns) new
  | SerialStoreManager.UpdateSerial _ u => statusInvariant asns u
  | SerialStoreManager.UpdateSerialStatus _ _ st a => argumentsInvariant asns st a
  | _ => True
  end.

(** A call of the global store that is one of the three mutations of serials,
    with arguments that satisfy the invariant. *)
Definition respectsG (asns : list ASN.t) (a : GlobalStoreManager.Action) : Prop :=
  match a with
  | GlobalStoreManager.AddSerials _ new => Forall (statusInvariant asns) new
  | GlobalStoreManager.UpdateSerial _ u => statusInvariant asns u
  | GlobalStoreManager.UpdateSerialStatus _ _ st a => argumentsInvariant asns st a
  | _ => False
  end.

(** The instant of a call of the per-domain store. *)
Definition instant (o : SerialStoreManager.Op) : Z :=
  match o with
  | SerialStoreManager.GetStore now
  | SerialStoreManager.AddSerials now _
  | SerialStoreManager.UpdateSerial now _
  | SerialStoreManager.UpdateSerialStatus now _ _ _
  | SerialStoreManager.GetSerialsByStatus now _
  | SerialStoreManager.GetSerialsByASN now _
  | SerialStoreManager.GetSerialsByPartNumber now _
  | SerialStoreManager.GetSerialCounts now => now
  end.

(** The serials a call hands to [setStore], given the store it has read;
    [None] when it does not call [setStore]. *)
Definition effect (o : SerialStoreManager.Op) (s : SerialStoreManager.SerialStore) :
    option (list SerialInventory) :=
  match o with
  | SerialStoreManager.AddSerials _ new => Some (SerialStoreManager.serials s ++ new)
  | SerialStoreManager.UpdateSerial _ v =>
      match list_find (λ x, id x = id v) (SerialStoreManager.serials s) with
      | Some (i, _) => Some (<[i := v]> (SerialStoreManager.serials s))
      | None => None
      end
  | SerialStoreManager.UpdateSerialStatus now serialId st asnId =>
      match list_find (λ x, id x = serialId) (SerialStoreManager.serials s) with
      | Some (i, u) => Some (<[i := withStatus u st asnId now]> (SerialStoreManager.serials s))
      | None => None
      end
  | _ => None
  end.

(** The store a read at [now] answers with. *)
Definition answered (now : Z) (w : SerialStoreManager.World) : SerialStoreManager.SerialStore :=
  default (SerialStoreManager.defaultStore now) (SerialStoreManager.stored w).

(** The number of [put]s of a call: one for the seed when there is no record,
    one when the call comes to [setStore]. *)
Definition writes (o : SerialStoreManager.Op) (w : SerialStoreManager.World) : nat :=
  ((if SerialStoreManager.stored w is None then 1 else 0)
   + (if effect o (answered (instant o) w) is Some _ then 1 else 0))%nat.

(** The number of [put]s of a sequence of calls. *)
Fixpoint writesAll (ops : list SerialStoreManager.Op) (w : SerialStoreManager.World) : nat :=
  match ops with
  | [] => 0
  | o :: rest => (writes o w + writesAll rest (SerialStoreManager.perform o w))%nat
  end.

(** No two serials of the list have the same id. *)
Definition uniqueIds (l : list SerialInventory) : Prop := NoDup (id <$> l).

(** The action of the global store that goes by the name of a mutation of
    the per-domain store. *)
Definition asAction (o : SerialStoreManager.Op) : option GlobalStoreManager.Action :=
  match o with
  | SerialStoreManager.AddSerials now new => Some (GlobalStoreManager.AddSerials now new)
  | SerialStoreManager.UpdateSerial now v => Some (GlobalStoreManager.UpdateSerial now v)
  | SerialStoreManager.UpdateSerialStatus now i st a =>
      Some (GlobalStoreManager.UpdateSerialStatus now i st a)
  | _ => None
  end.

(** The serials of [l] with those whose id is in [ids] blocked for [asnId]. *)
Definition blockAll (ids : list string) (asnId : string) (now : Z)
    (l : list SerialInventory) : list SerialInventory :=
  (λ u, if decide (id u ∈ ids) then withStatus u blocked (Some asnId) now else u) <$> l.

(** The sum of two count objects, field by field. *)
Definition addCounts (a b : Counts) : Counts :=
  {| total := total a + total b;
     unassigned_count := unassigned_count a + unassigned_count b;
     blocked_count := blocked_count a + blocked_count b;
     assigned_count := assigned_count a + assigned_count b |}.

(** The instant of an action of the global store. *)
Definition actionInstant (a : GlobalStoreManager.Action) : Z :=
  match a with
  | GlobalStoreManager.AddSerials now _
  | GlobalStoreManager.UpdateSerial now _
  | GlobalStoreManager.DeleteSerial now _
  | GlobalStoreManager.UpdateSerialStatus now _ _ _
  | GlobalStoreManager.AddASN now _
  | GlobalStoreManager.UpdateASN now _
  | GlobalStoreManager.DeleteASN now _
  | GlobalStoreManager.AddProduct now _
  | GlobalStoreManager.UpdateProduct now _
  | GlobalStoreManager.DeleteProduct now _
  | GlobalStoreManager.SetActiveTab now _
  | GlobalStoreManager.SetSelectedSerial now _
  | GlobalStoreManager.SetSelectedASN now _
  | GlobalStoreManager.SetSelectedProduct now _
  | GlobalStoreManager.SetSearchTerm now _ _
  | GlobalStoreManager.SetFilter now _
  | GlobalStoreManager.ToggleModal now _ _
  | GlobalStoreManager.SetLoading now _
  | GlobalStoreManager.AddError now _
  | GlobalStoreManager.ClearErrors now => now
  end.

(** The actions on the collections of serials, ASNs and products. *)
Definition onData (a : GlobalStoreManager.Action) : bool :=
  match a with
  | GlobalStoreManager.AddSerials _ _
  | GlobalStoreManager.UpdateSerial _ _
  | GlobalStoreManager.DeleteSerial _ _
  | GlobalStoreManager.UpdateSerialStatus _ _ _ _
  | GlobalStoreManager.AddASN _ _
  | GlobalStoreManager.UpdateASN _ _
  | GlobalStoreManager.DeleteASN _ _
  | GlobalStoreManager.AddProduct _ _
  | GlobalStoreManager.UpdateProduct _ _
  | GlobalStoreManager.DeleteProduct _ _ => true
  | _ => false
  end.

(** The state with [lastUpdated] set, as [loadState] builds it from a record. *)
Definition reloaded (st : GlobalStoreManager.GlobalState) (now : Z) :
    GlobalStoreManager.GlobalState :=
  {| GlobalStoreManager.serials := GlobalStoreManager.serials st;
     GlobalStoreManager.asns := GlobalStoreManager.asns st;
     GlobalStoreManager.products := GlobalStoreManager.products st;
     GlobalStoreManager.ui := GlobalStoreManager.ui st;
     GlobalStoreManager.system :=
       {| GlobalStoreManager.loading := GlobalStoreManager.loading (GlobalStoreManager.system st);
          GlobalStoreManager.lastUpdated := now;
          GlobalStoreManager.errors := GlobalStoreManager.errors (GlobalStoreManager.system st) |} |}.

(** * Properties *)

(** ** The observer list *)

Lemma forEach_call_quiet cbs :
  quiet cbs → forEach_call cbs = (cb_id <$> cbs, true).
Proof.
  induction 1 as [|c cbs Hc _ IH]; [done|].
  simpl. by rewrite Hc, IH.
Qed.

Lemma forEach_call_raises pre c post :
  quiet pre → cb_throws c = true →
  forEach_call (pre ++ c :: post) = (cb_id <$> (pre ++ [c]), false).
Proof.
  intros Hpre Hc. induction Hpre as [|p pre Hp _ IH]; simpl.
  - by rewrite Hc.
  - by rewrite Hp, IH.
Qed.

Lemma forEach_call_ok_quiet cbs :
  (forEach_call cbs).2 = true → quiet cbs.
Proof.
  induction cbs as [|c cbs IH]; [constructor|].
  simpl. destruct (cb_throws c) eqn:Hc; [done|].
  destruct (forEach_call cbs) as [called ok]. simpl. intros ->.
  constructor; [done|]. by apply IH.
Qed.

Lemma set_add_quiet c subs :
  cb_throws c = false → quiet subs → quiet (set_add c subs).
Proof.
  intros Hc Hq. unfold set_add. case_decide; [done|].
  apply Forall_app. split; [done|]. by constructor.
Qed.

Lemma set_add_elem c subs : c ∈ set_add c subs.
Proof. unfold set_add. case_decide; [done|]. set_solver. Qed.

Lemma set_add_NoDup c subs :
  NoDup (cb_id <$> subs) → c ∈ subs ∨ cb_id c ∉ cb_id <$> subs →
  NoDup (cb_id <$> set_add c subs).
Proof.
  intros Hnd Hc. unfold set_add. case_decide; [done|].
  destruct Hc as [?|Hc]; [done|].
  rewrite fmap_app. apply NoDup_app. split; [done|]. split.
  - intros x Hx [->|[]%elem_of_nil]%elem_of_cons. done.
  - apply NoDup_singleton.
Qed.

(** A [map] that rewrites the elements with a property, none having it. *)
Lemma fmap_if_none {A} (P : A → Prop) `{!∀ x, Decision (P x)} (f : A → A) (l : list A) :
  Forall (λ x, ¬ P x) l → (λ x, if decide (P x) then f x else x) <$> l = l.
Proof.
  induction 1 as [|x l Hx _ IH]; [done|].
  rewrite fmap_cons, IH. by case_decide.
Qed.

Lemma count_not_in (x : nat) (l : list nat) :
  x ∉ l → length (filter (λ y, y = x) l) = 0%nat.
Proof.
  induction l as [|y l IH]; [done|].
  intros [Hxy Hx]%not_elem_of_cons. rewrite filter_cons.
  rewrite decide_False by done. by apply IH.
Qed.

(** In a list without repetition an element is counted once. *)
Lemma count_in_NoDup (x : nat) (l : list nat) :
  NoDup l → x ∈ l → length (filter (λ y, y = x) l) = 1%nat.
Proof.
  induction 1 as [|y l Hy _ IH]; [by intros ?%elem_of_nil|].
  rewrite filter_cons. intros [->|Hx]%elem_of_cons.
  - rewrite decide_True by done. simpl. f_equal. by apply count_not_in.
  - rewrite decide_False by (by intros ->). by apply IH.
Qed.

(** ** The per-domain store *)

Module SerialStoreFacts.
Import SerialStoreManager.

Lemma calls_app tr1 tr2 : calls (tr1 ++ tr2) = calls tr1 ++ calls tr2.
Proof. apply omap_app. Qed.

Lemma puts_app tr1 tr2 : puts (tr1 ++ tr2) = puts tr1 ++ puts tr2.
Proof. apply omap_app. Qed.

Lemma calls_EvCall (l : list nat) : calls (EvCall <$> l) = l.
Proof. induction l as [|c l IH]; [done|]. simpl. by f_equal. Qed.

Lemma puts_EvCall (l : list nat) : puts (EvCall <$> l) = [].
Proof. by induction l. Qed.

Lemma calls_opening d : calls (opening d) = [].
Proof. by destruct d. Qed.

Lemma puts_opening d : puts (opening d) = [].
Proof. by destruct d. Qed.

Lemma notified_app c tr1 tr2 :
  notified c (tr1 ++ tr2) = (notified c tr1 + notified c tr2)%nat.
Proof. unfold notified. by rewrite calls_app, filter_app, length_app. Qed.

Lemma setStore_eq now data w :
  setStore now data w =
    let '(called, ok) := forEach_call (subscribers w) in
    (if ok then Resolved () else Unsettled,
     {| db := true;
        stored := if ok then Some (stamp data now) else stored w;
        subscribers := subscribers w;
        trace := (trace w ++ opening (db w)) ++ [EvPut (stamp data now)]
                 ++ (EvCall <$> called) |}).
Proof.
  destruct w as [d r subs tr]. unfold setStore, await, ensureDb, init, notifySubscribers, emit.
  simpl. destruct d; simpl; destruct (forEach_call subs) as [called [|]]; simpl;
    rewrite <- ?app_assoc; try rewrite app_nil_r; reflexivity.
Qed.

Lemma getStore_hit now s d subs tr :
  getStore now (mkWorld d (Some s) subs tr) =
    (Resolved s, mkWorld true (Some s) subs ((tr ++ opening d) ++ [EvGet true])).
Proof.
  unfold getStore, await, ensureDb, init, emit. destruct d; simpl;
    rewrite ?app_nil_r; reflexivity.
Qed.

Lemma getStore_miss now d subs tr :
  getStore now (mkWorld d None subs tr) =
    let '(called, ok) := forEach_call subs in
    (Resolved (defaultStore now),
     mkWorld true (if ok then Some (defaultStore now) else None) subs
       ((tr ++ opening d) ++ [EvGet false; EvPut (defaultStore now)]
        ++ (EvCall <$> called))).
Proof.
  unfold getStore, await, ensureDb. destruct d; simpl.
  - rewrite setStore_eq. simpl. destruct (forEach_call subs) as [called [|]]; simpl;
      rewrite ?app_nil_r, <- ?app_assoc; reflexivity.
  - rewrite setStore_eq. simpl. destruct (forEach_call subs) as [called [|]]; simpl;
      rewrite ?app_nil_r, <- ?app_assoc; reflexivity.
Qed.

(** The three status filters split a list. *)
Lemma length_by_status (l : list SerialInventory) :
  length l =
    (length (filter (λ s, status s = unassigned) l)
     + length (filter (λ s, status s = blocked) l)
     + length (filter (λ s, status s = assigned) l))%nat.
Proof.
  induction l as [|u l IH]; [done|].
  rewrite !filter_cons. destruct (status u) eqn:Hu;
    repeat case_decide; try congruence; simpl; lia.
Qed.

Lemma getStore_readable now w :
  ∃ s w', getStore now w = (Resolved s, w') ∧ serials s = readable w ∧
          readable w' = readable w.
Proof.
  destruct w as [d [s|] subs tr].
  - rewrite getStore_hit. eauto.
  - rewrite getStore_miss. destruct (forEach_call subs) as [called [|]]; eauto.
Qed.

Lemma getSerialCounts_readable now w :
  ∃ w', getSerialCounts now w = (Resolved (countsOf (readable w)), w') ∧
        readable w' = readable w.
Proof.
  destruct (getStore_readable now w) as (s & w' & Hg & Hs & Hr).
  exists w'. unfold getSerialCounts, await, resolve. by rewrite Hg, Hs.
Qed.

Lemma getSerialsByStatus_readable now st w :
  ∃ w', getSerialsByStatus now st w =
          (Resolved (filter (λ u, status u = st) (readable w)), w') ∧
        readable w' = readable w.
Proof.
  destruct (getStore_readable now w) as (s & w' & Hg & Hs & Hr).
  exists w'. unfold getSerialsByStatus, await, resolve. by rewrite Hg, Hs.
Qed.

Lemma setStore_quiet now data d r subs tr :
  quiet subs →
  setStore now data (mkWorld d r subs tr) =
    (Resolved (),
     mkWorld true (Some (stamp data now)) subs
       ((tr ++ opening d) ++ [EvPut (stamp data now)] ++ (EvCall ∘ cb_id <$> subs))).
Proof.
  intros Hq. rewrite setStore_eq. simpl.
  rewrite (forEach_call_quiet _ Hq). by rewrite <- list_fmap_compose.
Qed.

Lemma setStore_resolved_quiet now data w :
  (setStore now data w).1 = Resolved () → quiet (subscribers w).
Proof.
  rewrite setStore_eq. intros H. apply forEach_call_ok_quiet.
  by destruct (forEach_call (subscribers w)) as [called [|]].
Qed.

Lemma updateSerialStatus_found now serialId st asnId s d subs tr i u :
  list_find (λ x, id x = serialId) (serials s) = Some (i, u) →
  updateSerialStatus now serialId st asnId (mkWorld d (Some s) subs tr) =
    setStore now (withSerials s (<[i := withStatus u st asnId now]> (serials s)))
      (mkWorld true (Some s) subs ((tr ++ opening d) ++ [EvGet true])).
Proof.
  intros Hf. unfold updateSerialStatus, await. by rewrite getStore_hit, Hf.
Qed.

Lemma updateSerialStatus_unknown now serialId st asnId s d subs tr :
  list_find (λ x, id x = serialId) (serials s) = None →
  updateSerialStatus now serialId st asnId (mkWorld d (Some s) subs tr) =
    (Resolved (), mkWorld true (Some s) subs ((tr ++ opening d) ++ [EvGet true])).
Proof.
  intros Hf. unfold updateSerialStatus, await. by rewrite getStore_hit, Hf.
Qed.

Lemma updateSerial_found now v s d subs tr i u :
  list_find (λ x, id x = id v) (serials s) = Some (i, u) →
  updateSerial now v (mkWorld d (Some s) subs tr) =
    setStore now (withSerials s (<[i := v]> (serials s)))
      (mkWorld true (Some s) subs ((tr ++ opening d) ++ [EvGet true])).
Proof.
  intros Hf. unfold updateSerial, await. by rewrite getStore_hit, Hf.
Qed.

Lemma updateSerial_unknown now v s d subs tr :
  list_find (λ x, id x = id v) (serials s) = None →
  updateSerial now v (mkWorld d (Some s) subs tr) =
    (Resolved (), mkWorld true (Some s) subs ((tr ++ opening d) ++ [EvGet true])).
Proof.
  intros Hf. unfold updateSerial, await. by rewrite getStore_hit, Hf.
Qed.

Lemma addSerials_hit now new s d subs tr :
  addSerials now new (mkWorld d (Some s) subs tr) =
    setStore now (withSerials s (serials s ++ new))
      (mkWorld true (Some s) subs ((tr ++ opening d) ++ [EvGet true])).
Proof. unfold addSerials, await. by rewrite getStore_hit. Qed.

Lemma addSerials_quiet now new w :
  quiet (subscribers w) →
  ∃ w' s', addSerials now new w = (Resolved (), w') ∧
           stored w' = Some s' ∧ serials s' = readable w ++ new ∧
           asns s' = match stored w with Some s => asns s | None => getDefaultASNs end ∧
           products s' = match stored w with
                         | Some s => products s
                         | None => getDefaultProducts
                         end ∧
           subscribers w' = subscribers w.
Proof.
  destruct w as [d [s|] subs tr]; simpl; intros Hq.
  - rewrite addSerials_hit, (setStore_quiet _ _ _ _ _ _ Hq). by eexists _, _.
  - unfold addSerials, await. rewrite getStore_miss, (forEach_call_quiet _ Hq).
    rewrite (setStore_quiet _ _ _ _ _ _ Hq). by eexists _, _.
Qed.

Lemma misses_app tr1 tr2 : misses (tr1 ++ tr2) = (misses tr1 + misses tr2)%nat.
Proof. unfold misses. by rewrite omap_app, length_app. Qed.

Lemma misses_opening d : misses (opening d) = 0%nat.
Proof. by destruct d. Qed.

Lemma misses_round (subs : list Callback) : misses (EvCall ∘ cb_id <$> subs) = 0%nat.
Proof. by induction subs. Qed.

Lemma calls_round (subs : list Callback) : calls (EvCall ∘ cb_id <$> subs) = cb_id <$> subs.
Proof. rewrite list_fmap_compose. apply calls_EvCall. Qed.

Lemma puts_round (subs : list Callback) : puts (EvCall ∘ cb_id <$> subs) = [].
Proof. rewrite list_fmap_compose. apply puts_EvCall. Qed.

(** A round calls every subscriber once. *)
Lemma notified_round c subs :
  NoDup (cb_id <$> subs) → c ∈ subs →
  notified (cb_id c) (EvCall ∘ cb_id <$> subs) = 1%nat.
Proof.
  intros Hnd Hc. unfold notified. rewrite calls_round.
  apply count_in_NoDup; [done|]. by apply list_elem_of_fmap_2.
Qed.

(** Every call is a read, followed or not by one [setStore]. *)
Lemma perform_eq o w :
  perform o w =
    match effect o (answered (instant o) w) with
    | Some l => (setStore (instant o) (withSerials (answered (instant o) w) l)
                   (getStore (instant o) w).2).2
    | None => (getStore (instant o) w).2
    end.
Proof.
  assert (Hg : ∀ now, (getStore now w).1 = Resolved (answered now w)).
  { intros now. destruct w as [d [s|] subs tr]; unfold answered; simpl.
    - by rewrite getStore_hit.
    - rewrite getStore_miss. by destruct (forEach_call subs). }
  destruct o as [now|now new|now v|now i st a|now st|now a|now p|now];
    cbn [perform instant effect]; specialize (Hg now);
    unfold addSerials, updateSerial, updateSerialStatus, getSerialsByStatus,
      getSerialsByASN, getSerialsByPartNumber, getSerialCounts, await, resolve;
    destruct (getStore now w) as [r w1]; cbn [fst snd] in *; subst r;
    try reflexivity.
  - by destruct (list_find _ _) as [[? ?]|].
  - by destruct (list_find _ _) as [[? ?]|].
Qed.

(** A call on a world whose subscribers do not raise. *)
Lemma perform_quiet o d r subs tr :
  quiet subs →
  let now := instant o in
  let w := mkWorld d r subs tr in
  let s0 := answered now w in
  let round := EvCall ∘ cb_id <$> subs in
  let read := if r is None then [EvGet false; EvPut (defaultStore now)] ++ round
              else [EvGet true] in
  perform o w =
    match effect o s0 with
    | Some l =>
        mkWorld true (Some (stamp (withSerials s0 l) now)) subs
          (((tr ++ opening d) ++ read) ++ [EvPut (stamp (withSerials s0 l) now)] ++ round)
    | None => mkWorld true (Some s0) subs ((tr ++ opening d) ++ read)
    end.
Proof.
  intros Hq now w s0 round read. rewrite perform_eq. fold now. fold s0.
  assert (Hg : (getStore now w).2 = mkWorld true (Some s0) subs ((tr ++ opening d) ++ read)).
  { subst w s0 read round. destruct r as [s|]; unfold answered; simpl.
    - by rewrite getStore_hit.
    - rewrite getStore_miss, (forEach_call_quiet _ Hq). simpl.
      by rewrite <- list_fmap_compose. }
  rewrite Hg. destruct (effect o s0) as [l|]; [|done].
  rewrite (setStore_quiet _ _ _ _ _ _ Hq). simpl. by rewrite app_nil_r.
Qed.

(** What a call can leave as the record, whatever the subscribers do. *)
Lemma perform_stored o w :
  let s0 := answered (instant o) w in
  stored (perform o w) = stored w ∨ stored (perform o w) = Some s0 ∨
  ∃ l, effect o s0 = Some l ∧
       stored (perform o w) = Some (stamp (withSerials s0 l) (instant o)).
Proof.
  intros s0. rewrite perform_eq. fold s0.
  assert (Hg : stored (getStore (instant o) w).2 = stored w ∨
               stored (getStore (instant o) w).2 = Some s0).
  { subst s0. destruct w as [d [s|] subs tr]; unfold answered; simpl.
    - rewrite getStore_hit. by left.
    - rewrite getStore_miss. destruct (forEach_call subs) as [called [|]]; auto. }
  destruct (effect o s0) as [l|]; [|tauto].
  rewrite setStore_eq.
  destruct (forEach_call (subscribers (getStore (instant o) w).2)) as [called [|]]; simpl.
  - right; right. by exists l.
  - tauto.
Qed.

Lemma perform_subscribers o w : subscribers (perform o w) = subscribers w.
Proof.
  rewrite perform_eq.
  assert (Hg : subscribers (getStore (instant o) w).2 = subscribers w).
  { destruct w as [d [s|] subs tr].
    - by rewrite getStore_hit.
    - rewrite getStore_miss. by destruct (forEach_call subs). }
  destruct (effect o _) as [l|]; [|done].
  rewrite setStore_eq. by destruct (forEach_call _).
Qed.

Lemma performAll_cons o ops w : performAll (o :: ops) w = performAll ops (perform o w).
Proof. reflexivity. Qed.

Lemma performAll_subscribers ops w : subscribers (performAll ops w) = subscribers w.
Proof.
  revert w. induction ops as [|o ops IH]; intros w; [done|].
  by rewrite performAll_cons, IH, perform_subscribers.
Qed.

(** The trace of a call on a world whose subscribers do not raise: the read,
    and one round after each [put]. *)
Lemma perform_quiet_counts o w c :
  quiet (subscribers w) → NoDup (cb_id <$> subscribers w) → c ∈ subscribers w →
  notified (cb_id c) (trace (perform o w)) = (notified (cb_id c) (trace w) + writes o w)%nat ∧
  length (puts (trace (perform o w))) = (length (puts (trace w)) + writes o w)%nat.
Proof.
  destruct w as [d r subs tr]. cbn [subscribers trace]. intros Hq Hnd Hc.
  pose proof (notified_round c subs Hnd Hc) as Hround.
  assert (Hopen : notified (cb_id c) (opening d) = 0%nat) by (by destruct d).
  rewrite (perform_quiet o d r subs tr Hq). unfold writes. cbn [stored].
  destruct (effect o _) as [l|]; destruct r as [s|]; cbn [trace];
    rewrite ?notified_app, ?puts_app, ?length_app, ?puts_opening, ?puts_round,
      ?Hround, ?Hopen;
    unfold notified; simpl; lia.
Qed.

Lemma performAll_quiet_counts ops w c :
  quiet (subscribers w) → NoDup (cb_id <$> subscribers w) → c ∈ subscribers w →
  notified (cb_id c) (trace (performAll ops w))
    = (notified (cb_id c) (trace w) + writesAll ops w)%nat ∧
  length (puts (trace (performAll ops w))) = (length (puts (trace w)) + writesAll ops w)%nat.
Proof.
  revert w. induction ops as [|o ops IH]; intros w Hq Hnd Hc; [simpl; lia|].
  destruct (perform_quiet_counts o w c Hq Hnd Hc) as [Hn Hp].
  rewrite performAll_cons. cbn [writesAll].
  destruct (IH (perform o w)) as [Hn' Hp']; rewrite ?perform_subscribers; try done.
  rewrite Hn', Hp', Hn, Hp. lia.
Qed.

(** Once a call has been made on a world whose subscribers do not raise, the
    record is there, with the products of the seed, and the trace has the one
    miss of the first read. *)
Lemma perform_seeded o w :
  quiet (subscribers w) →
  (stored w = None ∧ misses (trace w) = 0%nat) ∨
  (∃ s, stored w = Some s ∧ products s = getDefaultProducts ∧ misses (trace w) = 1%nat) →
  ∃ s, stored (perform o w) = Some s ∧ products s = getDefaultProducts ∧
       misses (trace (perform o w)) = 1%nat.
Proof.
  destruct w as [d r subs tr]. cbn [subscribers stored trace]. intros Hq Hw.
  rewrite (perform_quiet o d r subs tr Hq). unfold answered. cbn [stored].
  destruct Hw as [[-> Hm] | (s & -> & Hp & Hm)]; cbn [default from_option];
    destruct (effect o _) as [l|]; eexists; (split; [reflexivity|]);
    (split; [done|]); cbn [trace];
    rewrite ?misses_app, ?misses_opening, ?misses_round, Hm; reflexivity.
Qed.

Lemma performAll_seeded ops w :
  quiet (subscribers w) →
  (stored w = None ∧ misses (trace w) = 0%nat) ∨
  (∃ s, stored w = Some s ∧ products s = getDefaultProducts ∧ misses (trace w) = 1%nat) →
  (stored (performAll ops w) = None ∧ misses (trace (performAll ops w)) = 0%nat) ∨
  (∃ s, stored (performAll ops w) = Some s ∧ products s = getDefaultProducts ∧
        misses (trace (performAll ops w)) = 1%nat).
Proof.
  revert w. induction ops as [|o ops IH]; intros w Hq Hw; [done|].
  rewrite performAll_cons. apply IH; [by rewrite perform_subscribers|].
  right. by apply perform_seeded.
Qed.

End SerialStoreFacts.

(** ** The global store *)

Module GlobalStoreFacts.
Import GlobalStoreManager.

Lemma state_calls_app tr1 tr2 : calls (tr1 ++ tr2) = calls tr1 ++ calls tr2.
Proof. apply omap_app. Qed.

Lemma state_puts_app tr1 tr2 : puts (tr1 ++ tr2) = puts tr1 ++ puts tr2.
Proof. apply omap_app. Qed.

Lemma state_calls_EvCall st (l : list nat) : calls ((λ c, EvCall c st) <$> l) = l.
Proof. induction l as [|c l IH]; [done|]. simpl. by f_equal. Qed.

Lemma state_puts_EvCall st (l : list nat) : puts ((λ c, EvCall c st) <$> l) = [].
Proof. by induction l. Qed.

Lemma state_notified_app c tr1 tr2 :
  notified c (tr1 ++ tr2) = (notified c tr1 + notified c tr2)%nat.
Proof. unfold notified. by rewrite state_calls_app, filter_app, length_app. Qed.

Lemma setState_eq now updater w :
  setState now updater w =
    let '(called, ok) := forEach_call (subscribers w) in
    let st := merge (state w) (updater (state w)) now in
    (if ok then Returned else Threw,
     {| t0 := t0 w; db := db w;
        stored := if ok && db w then Some st else stored w;
        state := st; subscribers := subscribers w;
        trace := trace w ++ ((λ c, EvCall c st) <$> called)
                 ++ (if ok && db w then [EvPut st] else []) |}).
Proof.
  destruct w as [t d r st subs tr].
  unfold setState, notifySubscribers, saveState, setW. simpl.
  destruct (forEach_call subs) as [called [|]]; simpl; destruct d; simpl;
    rewrite ?app_nil_r, <- ?app_assoc; reflexivity.
Qed.

Lemma state_calls_round st (subs : list Callback) :
  calls ((λ c, EvCall (cb_id c) st) <$> subs) = cb_id <$> subs.
Proof. by rewrite (list_fmap_compose cb_id (λ c, EvCall c st)), state_calls_EvCall. Qed.

Lemma state_puts_round st (subs : list Callback) :
  puts ((λ c, EvCall (cb_id c) st) <$> subs) = [].
Proof. by induction subs. Qed.

Lemma state_notified_round c st subs :
  NoDup (cb_id <$> subs) → c ∈ subs →
  notified (cb_id c) ((λ c, EvCall (cb_id c) st) <$> subs) = 1%nat.
Proof.
  intros Hnd Hc. unfold notified. rewrite state_calls_round.
  apply count_in_NoDup; [done|]. by apply list_elem_of_fmap_2.
Qed.

Lemma notified_single c st : notified c [EvCall c st] = 1%nat.
Proof.
  unfold notified. change (calls [EvCall c st]) with [c].
  by rewrite filter_cons, decide_True.
Qed.

(** Every action is one call of [setState]. *)
Lemma dispatch_is_setState a : ∃ now updater, dispatch a = setState now updater.
Proof. destruct a; eexists _, _; reflexivity. Qed.

Lemma setState_quiet now updater g :
  quiet (subscribers g) →
  let st := merge (state g) (updater (state g)) now in
  setState now updater g =
    (Returned,
     {| t0 := t0 g; db := db g; stored := if db g then Some st else stored g;
        state := st; subscribers := subscribers g;
        trace := trace g ++ ((λ c, EvCall (cb_id c) st) <$> subscribers g)
                 ++ (if db g then [EvPut st] else []) |}).
Proof.
  intros Hq st. rewrite setState_eq, (forEach_call_quiet _ Hq). simpl.
  by rewrite <- list_fmap_compose.
Qed.

Lemma dispatch_quiet_counts a g c :
  quiet (subscribers g) → NoDup (cb_id <$> subscribers g) → c ∈ subscribers g →
  notified (cb_id c) (trace (dispatch a g).2) = S (notified (cb_id c) (trace g)) ∧
  subscribers (dispatch a g).2 = subscribers g.
Proof.
  intros Hq Hnd Hc. destruct (dispatch_is_setState a) as (now & updater & ->).
  rewrite (setState_quiet _ _ _ Hq). simpl. split; [|done].
  rewrite !state_notified_app, (state_notified_round _ _ _ Hnd Hc).
  assert (notified (cb_id c)
            (if db g then [EvPut (merge (state g) (updater (state g)) now)] else [])
          = 0%nat) as -> by (by destruct (db g)).
  lia.
Qed.

Lemma dispatchAll_quiet_counts l g c :
  quiet (subscribers g) → NoDup (cb_id <$> subscribers g) → c ∈ subscribers g →
  notified (cb_id c) (trace (dispatchAll l g)) = (notified (cb_id c) (trace g) + length l)%nat.
Proof.
  revert g. induction l as [|a l IH]; intros g Hq Hnd Hc; [simpl; lia|].
  destruct (dispatch_quiet_counts a g c Hq Hnd Hc) as [Hn Hs].
  change (dispatchAll (a :: l) g) with (dispatchAll l (dispatch a g).2).
  rewrite IH, Hn by (by rewrite Hs). simpl. lia.
Qed.

End GlobalStoreFacts.

(** ** Derived values *)

Section Derivations.
Import SerialStoreManager SerialStoreFacts.

(** C6.  The total of [getSerialCounts] is the sum of the lengths of the three
    [getSerialsByStatus] lists.  In the per-domain store this holds for the
    four reads made one after the other from any world; on a world that holds
    a record the reads answer from that record, leave record and subscribers
    as they are and add nothing but the read itself to the trace.  In the
    global store the derived values are functions of the state. *)
Theorem C6_counts_are_sum_of_status_lists :
  (∀ w t1 t2 t3 t4, ∃ c lu lb la w1 w2 w3 w4,
      getSerialCounts t1 w = (Resolved c, w1) ∧
      getSerialsByStatus t2 unassigned w1 = (Resolved lu, w2) ∧
      getSerialsByStatus t3 blocked w2 = (Resolved lb, w3) ∧
      getSerialsByStatus t4 assigned w3 = (Resolved la, w4) ∧
      total c = (length lu + length lb + length la)%nat) ∧
  (∀ s d subs tr now,
      getSerialCounts now (mkWorld d (Some s) subs tr) =
        (Resolved (countsOf (serials s)),
         mkWorld true (Some s) subs ((tr ++ opening d) ++ [EvGet true]))) ∧
  (∀ s d subs tr now st,
      getSerialsByStatus now st (mkWorld d (Some s) subs tr) =
        (Resolved (filter (λ u, status u = st) (serials s)),
         mkWorld true (Some s) subs ((tr ++ opening d) ++ [EvGet true]))) ∧
  (∀ g : GlobalStoreManager.World,
      total (GlobalStoreManager.getSerialCounts g) =
        (length (GlobalStoreManager.getSerialsByStatus unassigned g)
         + length (GlobalStoreManager.getSerialsByStatus blocked g)
         + length (GlobalStoreManager.getSerialsByStatus assigned g))%nat).
Proof.
  split; [|split; [|split]].
  - intros w t1 t2 t3 t4.
    destruct (getSerialCounts_readable t1 w) as (w1 & H1 & R1).
    destruct (getSerialsByStatus_readable t2 unassigned w1) as (w2 & H2 & R2).
    destruct (getSerialsByStatus_readable t3 blocked w2) as (w3 & H3 & R3).
    destruct (getSerialsByStatus_readable t4 assigned w3) as (w4 & H4 & R4).
    eexists _, _, _, _, w1, w2, w3, w4.
    repeat split; try eassumption.
    rewrite R3, R2, R1. simpl. apply length_by_status.
  - intros. unfold getSerialCounts, await, resolve. by rewrite getStore_hit.
  - intros. unfold getSerialsByStatus, await, resolve. by rewrite getStore_hit.
  - intros g. unfold GlobalStoreManager.getSerialCounts,
      GlobalStoreManager.getSerialsByStatus. simpl. apply length_by_status.
Qed.

End Derivations.

(** ** Writing and reading back *)

Section RoundTrip.
Import SerialStoreManager SerialStoreFacts.

(** C4.  A write [setStore tw s] that completes, followed by a read, gives a
    store with the serials, ASNs and products of [s] and with [lastUpdated]
    set to the instant of the write. *)
Theorem C4_write_then_read (w : World) (s : SerialStore) (tw tr : Z) :
  (setStore tw s w).1 = Resolved () →
  ∃ s', (getStore tr (setStore tw s w).2).1 = Resolved s' ∧
        serials s' = serials s ∧ asns s' = asns s ∧ products s' = products s ∧
        lastUpdated s' = tw ∧ tw ≤ lastUpdated s'.
Proof.
  intros Hdone. pose proof (setStore_resolved_quiet _ _ _ Hdone) as Hq.
  destruct w as [d r subs tr0]. simpl in Hq.
  rewrite (setStore_quiet _ _ _ _ _ _ Hq). cbn [fst snd].
  rewrite getStore_hit. exists (stamp s tw). simpl. repeat split; lia.
Qed.

Lemma C4_write_then_read_witness :
  ∃ s', (getStore 20 (setStore 10 (defaultStore 0) fresh).2).1 = Resolved s' ∧
        serials s' = getDefaultSerials ∧ asns s' = getDefaultASNs ∧
        products s' = getDefaultProducts ∧ lastUpdated s' = 10 ∧ 10 ≤ lastUpdated s'.
Proof. apply (C4_write_then_read fresh (defaultStore 0) 10 20). reflexivity. Defined.

End RoundTrip.

(** ** [updateSerialStatus] *)

(** The fields [withStatus] keeps. *)
Lemma withStatus_frame u st asnId now :
  let u' := withStatus u st asnId now in
  status u' = st ∧ asn_id u' = asnId ∧ updated_date u' = now ∧
  id u' = id u ∧ supplier_id u' = supplier_id u ∧ buyer_id u' = buyer_id u ∧
  part_number_id u' = part_number_id u ∧ serial_number u' = serial_number u ∧
  attributes_json u' = attributes_json u ∧ parent_serial_id u' = parent_serial_id u ∧
  parent_serial_number u' = parent_serial_number u ∧ expiry_date u' = expiry_date u ∧
  created_date u' = created_date u ∧ created_by u' = created_by u ∧
  updated_by u' = updated_by u.
Proof. simpl. repeat split. Qed.

Section StatusUpdate.
Import SerialStoreFacts GlobalStoreFacts.

Abbreviation rewriteStatus serialId st asnId now :=
  (λ u, if decide (id u = serialId) then withStatus u st asnId now else u).

(** C10.  A call without [asnId] on an existing serial leaves that serial
    without an ASN, whatever the new status and whatever ASN it had: in the
    per-domain store for the serial found (the first with that id), in the
    global store for every serial with that id.  In the global store the
    serial is still there afterwards, at its position in a list of the same
    length, with its id, its serial number and its part number, with the new
    status and without ASN; and no serial with that id has an ASN. *)
Theorem C10_status_only_update_drops_asn :
  (∀ s d subs tr now serialId st i u,
      quiet subs →
      list_find (λ x, id x = serialId) (SerialStoreManager.serials s) = Some (i, u) →
      ∃ w' s' u',
        SerialStoreManager.updateSerialStatus now serialId st None
          (SerialStoreManager.mkWorld d (Some s) subs tr) = (Resolved (), w') ∧
        SerialStoreManager.stored w' = Some s' ∧
        SerialStoreManager.serials s' !! i = Some u' ∧
        id u' = serialId ∧ status u' = st ∧ asn_id u' = None) ∧
  (∀ g now serialId st i u,
      GlobalStoreManager.serials (GlobalStoreManager.state g) !! i = Some u →
      id u = serialId →
      ∃ u',
        GlobalStoreManager.serials
          (GlobalStoreManager.state
             (GlobalStoreManager.updateSerialStatus now serialId st None g).2) !! i
          = Some u' ∧
        length (GlobalStoreManager.serials
                  (GlobalStoreManager.state
                     (GlobalStoreManager.updateSerialStatus now serialId st None g).2))
          = length (GlobalStoreManager.serials (GlobalStoreManager.state g)) ∧
        id u' = serialId ∧ status u' = st ∧ asn_id u' = None ∧
        updated_date u' = now ∧
        serial_number u' = serial_number u ∧ part_number_id u' = part_number_id u) ∧
  (∀ g now serialId st u',
      u' ∈ GlobalStoreManager.serials
             (GlobalStoreManager.state
                (GlobalStoreManager.updateSerialStatus now serialId st None g).2) →
      id u' = serialId → status u' = st ∧ asn_id u' = None).
Proof.
  split; [|split].
  - intros s d subs tr now serialId st i u Hq Hf.
    rewrite (updateSerialStatus_found _ _ _ _ _ _ _ _ _ _ Hf).
    rewrite (setStore_quiet _ _ _ _ _ _ Hq).
    apply list_find_Some in Hf as (Hi & Hid & _).
    eexists _, _, (withStatus u st None now). split; [reflexivity|].
    split; [reflexivity|]. simpl. split; [|done].
    apply list_lookup_insert_eq. by eapply lookup_lt_Some.
  - intros g now serialId st i u Hi Hid.
    unfold GlobalStoreManager.updateSerialStatus. rewrite setState_eq.
    destruct (forEach_call (GlobalStoreManager.subscribers g)) as [called ok].
    simpl. exists (withStatus u st None now).
    rewrite list_lookup_fmap, Hi, length_fmap. simpl.
    rewrite decide_True by done. by repeat split.
  - intros g now serialId st u'.
    unfold GlobalStoreManager.updateSerialStatus. rewrite setState_eq.
    destruct (forEach_call (GlobalStoreManager.subscribers g)) as [called ok].
    simpl. intros Hin Hid.
    apply list_elem_of_fmap in Hin as (u & -> & _).
    by case_decide.
Qed.

Lemma C10_status_only_update_drops_asn_witness :
  let g := (GlobalStoreManager.init 1 (GlobalStoreManager.created 0 None)).2 in
  let u2 := seedSerial "2" "1" "CPU001X7002" assigned (Some "1")
              1705363200000 1705795200000 in
  (∃ w' s' u',
     SerialStoreManager.updateSerialStatus 50 "2" assigned None
       (SerialStoreManager.mkWorld true (Some (SerialStoreManager.defaultStore 0)) [] [])
       = (Resolved (), w') ∧
     SerialStoreManager.stored w' = Some s' ∧
     SerialStoreManager.serials s' !! 1%nat = Some u' ∧
     id u' = "2" ∧ status u' = assigned ∧ asn_id u' = None) ∧
  (GlobalStoreManager.serials (GlobalStoreManager.state g) !! 1%nat = Some u2 ∧
   asn_id u2 = Some "1" ∧
   ∃ u',
     GlobalStoreManager.serials
       (GlobalStoreManager.state
          (GlobalStoreManager.updateSerialStatus 50 "2" assigned None g).2) !! 1%nat
       = Some u' ∧
     length (GlobalStoreManager.serials
               (GlobalStoreManager.state
                  (GlobalStoreManager.updateSerialStatus 50 "2" assigned None g).2))
       = length (GlobalStoreManager.serials (GlobalStoreManager.state g)) ∧
     id u' = "2" ∧ status u' = assigned ∧ asn_id u' = None ∧
     updated_date u' = 50 ∧
     serial_number u' = serial_number u2 ∧ part_number_id u' = part_number_id u2) ∧
  (status (withStatus u2 assigned None 50) = assigned ∧
   asn_id (withStatus u2 assigned None 50) = None).
Proof.
  intros g u2.
  destruct C10_status_only_update_drops_asn as (Hdomain & Hpresent & Hall).
  split; [|split].
  - apply (Hdomain (SerialStoreManager.defaultStore 0) true [] [] 50 "2" assigned 1%nat u2).
    + constructor.
    + reflexivity.
  - split; [reflexivity|]. split; [reflexivity|].
    apply (Hpresent g 50 "2" assigned 1%nat u2); reflexivity.
  - apply (Hall g 50 "2" assigned (withStatus u2 assigned None 50)).
    + apply list_elem_of_further, list_elem_of_here.
    + reflexivity.
Defined.

(** C5, as stated, fails in the global store: after loading the seed, with
    one subscriber, a call for an id that no serial has stamps a new
    [lastUpdated] and calls the subscriber once more. *)
Lemma C5_unknown_id_is_not_a_noop_in_global_store :
  let g0 := (GlobalStoreManager.init 1 (GlobalStoreManager.created 0 None)).2 in
  let g1 := (GlobalStoreManager.subscribe (mkCallback 0 false) g0).2 in
  let g2 := (GlobalStoreManager.updateSerialStatus 99 "no-such-id" blocked None g1).2 in
  Forall (λ u, id u ≠ "no-such-id") (GlobalStoreManager.serials (GlobalStoreManager.state g1)) ∧
  GlobalStoreManager.lastUpdated (GlobalStoreManager.system (GlobalStoreManager.state g1)) = 0 ∧
  GlobalStoreManager.lastUpdated (GlobalStoreManager.system (GlobalStoreManager.state g2)) = 99 ∧
  GlobalStoreManager.notified 0 (GlobalStoreManager.trace g1) = 1%nat ∧
  GlobalStoreManager.notified 0 (GlobalStoreManager.trace g2) = 2%nat.
Proof.
  cbv zeta. split; [|by vm_compute].
  repeat constructor; by vm_compute.
Qed.

(** C5, amended.  Per-domain store, on a world that holds the record [s]:
    when no serial has the id, the call only reads (same record, nothing
    written, nobody called); when one has, and no subscriber raises, the record
    becomes [s] with the first such serial replaced by [withStatus], the ASNs
    and products kept and [lastUpdated] stamped.  Global store: every serial
    with the id is replaced by [withStatus], ASNs, products and the UI part are
    kept, [lastUpdated] is stamped and the subscribers are called, whether or
    not a serial has the id; when none has, the serials are the same list.
    [withStatus] writes [status], [asn_id] and [updated_date] and keeps the
    other fields.  No case looks at the ASNs: [asnId] is arbitrary. *)
Theorem C5_updateSerialStatus_frame :
  (∀ s d subs tr now serialId st asnId,
      list_find (λ x, id x = serialId) (SerialStoreManager.serials s) = None →
      SerialStoreManager.updateSerialStatus now serialId st asnId
        (SerialStoreManager.mkWorld d (Some s) subs tr) =
      (Resolved (),
       SerialStoreManager.mkWorld true (Some s) subs
         ((tr ++ opening d) ++ [SerialStoreManager.EvGet true]))) ∧
  (∀ s d subs tr now serialId st asnId i u,
      quiet subs →
      list_find (λ x, id x = serialId) (SerialStoreManager.serials s) = Some (i, u) →
      ∃ w' s',
        SerialStoreManager.updateSerialStatus now serialId st asnId
          (SerialStoreManager.mkWorld d (Some s) subs tr) = (Resolved (), w') ∧
        SerialStoreManager.stored w' = Some s' ∧
        SerialStoreManager.serials s' =
          <[i := withStatus u st asnId now]> (SerialStoreManager.serials s) ∧
        SerialStoreManager.asns s' = SerialStoreManager.asns s ∧
        SerialStoreManager.products s' = SerialStoreManager.products s ∧
        SerialStoreManager.lastUpdated s' = now) ∧
  (∀ g now serialId st asnId,
      let g' := (GlobalStoreManager.updateSerialStatus now serialId st asnId g).2 in
      let old := GlobalStoreManager.state g in
      let new := GlobalStoreManager.state g' in
      GlobalStoreManager.serials new =
        (rewriteStatus serialId st asnId now <$> GlobalStoreManager.serials old) ∧
      GlobalStoreManager.asns new = GlobalStoreManager.asns old ∧
      GlobalStoreManager.products new = GlobalStoreManager.products old ∧
      GlobalStoreManager.ui new = GlobalStoreManager.ui old ∧
      GlobalStoreManager.lastUpdated (GlobalStoreManager.system new) = now ∧
      GlobalStoreManager.calls (GlobalStoreManager.trace g') =
        GlobalStoreManager.calls (GlobalStoreManager.trace g)
        ++ (forEach_call (GlobalStoreManager.subscribers g)).1 ∧
      (Forall (λ u, id u ≠ serialId) (GlobalStoreManager.serials old) →
       GlobalStoreManager.serials new = GlobalStoreManager.serials old)) ∧
  (∀ u st asnId now,
      let u' := withStatus u st asnId now in
      status u' = st ∧ asn_id u' = asnId ∧ updated_date u' = now ∧
      id u' = id u ∧ supplier_id u' = supplier_id u ∧ buyer_id u' = buyer_id u ∧
      part_number_id u' = part_number_id u ∧ serial_number u' = serial_number u ∧
      attributes_json u' = attributes_json u ∧ parent_serial_id u' = parent_serial_id u ∧
      parent_serial_number u' = parent_serial_number u ∧ expiry_date u' = expiry_date u ∧
      created_date u' = created_date u ∧ created_by u' = created_by u ∧
      updated_by u' = updated_by u).
Proof.
  split; [|split; [|split]].
  - intros. by apply updateSerialStatus_unknown.
  - intros s d subs tr now serialId st asnId i u Hq Hf.
    rewrite (updateSerialStatus_found _ _ _ _ _ _ _ _ _ _ Hf).
    rewrite (setStore_quiet _ _ _ _ _ _ Hq).
    eexists _, _. repeat split.
  - intros g now serialId st asnId.
    unfold GlobalStoreManager.updateSerialStatus. rewrite setState_eq.
    destruct (forEach_call (GlobalStoreManager.subscribers g)) as [called ok].
    cbn -[GlobalStoreManager.calls]. repeat split.
    + rewrite !GlobalStoreFacts.state_calls_app, GlobalStoreFacts.state_calls_EvCall.
      destruct (ok && GlobalStoreManager.db g); simpl; by rewrite app_nil_r.
    + intros Hall.
      by apply (fmap_if_none (λ u, id u = serialId) (λ u, withStatus u st asnId now)).
  - intros. apply withStatus_frame.
Qed.

Lemma C5_updateSerialStatus_frame_witness :
  let w := SerialStoreManager.mkWorld true (Some (SerialStoreManager.defaultStore 0)) [] [] in
  let u3 := seedSerial "3" "1" "CPU001X7003" unassigned None 1705449600000 1705449600000 in
  let g := (GlobalStoreManager.init 1 (GlobalStoreManager.created 0 None)).2 in
  let g' := (GlobalStoreManager.updateSerialStatus 50 "no-such-id" blocked (Some "7") g).2 in
  SerialStoreManager.updateSerialStatus 50 "no-such-id" blocked (Some "7") w =
    (Resolved (),
     SerialStoreManager.mkWorld true (Some (SerialStoreManager.defaultStore 0)) []
       (([] ++ opening true) ++ [SerialStoreManager.EvGet true])) ∧
  (∃ w' s',
     SerialStoreManager.updateSerialStatus 50 "3" blocked (Some "no-such-asn") w
       = (Resolved (), w') ∧
     SerialStoreManager.stored w' = Some s' ∧
     SerialStoreManager.serials s' =
       <[2%nat := withStatus u3 blocked (Some "no-such-asn") 50]> getDefaultSerials ∧
     SerialStoreManager.asns s' = SerialStoreManager.getDefaultASNs ∧
     SerialStoreManager.products s' = SerialStoreManager.getDefaultProducts ∧
     SerialStoreManager.lastUpdated s' = 50) ∧
  GlobalStoreManager.serials (GlobalStoreManager.state g')
    = GlobalStoreManager.serials (GlobalStoreManager.state g).
Proof.
  intros w u3 g g'.
  destruct C5_updateSerialStatus_frame as (Hnone & Hsome & Hglobal & _).
  split; [|split].
  - apply Hnone. reflexivity.
  - apply (Hsome (SerialStoreManager.defaultStore 0) true [] [] 50 "3" blocked
             (Some "no-such-asn") 2%nat).
    + constructor.
    + reflexivity.
  - apply (Hglobal g 50 "no-such-id" blocked (Some "7")).
    by repeat constructor.
Defined.

End StatusUpdate.

(** ** Bulk generation *)

Section BulkGeneration.
Import AddSerialsForm.

Lemma generateRange_length product f now a b :
  length (generateRange product f now a b) = Z.to_nat (b - a + 1).
Proof. unfold generateRange. by rewrite length_fmap, length_seqZ. Qed.

Lemma generateRange_serial_numbers product f now a b :
  serial_number <$> generateRange product f now a b =
    (λ i, prefix f +:+ padStart 3 "0" (toString i)) <$> seqZ a (b - a + 1).
Proof. unfold generateRange. by rewrite <- list_fmap_compose. Qed.


(** The handler on a request that passes its two guards. *)
Lemma handleBulkGenerate_accepted product now f a b w :
  parseInt (startNumber f) = Some a → parseInt (endNumber f) = Some b →
  trim (prefix f) ≠ EmptyString → a ≤ b → b - a ≤ 1000 →
  handleBulkGenerate product now f w =
    match SerialStoreManager.addSerials now (generateRange product f now a b) w with
    | (Resolved _, w') =>
        (Resolved (SerialsGenerated (length (generateRange product f now a b))), cleared, w')
    | (Unsettled, w') => (Unsettled, withLoading f true, w')
    end.
Proof.
  intros Ha Hb Hp Hab Hcap. unfold handleBulkGenerate. rewrite Ha, Hb.
  rewrite bool_decide_eq_false_2 by done.
  rewrite (proj2 (Z.ltb_ge b a)) by done. simpl.
  by rewrite (proj2 (Z.ltb_ge 1000 (b - a))) by done.
Qed.

(** The handler on a request whose range is larger than the cap lets through:
    the toast, and the form and the store as they were. *)
Lemma handleBulkGenerate_range_too_large product now f a b w :
  parseInt (startNumber f) = Some a → parseInt (endNumber f) = Some b →
  trim (prefix f) ≠ EmptyString → 1000 < b - a →
  handleBulkGenerate product now f w = (Resolved RangeTooLarge, f, w).
Proof.
  intros Ha Hb Hp Hcap. unfold handleBulkGenerate. rewrite Ha, Hb.
  rewrite bool_decide_eq_false_2 by done.
  rewrite (proj2 (Z.ltb_ge b a)) by lia. simpl.
  by rewrite (proj2 (Z.ltb_lt 1000 (b - a))) by done.
Qed.




(** C9: the cap of the handler lets a range of 1001 numbers through.  From 0
    to 1000 the difference is 1000, which the guard does not reject, and 1001
    serials are added to the five of the seed. *)
Theorem C9_cap_admits_1001_serials :
  let f := mkForm "A" "0" "1000" None [] false in
  let r := handleBulkGenerate (Product.mk "1" "" "" "CPU-001-X7" "" None None 0 0) 7 f
             SerialStoreManager.fresh in
  r.1.1 = Resolved (SerialsGenerated 1001) ∧
  length (readable r.2) = 1006%nat ∧
  length (readable SerialStoreManager.fresh) = 5%nat.
Proof. cbv zeta. by vm_compute. Qed.

End BulkGeneration.

(** ** Observers that raise *)

Section RaisingObservers.
Import SerialStoreFacts GlobalStoreFacts.

(** C7, as stated, fails: with a first subscriber that raises and a second
    that does not, a mutation calls the first only, in either manager; the
    promise of the per-domain mutation is not settled, the global mutation
    raises before it persists. *)
Lemma C7_raising_observer_ends_the_round :
  let subs := [mkCallback 1 true; mkCallback 2 false] in
  let w := SerialStoreManager.mkWorld true (Some (SerialStoreManager.defaultStore 0)) subs [] in
  let r := SerialStoreManager.addSerials 5 [] w in
  let g := GlobalStoreManager.mkWorld 0 true None (GlobalStoreManager.defaultState 0) subs [] in
  let q := GlobalStoreManager.addSerials 5 [] g in
  SerialStoreManager.calls (SerialStoreManager.trace r.2) = [1%nat] ∧
  SerialStoreManager.notified 2 (SerialStoreManager.trace r.2) = 0%nat ∧
  r.1 = Unsettled ∧
  GlobalStoreManager.calls (GlobalStoreManager.trace q.2) = [1%nat] ∧
  GlobalStoreManager.notified 2 (GlobalStoreManager.trace q.2) = 0%nat ∧
  q.1 = GlobalStoreManager.Threw ∧
  GlobalStoreManager.puts (GlobalStoreManager.trace q.2) = [].
Proof. cbv zeta. by vm_compute. Qed.

(** C7, amended.  A round calls the subscribers in the order of their
    registration.  When none raises, all are called and the mutation comes to
    its end: [setStore] resolves, [setState] returns after the [put].  When
    one raises, the round ends with it: the subscribers before it and itself
    were called, those after it are not; the promise of [setStore] is not
    settled; [setState] raises with the new state in memory and without a
    [put]. *)
Theorem C7_notification_round :
  (∀ now data d r subs tr,
      quiet subs →
      SerialStoreManager.setStore now data (SerialStoreManager.mkWorld d r subs tr) =
        (Resolved (),
         SerialStoreManager.mkWorld true (Some (SerialStoreManager.stamp data now)) subs
           ((tr ++ opening d) ++ [SerialStoreManager.EvPut (SerialStoreManager.stamp data now)]
            ++ (SerialStoreManager.EvCall ∘ cb_id <$> subs)))) ∧
  (∀ now data d r pre c post tr,
      quiet pre → cb_throws c = true →
      ∃ w',
        SerialStoreManager.setStore now data
          (SerialStoreManager.mkWorld d r (pre ++ c :: post) tr) = (Unsettled, w') ∧
        SerialStoreManager.subscribers w' = pre ++ c :: post ∧
        SerialStoreManager.trace w' =
          (tr ++ opening d) ++ [SerialStoreManager.EvPut (SerialStoreManager.stamp data now)]
          ++ (SerialStoreManager.EvCall ∘ cb_id <$> pre ++ [c])) ∧
  (∀ now updater t d r st subs tr,
      quiet subs →
      let st' := GlobalStoreManager.merge st (updater st) now in
      GlobalStoreManager.setState now updater (GlobalStoreManager.mkWorld t d r st subs tr) =
        (GlobalStoreManager.Returned,
         GlobalStoreManager.mkWorld t d (if d then Some st' else r) st' subs
           (tr ++ ((λ c, GlobalStoreManager.EvCall (cb_id c) st') <$> subs)
            ++ (if d then [GlobalStoreManager.EvPut st'] else [])))) ∧
  (∀ now updater t d r st pre c post tr,
      quiet pre → cb_throws c = true →
      let st' := GlobalStoreManager.merge st (updater st) now in
      GlobalStoreManager.setState now updater
        (GlobalStoreManager.mkWorld t d r st (pre ++ c :: post) tr) =
        (GlobalStoreManager.Threw,
         GlobalStoreManager.mkWorld t d r st' (pre ++ c :: post)
           (tr ++ ((λ c, GlobalStoreManager.EvCall (cb_id c) st') <$> pre ++ [c])))).
Proof.
  split; [|split; [|split]].
  - intros. by apply setStore_quiet.
  - intros now data d r pre c post tr Hpre Hc. rewrite setStore_eq. simpl.
    rewrite (forEach_call_raises _ _ _ Hpre Hc), <- list_fmap_compose.
    by eexists.
  - intros now updater t d r st subs tr Hq. rewrite setState_eq. simpl.
    rewrite (forEach_call_quiet _ Hq). by rewrite <- list_fmap_compose.
  - intros now updater t d r st pre c post tr Hpre Hc. rewrite setState_eq. simpl.
    rewrite (forEach_call_raises _ _ _ Hpre Hc). simpl.
    by rewrite <- list_fmap_compose, app_nil_r.
Qed.

Lemma C7_notification_round_witness :
  let data := SerialStoreManager.defaultStore 0 in
  let pre := [mkCallback 1 false] in
  let c := mkCallback 2 true in
  let post := [mkCallback 3 false] in
  let updater := λ _ : GlobalStoreManager.GlobalState, GlobalStoreManager.noUpdates in
  let st := GlobalStoreManager.defaultState 0 in
  (∃ w', SerialStoreManager.setStore 9 data
           (SerialStoreManager.mkWorld true None (pre ++ post) []) = (Resolved (), w') ∧
         SerialStoreManager.calls (SerialStoreManager.trace w') = [1; 3]%nat) ∧
  (∃ w', SerialStoreManager.setStore 9 data
           (SerialStoreManager.mkWorld true None (pre ++ c :: post) []) = (Unsettled, w') ∧
         SerialStoreManager.calls (SerialStoreManager.trace w') = [1; 2]%nat) ∧
  (∃ g', GlobalStoreManager.setState 9 updater
           (GlobalStoreManager.mkWorld 0 true None st (pre ++ post) [])
           = (GlobalStoreManager.Returned, g') ∧
         GlobalStoreManager.calls (GlobalStoreManager.trace g') = [1; 3]%nat ∧
         length (GlobalStoreManager.puts (GlobalStoreManager.trace g')) = 1%nat) ∧
  (∃ g', GlobalStoreManager.setState 9 updater
           (GlobalStoreManager.mkWorld 0 true None st (pre ++ c :: post) [])
           = (GlobalStoreManager.Threw, g') ∧
         GlobalStoreManager.calls (GlobalStoreManager.trace g') = [1; 2]%nat ∧
         GlobalStoreManager.puts (GlobalStoreManager.trace g') = []).
Proof.
  intros data pre c post updater st.
  destruct C7_notification_round as (Hall & Hstop & Hgall & Hgstop).
  split; [|split; [|split]].
  - eexists. split; [apply Hall; by repeat constructor|reflexivity].
  - destruct (Hstop 9 data true None pre c post []) as (w' & Hw & _ & Htr);
      [by repeat constructor|reflexivity|].
    exists w'. split; [exact Hw|]. by rewrite Htr.
  - eexists. split; [apply Hgall; by repeat constructor|]. by split.
  - eexists. split; [apply Hgstop; by repeat constructor|]. by split.
Defined.

End RaisingObservers.

(** ** The status invariant *)

Section StatusInvariant.
Import SerialStoreFacts GlobalStoreFacts.

Lemma seed_invariant_per_domain :
  Forall (statusInvariant SerialStoreManager.getDefaultASNs) getDefaultSerials.
Proof.
  repeat constructor; simpl; try done; intros _;
    exists "1"; (split; [done|]); set_solver.
Qed.

Lemma seed_invariant_global :
  Forall (statusInvariant GlobalStoreManager.getDefaultASNs) getDefaultSerials.
Proof.
  repeat constructor; simpl; try done; intros _;
    exists "1"; (split; [done|]); set_solver.
Qed.

(** The serials a respectful call hands to [setStore] satisfy the invariant
    when those it has read do. *)
Lemma effect_respects asns o s l :
  respects asns o → Forall (statusInvariant asns) (SerialStoreManager.serials s) →
  effect o s = Some l → Forall (statusInvariant asns) l.
Proof.
  intros Ho Hs. destruct o as [now|now new|now v|now i st a|now st|now a|now p|now];
    simpl in *; try done.
  - intros [= <-]. by apply Forall_app.
  - destruct (list_find _ _) as [[j ?]|]; [|done]. intros [= <-].
    by apply Forall_insert.
  - destruct (list_find _ _) as [[j u]|]; [|done]. intros [= <-].
    by apply Forall_insert.
Qed.

(** The record, when there is one, has the seed ASNs and serials that satisfy
    the invariant. *)
Lemma perform_keeps_invariant o w :
  respects SerialStoreManager.getDefaultASNs o →
  (∀ s, SerialStoreManager.stored w = Some s →
        SerialStoreManager.asns s = SerialStoreManager.getDefaultASNs ∧
        Forall (statusInvariant SerialStoreManager.getDefaultASNs)
          (SerialStoreManager.serials s)) →
  ∀ s, SerialStoreManager.stored (SerialStoreManager.perform o w) = Some s →
       SerialStoreManager.asns s = SerialStoreManager.getDefaultASNs ∧
       Forall (statusInvariant SerialStoreManager.getDefaultASNs)
         (SerialStoreManager.serials s).
Proof.
  intros Ho Hw s.
  assert (H0 : SerialStoreManager.asns (answered (instant o) w)
                 = SerialStoreManager.getDefaultASNs ∧
               Forall (statusInvariant SerialStoreManager.getDefaultASNs)
                 (SerialStoreManager.serials (answered (instant o) w))).
  { unfold answered. destruct (SerialStoreManager.stored w) as [s1|]; simpl.
    - by apply Hw.
    - split; [done|apply seed_invariant_per_domain]. }
  destruct (perform_stored o w) as [-> | [-> | (l & Hl & ->)]].
  - apply Hw.
  - by intros [= <-].
  - intros [= <-]. simpl. split; [apply H0|].
    eapply effect_respects; [exact Ho|apply H0|exact Hl].
Qed.

Lemma performAll_keeps_invariant ops w :
  Forall (respects SerialStoreManager.getDefaultASNs) ops →
  (∀ s, SerialStoreManager.stored w = Some s →
        SerialStoreManager.asns s = SerialStoreManager.getDefaultASNs ∧
        Forall (statusInvariant SerialStoreManager.getDefaultASNs)
          (SerialStoreManager.serials s)) →
  ∀ s, SerialStoreManager.stored (SerialStoreManager.performAll ops w) = Some s →
       SerialStoreManager.asns s = SerialStoreManager.getDefaultASNs ∧
       Forall (statusInvariant SerialStoreManager.getDefaultASNs)
         (SerialStoreManager.serials s).
Proof.
  intros Hops. revert w. induction Hops as [|o ops Ho _ IH]; intros w Hw; [done|].
  rewrite performAll_cons. apply IH. by apply perform_keeps_invariant.
Qed.

Lemma dispatch_keeps_invariant asns a g :
  respectsG asns a →
  GlobalStoreManager.asns (GlobalStoreManager.state g) = asns →
  Forall (statusInvariant asns) (GlobalStoreManager.serials (GlobalStoreManager.state g)) →
  let g' := (GlobalStoreManager.dispatch a g).2 in
  GlobalStoreManager.asns (GlobalStoreManager.state g') = asns ∧
  Forall (statusInvariant asns) (GlobalStoreManager.serials (GlobalStoreManager.state g')).
Proof.
  intros Ha Hasns Hs.
  destruct a; simpl in Ha; try done; cbn [GlobalStoreManager.dispatch];
    unfold GlobalStoreManager.addSerials, GlobalStoreManager.updateSerial,
      GlobalStoreManager.updateSerialStatus;
    rewrite setState_eq;
    destruct (forEach_call (GlobalStoreManager.subscribers g)) as [called ok];
    simpl; (split; [done|]).
  - by apply Forall_app.
  - apply Forall_fmap. eapply Forall_impl; [exact Hs|].
    intros u Hu. simpl. by case_decide.
  - apply Forall_fmap. eapply Forall_impl; [exact Hs|].
    intros u Hu. simpl. by case_decide.
Qed.

Lemma dispatchAll_keeps_invariant asns l g :
  Forall (respectsG asns) l →
  GlobalStoreManager.asns (GlobalStoreManager.state g) = asns →
  Forall (statusInvariant asns) (GlobalStoreManager.serials (GlobalStoreManager.state g)) →
  let g' := GlobalStoreManager.dispatchAll l g in
  GlobalStoreManager.asns (GlobalStoreManager.state g') = asns ∧
  Forall (statusInvariant asns) (GlobalStoreManager.serials (GlobalStoreManager.state g')).
Proof.
  intros Hl. revert g. induction Hl as [|a l Ha _ IH]; intros g Hasns Hs; [done|].
  destruct (dispatch_keeps_invariant asns a g Ha Hasns Hs) as [H1 H2].
  exact (IH _ H1 H2).
Qed.

(** C1, as stated, fails: on the seeded per-domain store the call
    [updateSerialStatus('1', 'blocked')], without [asnId], leaves the serial
    '1' blocked and without an ASN. *)
Lemma C1_blocked_serial_without_asn :
  let w := SerialStoreManager.performAll
             [SerialStoreManager.UpdateSerialStatus 5 "1" blocked None]
             (SerialStoreManager.performAll [SerialStoreManager.GetStore 1]
                SerialStoreManager.fresh) in
  ∃ s u, SerialStoreManager.stored w = Some s ∧
         SerialStoreManager.serials s !! 0%nat = Some u ∧
         id u = "1" ∧ status u = blocked ∧ asn_id u = None ∧
         ¬ statusInvariant (SerialStoreManager.asns s) u.
Proof.
  cbv zeta. eexists _, _. split; [by vm_compute|]. split; [reflexivity|].
  repeat split. intros [[_ H] _]. by specialize (H eq_refl).
Qed.

(** C1, amended.  Starting from the seed, after any sequence of calls whose
    arguments satisfy the invariant (the units given to [addSerials] and
    [updateSerial], the status and [asnId] given to [updateSerialStatus]),
    every serial of the snapshot satisfies it: unassigned exactly when it has
    no ASN, and otherwise its ASN is one of the snapshot.  Per-domain store:
    from the fresh manager, with any subscribers.  Global store: from any
    world whose state has the serials and ASNs of the seed, for sequences of
    the three mutations of serials. *)
Theorem C1_status_invariant_preserved :
  (∀ ops d subs tr s u,
      Forall (respects SerialStoreManager.getDefaultASNs) ops →
      SerialStoreManager.stored
        (SerialStoreManager.performAll ops (SerialStoreManager.mkWorld d None subs tr))
        = Some s →
      u ∈ SerialStoreManager.serials s →
      statusInvariant (SerialStoreManager.asns s) u) ∧
  (∀ l g u,
      Forall (respectsG GlobalStoreManager.getDefaultASNs) l →
      GlobalStoreManager.serials (GlobalStoreManager.state g) = getDefaultSerials →
      GlobalStoreManager.asns (GlobalStoreManager.state g) = GlobalStoreManager.getDefaultASNs →
      let g' := GlobalStoreManager.dispatchAll l g in
      u ∈ GlobalStoreManager.serials (GlobalStoreManager.state g') →
      statusInvariant (GlobalStoreManager.asns (GlobalStoreManager.state g')) u).
Proof.
  split.
  - intros ops d subs tr s u Hops Hs Hu.
    edestruct (performAll_keeps_invariant ops
                 (SerialStoreManager.mkWorld d None subs tr) Hops) as [Ha Hall];
      [by intros ? [=] | exact Hs |].
    rewrite Ha. by apply (proj1 (Forall_forall _ _) Hall).
  - intros l g u Hl Hser Hasns g' Hu.
    destruct (dispatchAll_keeps_invariant _ l g Hl Hasns) as [Ha Hall].
    { rewrite Hser. apply seed_invariant_global. }
    fold g' in Ha, Hall. rewrite Ha. by apply (proj1 (Forall_forall _ _) Hall).
Qed.

Lemma C1_status_invariant_preserved_witness :
  let unit := seedSerial "6" "2" "MEM002DDR5002" unassigned None 7 7 in
  let ops := [SerialStoreManager.AddSerials 3 [unit];
              SerialStoreManager.UpdateSerialStatus 4 "3" blocked (Some "2");
              SerialStoreManager.UpdateSerialStatus 5 "1" unassigned None] in
  let acts := [GlobalStoreManager.UpdateSerialStatus 4 "3" assigned (Some "2");
               GlobalStoreManager.AddSerials 5 [unit]] in
  let g := (GlobalStoreManager.init 1 (GlobalStoreManager.created 0 None)).2 in
  (∃ s, SerialStoreManager.stored
          (SerialStoreManager.performAll ops SerialStoreManager.fresh) = Some s ∧
        Forall (statusInvariant (SerialStoreManager.asns s)) (SerialStoreManager.serials s)) ∧
  Forall (statusInvariant
            (GlobalStoreManager.asns
               (GlobalStoreManager.state (GlobalStoreManager.dispatchAll acts g))))
    (GlobalStoreManager.serials
       (GlobalStoreManager.state (GlobalStoreManager.dispatchAll acts g))).
Proof.
  intros unit ops acts g. split.
  - eexists. split; [reflexivity|]. apply Forall_forall. intros u Hu.
    eapply (proj1 C1_status_invariant_preserved ops false [] [] _ u);
      [|reflexivity|exact Hu].
    repeat constructor; simpl; try done.
    intros _. exists "2". split; [done|]. apply list_elem_of_further, list_elem_of_here.
  - apply Forall_forall. intros u Hu.
    apply (proj2 C1_status_invariant_preserved acts g u); try reflexivity; [|exact Hu].
    repeat constructor; simpl; try done.
    intros _. exists "2". split; [done|]. apply list_elem_of_further, list_elem_of_here.
Defined.

End StatusInvariant.

(** ** The seed *)

Section Seed.
Import SerialStoreFacts GlobalStoreFacts.

(** C2, as stated, fails in the global store: loading a database without a
    record puts the seed in memory and writes nothing, so that a manager
    created later on the same database finds no record again; and after the
    two products of the seed are deleted the state that is read has none. *)
Lemma C2_global_seed_is_not_persisted :
  let g1 := (GlobalStoreManager.init 1 (GlobalStoreManager.created 0 None)).2 in
  let g2 := (GlobalStoreManager.init 3
               (GlobalStoreManager.created 2 (GlobalStoreManager.stored g1))).2 in
  let g3 := GlobalStoreManager.dispatchAll
              [GlobalStoreManager.DeleteProduct 4 "1"; GlobalStoreManager.DeleteProduct 5 "2"]
              g1 in
  GlobalStoreManager.products (GlobalStoreManager.state g1)
    = GlobalStoreManager.getDefaultProducts ∧
  GlobalStoreManager.stored g1 = None ∧
  GlobalStoreManager.puts (GlobalStoreManager.trace g1) = [] ∧
  GlobalStoreManager.trace g2 = [GlobalStoreManager.EvOpen; GlobalStoreManager.EvGet false] ∧
  GlobalStoreManager.products (GlobalStoreManager.getState g3) = [].
Proof. cbv zeta. by vm_compute. Qed.

(** C2, amended.  Per-domain store, no subscriber raising: the first read, on
    a database without a record, answers with the seed and has written it
    when it answers; after any sequence of calls of the manager a read answers
    with a store that has the products of the seed, which are not empty, and
    the trace from the creation on has exactly one read that found no record.
    Global store: loading a database without a record gives the seed as the
    state and writes nothing; the first action writes the state. *)
Theorem C2_seed_on_first_read :
  (∀ now d subs tr,
      quiet subs →
      SerialStoreManager.getStore now (SerialStoreManager.mkWorld d None subs tr) =
        (Resolved (SerialStoreManager.defaultStore now),
         SerialStoreManager.mkWorld true (Some (SerialStoreManager.defaultStore now)) subs
           ((tr ++ opening d)
            ++ [SerialStoreManager.EvGet false;
                SerialStoreManager.EvPut (SerialStoreManager.defaultStore now)]
            ++ (SerialStoreManager.EvCall ∘ cb_id <$> subs)))) ∧
  (∀ ops now d subs,
      quiet subs →
      let w := SerialStoreManager.performAll ops (SerialStoreManager.mkWorld d None subs []) in
      ∃ s w',
        SerialStoreManager.getStore now w = (Resolved s, w') ∧
        SerialStoreManager.products s = SerialStoreManager.getDefaultProducts ∧
        SerialStoreManager.products s ≠ [] ∧
        SerialStoreManager.stored w' = Some s ∧
        SerialStoreManager.misses (SerialStoreManager.trace w') = 1%nat) ∧
  (∀ now t subs,
      quiet subs →
      let g := (GlobalStoreManager.init now
                  (GlobalStoreManager.mkWorld t false None
                     (GlobalStoreManager.defaultState t) subs [])).2 in
      GlobalStoreManager.serials (GlobalStoreManager.state g) = getDefaultSerials ∧
      GlobalStoreManager.asns (GlobalStoreManager.state g)
        = GlobalStoreManager.getDefaultASNs ∧
      GlobalStoreManager.products (GlobalStoreManager.state g)
        = GlobalStoreManager.getDefaultProducts ∧
      GlobalStoreManager.stored g = None ∧
      GlobalStoreManager.puts (GlobalStoreManager.trace g) = [] ∧
      ∀ a, let g' := (GlobalStoreManager.dispatch a g).2 in
           GlobalStoreManager.stored g' = Some (GlobalStoreManager.state g')).
Proof.
  split; [|split].
  - intros now d subs tr Hq. rewrite getStore_miss, (forEach_call_quiet _ Hq).
    by rewrite <- list_fmap_compose.
  - intros ops now d subs Hq w.
    assert (Hsubs : quiet (SerialStoreManager.subscribers w)).
    { subst w. by rewrite performAll_subscribers. }
    destruct (performAll_seeded ops (SerialStoreManager.mkWorld d None subs []) Hq)
      as [[Hst Hm] | (s & Hst & Hp & Hm)]; [by left| |]; fold w in Hst, Hm;
      destruct w as [d' r' subs' tr']; simpl in *; subst r'.
    + rewrite getStore_miss, (forEach_call_quiet _ Hsubs), <- list_fmap_compose.
      eexists _, _. split; [reflexivity|].
      cbn [SerialStoreManager.stored SerialStoreManager.trace].
      repeat split; [done|].
      rewrite !misses_app, misses_opening, misses_round, Hm. reflexivity.
    + rewrite getStore_hit. exists s. eexists. split; [reflexivity|].
      cbn [SerialStoreManager.stored SerialStoreManager.trace].
      rewrite Hp. repeat split; [done|].
      rewrite !misses_app, misses_opening, Hm. reflexivity.
  - intros now t subs Hq g.
    set (st0 := {| GlobalStoreManager.serials := getDefaultSerials;
                   GlobalStoreManager.asns := GlobalStoreManager.getDefaultASNs;
                   GlobalStoreManager.products := GlobalStoreManager.getDefaultProducts;
                   GlobalStoreManager.ui :=
                     GlobalStoreManager.ui (GlobalStoreManager.defaultState t);
                   GlobalStoreManager.system :=
                     GlobalStoreManager.system (GlobalStoreManager.defaultState t) |}).
    assert (Hg : g = GlobalStoreManager.mkWorld t true None st0 subs
                   ([GlobalStoreManager.EvOpen; GlobalStoreManager.EvGet false]
                    ++ ((λ c, GlobalStoreManager.EvCall (cb_id c) st0) <$> subs))).
    { subst g. unfold GlobalStoreManager.init, GlobalStoreManager.loadState,
        GlobalStoreManager.notifySubscribers, GlobalStoreManager.setW. simpl.
      rewrite (forEach_call_quiet _ Hq). simpl. by rewrite <- list_fmap_compose. }
    clearbody g. subst g.
    cbn [GlobalStoreManager.state GlobalStoreManager.stored GlobalStoreManager.trace].
    repeat split.
    + by rewrite GlobalStoreFacts.state_puts_app, GlobalStoreFacts.state_puts_round.
    + intros a. destruct (dispatch_is_setState a) as (now' & updater & ->).
      by rewrite setState_quiet.
Qed.

Lemma C2_seed_on_first_read_witness :
  let subs := [mkCallback 0 false] in
  let ops := [SerialStoreManager.GetStore 1;
              SerialStoreManager.AddSerials 2 [];
              SerialStoreManager.GetSerialCounts 3] in
  let w := SerialStoreManager.performAll ops (SerialStoreManager.mkWorld false None subs []) in
  let g := (GlobalStoreManager.init 1
              (GlobalStoreManager.mkWorld 0 false None
                 (GlobalStoreManager.defaultState 0) subs [])).2 in
  (∃ w', SerialStoreManager.getStore 1 (SerialStoreManager.mkWorld false None subs []) =
           (Resolved (SerialStoreManager.defaultStore 1), w') ∧
         SerialStoreManager.stored w' = Some (SerialStoreManager.defaultStore 1)) ∧
  (∃ s w',
     SerialStoreManager.getStore 4 w = (Resolved s, w') ∧
     SerialStoreManager.products s = SerialStoreManager.getDefaultProducts ∧
     SerialStoreManager.products s ≠ [] ∧
     SerialStoreManager.stored w' = Some s ∧
     SerialStoreManager.misses (SerialStoreManager.trace w') = 1%nat) ∧
  (GlobalStoreManager.products (GlobalStoreManager.state g)
     = GlobalStoreManager.getDefaultProducts ∧
   GlobalStoreManager.stored g = None ∧
   GlobalStoreManager.puts (GlobalStoreManager.trace g) = []).
Proof.
  intros subs ops w g.
  destruct C2_seed_on_first_read as (Hfirst & Hlater & Hglobal).
  assert (Hq : quiet subs) by (by repeat constructor).
  split; [|split].
  - eexists. split; [by apply Hfirst|reflexivity].
  - by apply (Hlater ops 4 false subs).
  - destruct (Hglobal 1 0 subs Hq) as (_ & _ & Hp & Hst & Hputs & _). by repeat split.
Defined.

End Seed.

(** ** Notifications *)

Section Notifications.
Import SerialStoreFacts GlobalStoreFacts.

(** C3, as stated, fails.  Per-domain store: with one subscriber, one call of
    [updateSerial] for an id that no serial has calls nobody; one call of
    [addSerials] on the fresh manager calls the subscriber twice, once for
    the seed.  Global store: [setState] calls the subscribers before it issues
    the [put]. *)
Lemma C3_rounds_do_not_match_mutations :
  let subs := [mkCallback 0 false] in
  let unknown := seedSerial "no-such-id" "1" "X" unassigned None 0 0 in
  let w1 := SerialStoreManager.performAll [SerialStoreManager.UpdateSerial 5 unknown]
              (SerialStoreManager.mkWorld true (Some (SerialStoreManager.defaultStore 0))
                 subs []) in
  let w2 := SerialStoreManager.performAll [SerialStoreManager.AddSerials 5 []]
              (SerialStoreManager.mkWorld false None subs []) in
  let g := (GlobalStoreManager.addSerials 5 []
              (GlobalStoreManager.mkWorld 0 true None (GlobalStoreManager.defaultState 0)
                 subs [])).2 in
  SerialStoreManager.notified 0 (SerialStoreManager.trace w1) = 0%nat ∧
  SerialStoreManager.notified 0 (SerialStoreManager.trace w2) = 2%nat ∧
  GlobalStoreManager.trace g =
    [GlobalStoreManager.EvCall 0 (GlobalStoreManager.state g);
     GlobalStoreManager.EvPut (GlobalStoreManager.state g)].
Proof. cbv zeta. by vm_compute. Qed.

(** C3, amended, for subscribers that do not raise and whatever their order.
    Per-domain store: a subscriber is called once after each [put], so over a
    sequence of calls as many times as there are [put]s: on a store that has
    its record one for [addSerials], one for an update that finds its serial,
    none for an update that does not and none for a read, and one more for the
    seed when the record is not there yet; the round comes after the [put].
    Global store: a subscriber is called once when it subscribes and once in
    each action, M + 1 times for M actions, each time with the new state, and
    the [put] of an action comes after its round. *)
Theorem C3_notifications_per_mutation :
  (∀ ops w c,
      quiet (SerialStoreManager.subscribers w) →
      NoDup (cb_id <$> SerialStoreManager.subscribers w) →
      c ∈ SerialStoreManager.subscribers w →
      let w' := SerialStoreManager.performAll ops w in
      SerialStoreManager.notified (cb_id c) (SerialStoreManager.trace w')
        = (SerialStoreManager.notified (cb_id c) (SerialStoreManager.trace w)
           + writesAll ops w)%nat ∧
      length (SerialStoreManager.puts (SerialStoreManager.trace w'))
        = (length (SerialStoreManager.puts (SerialStoreManager.trace w))
           + writesAll ops w)%nat) ∧
  (∀ s d subs tr,
      let w := SerialStoreManager.mkWorld d (Some s) subs tr in
      (∀ now new, writes (SerialStoreManager.AddSerials now new) w = 1%nat) ∧
      (∀ now v, writes (SerialStoreManager.UpdateSerial now v) w =
                if list_find (λ x, id x = id v) (SerialStoreManager.serials s) is Some _
                then 1%nat else 0%nat) ∧
      (∀ now i st a, writes (SerialStoreManager.UpdateSerialStatus now i st a) w =
                     if list_find (λ x, id x = i) (SerialStoreManager.serials s) is Some _
                     then 1%nat else 0%nat) ∧
      (∀ now, writes (SerialStoreManager.GetStore now) w = 0%nat)) ∧
  (∀ now data d r subs tr,
      quiet subs →
      SerialStoreManager.setStore now data (SerialStoreManager.mkWorld d r subs tr) =
        (Resolved (),
         SerialStoreManager.mkWorld true (Some (SerialStoreManager.stamp data now)) subs
           ((tr ++ opening d) ++ [SerialStoreManager.EvPut (SerialStoreManager.stamp data now)]
            ++ (SerialStoreManager.EvCall ∘ cb_id <$> subs)))) ∧
  (∀ l g c,
      cb_throws c = false →
      quiet (GlobalStoreManager.subscribers g) →
      NoDup (cb_id <$> GlobalStoreManager.subscribers g) →
      c ∈ GlobalStoreManager.subscribers g ∨ cb_id c ∉ cb_id <$> GlobalStoreManager.subscribers g →
      let g' := GlobalStoreManager.dispatchAll l (GlobalStoreManager.subscribe c g).2 in
      GlobalStoreManager.notified (cb_id c) (GlobalStoreManager.trace g')
        = (GlobalStoreManager.notified (cb_id c) (GlobalStoreManager.trace g)
           + length l + 1)%nat) ∧
  (∀ now updater g,
      quiet (GlobalStoreManager.subscribers g) →
      let st := GlobalStoreManager.merge (GlobalStoreManager.state g)
                  (updater (GlobalStoreManager.state g)) now in
      GlobalStoreManager.setState now updater g =
        (GlobalStoreManager.Returned,
         {| GlobalStoreManager.t0 := GlobalStoreManager.t0 g;
            GlobalStoreManager.db := GlobalStoreManager.db g;
            GlobalStoreManager.stored :=
              if GlobalStoreManager.db g then Some st else GlobalStoreManager.stored g;
            GlobalStoreManager.state := st;
            GlobalStoreManager.subscribers := GlobalStoreManager.subscribers g;
            GlobalStoreManager.trace :=
              GlobalStoreManager.trace g
              ++ ((λ c, GlobalStoreManager.EvCall (cb_id c) st)
                    <$> GlobalStoreManager.subscribers g)
              ++ (if GlobalStoreManager.db g then [GlobalStoreManager.EvPut st] else []) |})).
Proof.
  split; [|split; [|split; [|split]]].
  - intros ops w c Hq Hnd Hc. by apply performAll_quiet_counts.
  - intros s d subs tr w. unfold writes, answered. simpl. repeat split.
    + intros now v. by destruct (list_find _ _) as [[? ?]|].
    + intros now i st a. by destruct (list_find _ _) as [[? ?]|].
  - intros. by apply setStore_quiet.
  - intros l g c Hc Hq Hnd Hin g'. subst g'.
    rewrite dispatchAll_quiet_counts.
    + unfold GlobalStoreManager.subscribe, GlobalStoreManager.setW.
      cbn [snd GlobalStoreManager.trace].
      rewrite GlobalStoreFacts.state_notified_app, notified_single. lia.
    + by apply set_add_quiet.
    + by apply set_add_NoDup.
    + apply set_add_elem.
  - intros. by apply setState_quiet.
Qed.

Lemma C3_notifications_per_mutation_witness :
  let c := mkCallback 7 false in
  let unknown := seedSerial "no-such-id" "1" "X" unassigned None 0 0 in
  let ops := [SerialStoreManager.AddSerials 1 [];
              SerialStoreManager.UpdateSerial 2 unknown;
              SerialStoreManager.UpdateSerialStatus 3 "3" blocked (Some "1")] in
  let w := SerialStoreManager.mkWorld false None [mkCallback 4 false; c] [] in
  let acts := [GlobalStoreManager.AddError 1 "e"; GlobalStoreManager.ClearErrors 2;
               GlobalStoreManager.DeleteSerial 3 "no-such-id"] in
  let g := GlobalStoreManager.created 0 None in
  (SerialStoreManager.notified 7
     (SerialStoreManager.trace (SerialStoreManager.performAll ops w))
     = (SerialStoreManager.notified 7 (SerialStoreManager.trace w) + writesAll ops w)%nat ∧
   length (SerialStoreManager.puts
             (SerialStoreManager.trace (SerialStoreManager.performAll ops w)))
     = (length (SerialStoreManager.puts (SerialStoreManager.trace w))
        + writesAll ops w)%nat) ∧
  writesAll ops w = 3%nat ∧
  GlobalStoreManager.notified 7
    (GlobalStoreManager.trace
       (GlobalStoreManager.dispatchAll acts (GlobalStoreManager.subscribe c g).2))
    = (GlobalStoreManager.notified 7 (GlobalStoreManager.trace g) + length acts + 1)%nat ∧
  (∃ w', SerialStoreManager.setStore 9 (SerialStoreManager.defaultStore 0)
           (SerialStoreManager.mkWorld true None [c] []) = (Resolved (), w') ∧
         SerialStoreManager.calls (SerialStoreManager.trace w') = [7%nat] ∧
         length (SerialStoreManager.puts (SerialStoreManager.trace w')) = 1%nat) ∧
  (∃ g', GlobalStoreManager.setState 9 (λ _, GlobalStoreManager.noUpdates)
           (GlobalStoreManager.mkWorld 0 true None (GlobalStoreManager.defaultState 0) [c] [])
           = (GlobalStoreManager.Returned, g') ∧
         GlobalStoreManager.stored g' = Some (GlobalStoreManager.state g')).
Proof.
  intros c unknown ops w acts g.
  destruct C3_notifications_per_mutation as (Hserial & _ & Hput & Hglobal & Hset).
  assert (Hq : quiet [c]) by (by repeat constructor).
  split; [|split; [|split; [|split]]].
  - apply (Hserial ops w c).
    + by repeat constructor.
    + by apply (bool_decide_unpack _).
    + apply list_elem_of_further, list_elem_of_here.
  - reflexivity.
  - apply (Hglobal acts g c).
    + reflexivity.
    + constructor.
    + constructor.
    + right. by intros ?%elem_of_nil.
  - eexists. split; [by apply Hput|]. by split.
  - eexists. split; [by apply (Hset 9 _
                                 (GlobalStoreManager.mkWorld 0 true None
                                    (GlobalStoreManager.defaultState 0) [c] []))|].
    reflexivity.
Defined.

End Notifications.

(** * Further properties of the code *)

(** ** Subscribing and unsubscribing *)

Lemma forEach_call_called cbs x :
  x ∈ (forEach_call cbs).1 → x ∈ cb_id <$> cbs.
Proof.
  induction cbs as [|c cbs IH]; simpl; [by intros ?%elem_of_nil|].
  destruct (cb_throws c).
  - simpl. intros ->%list_elem_of_singleton. apply list_elem_of_here.
  - destruct (forEach_call cbs) as [called ok]. simpl in *.
    intros [->|Hx]%elem_of_cons; [apply list_elem_of_here|].
    apply list_elem_of_further. by apply IH.
Qed.

Lemma set_add_idem c subs : set_add c (set_add c subs) = set_add c subs.
Proof.
  unfold set_add at 1. rewrite decide_True; [done|apply set_add_elem].
Qed.

Lemma set_delete_idem c subs : set_delete c (set_delete c subs) = set_delete c subs.
Proof.
  unfold set_delete. induction subs as [|x subs IH]; [done|].
  rewrite filter_cons. case_decide; [|done].
  by rewrite filter_cons, decide_True, IH.
Qed.

Lemma set_delete_absent c subs : c ∉ subs → set_delete c subs = subs.
Proof.
  unfold set_delete. induction subs as [|x subs IH]; [done|].
  intros [Hx Hc]%not_elem_of_cons. rewrite filter_cons, decide_True by done.
  by rewrite IH.
Qed.

(** Elements of a list whose images are pairwise distinct are told apart by
    their images. *)
Lemma NoDup_fmap_eq {A B} (f : A → B) (l : list A) x y :
  NoDup (f <$> l) → x ∈ l → y ∈ l → f x = f y → x = y.
Proof.
  induction l as [|a l IH]; [by intros _ ?%elem_of_nil|].
  rewrite fmap_cons, NoDup_cons. intros [Ha Hnd].
  intros [->|Hx]%elem_of_cons [->|Hy]%elem_of_cons Heq; try done.
  - destruct Ha. rewrite Heq. by apply list_elem_of_fmap_2.
  - destruct Ha. rewrite <- Heq. by apply list_elem_of_fmap_2.
  - by apply IH.
Qed.

Lemma set_delete_id_gone c subs :
  NoDup (cb_id <$> subs) → c ∈ subs → cb_id c ∉ cb_id <$> set_delete c subs.
Proof.
  intros Hnd Hc Hin. apply list_elem_of_fmap in Hin as (x & Hid & Hx).
  apply list_elem_of_filter in Hx as [Hne Hx].
  apply Hne. by apply (NoDup_fmap_eq cb_id subs).
Qed.

Section Subscriptions.
Import SerialStoreManager SerialStoreFacts.

Lemma getStore_calls now w :
  ∃ called, calls (trace (getStore now w).2) = calls (trace w) ++ called ∧
            (∀ x, x ∈ called → x ∈ cb_id <$> subscribers w) ∧
            subscribers (getStore now w).2 = subscribers w.
Proof.
  destruct w as [d [s|] subs tr].
  - rewrite getStore_hit. exists []. cbn [snd trace subscribers].
    rewrite !calls_app, calls_opening. simpl. rewrite !app_nil_r.
    repeat split. by intros x ?%elem_of_nil.
  - rewrite getStore_miss. pose proof (forEach_call_called subs) as Hsub.
    destruct (forEach_call subs) as [called ok]. exists called.
    cbn [snd trace subscribers fst] in *.
    rewrite !calls_app, calls_opening, calls_EvCall. simpl. by rewrite app_nil_r.
Qed.

Lemma setStore_calls now data w :
  ∃ called, calls (trace (setStore now data w).2) = calls (trace w) ++ called ∧
            (∀ x, x ∈ called → x ∈ cb_id <$> subscribers w) ∧
            subscribers (setStore now data w).2 = subscribers w.
Proof.
  rewrite setStore_eq. pose proof (forEach_call_called (subscribers w)) as Hsub.
  destruct (forEach_call (subscribers w)) as [called ok]. exists called.
  cbn [snd trace subscribers fst] in *.
  rewrite !calls_app, calls_opening, calls_EvCall. simpl. by rewrite app_nil_r.
Qed.

(** The callbacks a call of the manager calls are subscribers. *)
Lemma perform_calls o w :
  ∃ called, calls (trace (perform o w)) = calls (trace w) ++ called ∧
            ∀ x, x ∈ called → x ∈ cb_id <$> subscribers w.
Proof.
  rewrite perform_eq.
  destruct (getStore_calls (instant o) w) as (c1 & Hc1 & Hin1 & Hs1).
  destruct (effect o _) as [l|]; [|by exists c1].
  destruct (setStore_calls (instant o) (withSerials (answered (instant o) w) l)
              (getStore (instant o) w).2) as (c2 & Hc2 & Hin2 & _).
  exists (c1 ++ c2). rewrite Hc2, Hc1, app_assoc. split; [done|].
  intros x [?|?]%elem_of_app; [by apply Hin1|]. rewrite <- Hs1. by apply Hin2.
Qed.

Lemma performAll_not_subscribed ops w x :
  x ∉ cb_id <$> subscribers w →
  notified x (trace (performAll ops w)) = notified x (trace w).
Proof.
  revert w. induction ops as [|o ops IH]; intros w Hx; [done|].
  rewrite performAll_cons, IH by (by rewrite perform_subscribers).
  destruct (perform_calls o w) as (called & Hc & Hin).
  unfold notified. rewrite Hc, filter_app, length_app.
  rewrite (count_not_in x called); [lia|]. intros Hxc. by apply Hx, Hin.
Qed.

(** X1.  Per-domain store: the subscribers are a set (subscribing a
    subscriber again changes nothing), unsubscribing twice or unsubscribing a
    callback that is not subscribed changes nothing, unsubscribing right after
    subscribing gives the world from before, and a subscriber that has
    unsubscribed is not called by any later call of the manager. *)
Theorem X1_subscribe_unsubscribe :
  (∀ c w, subscribe c (subscribe c w) = subscribe c w) ∧
  (∀ c w, unsubscribe c (unsubscribe c w) = unsubscribe c w) ∧
  (∀ c w, c ∉ subscribers w → unsubscribe c w = w) ∧
  (∀ c w, c ∉ subscribers w → unsubscribe c (subscribe c w) = w) ∧
  (∀ ops c w,
      NoDup (cb_id <$> subscribers w) → c ∈ subscribers w →
      notified (cb_id c) (trace (performAll ops (unsubscribe c w)))
        = notified (cb_id c) (trace w)).
Proof.
  split; [|split; [|split; [|split]]].
  - intros c [d r subs tr]. unfold subscribe. simpl. by rewrite set_add_idem.
  - intros c [d r subs tr]. unfold unsubscribe. simpl. by rewrite set_delete_idem.
  - intros c [d r subs tr] Hc. unfold unsubscribe. simpl in *. by rewrite set_delete_absent.
  - intros c [d r subs tr] Hc. unfold unsubscribe, subscribe, set_add. simpl in *.
    rewrite decide_False by done. unfold set_delete.
    rewrite filter_app, filter_cons, decide_False by (by intros H; apply H).
    rewrite filter_nil, app_nil_r. f_equal. by apply set_delete_absent.
  - intros ops c w Hnd Hc. rewrite performAll_not_subscribed; [done|].
    by apply set_delete_id_gone.
Qed.

Lemma X1_subscribe_unsubscribe_witness :
  let c := mkCallback 7 false in
  let w := subscribe c (subscribe (mkCallback 3 false) fresh) in
  unsubscribe (mkCallback 9 true) w = w ∧
  unsubscribe c (subscribe c (subscribe (mkCallback 3 false) fresh))
    = subscribe (mkCallback 3 false) fresh ∧
  notified 7 (trace (performAll [AddSerials 1 []; AddSerials 2 []] (unsubscribe c w)))
    = notified 7 (trace w).
Proof.
  intros c w. destruct X1_subscribe_unsubscribe as (_ & _ & Habsent & Hround & Hgone).
  split; [|split].
  - apply Habsent. by apply (bool_decide_unpack _).
  - apply Hround. by apply (bool_decide_unpack _).
  - apply (Hgone _ c w).
    + by apply (bool_decide_unpack _).
    + by apply (bool_decide_unpack _).
Defined.

End Subscriptions.

(** ** The mutations of the per-domain store *)

Section PerDomainMutations.
Import SerialStoreManager SerialStoreFacts.

(** The record after a call on a world that holds a record and whose
    subscribers do not raise. *)
Lemma perform_quiet_stored o s d subs tr :
  quiet subs →
  stored (perform o (mkWorld d (Some s) subs tr)) =
    Some (match effect o s with
          | Some l => stamp (withSerials s l) (instant o)
          | None => s
          end).
Proof.
  intros Hq. rewrite (perform_quiet o d (Some s) subs tr Hq). unfold answered. simpl.
  by destruct (effect o s).
Qed.

(** With unique ids, replacing the serial found for an id is mapping over the
    list. *)
Lemma insert_found_as_map (f : SerialInventory → SerialInventory) k l i u :
  uniqueIds l → list_find (λ x, id x = k) l = Some (i, u) →
  <[i := f u]> l = (λ x, if decide (id x = k) then f x else x) <$> l.
Proof.
  intros Hnd (Hi & Hk & _)%list_find_Some. apply list_eq. intros j.
  rewrite list_lookup_fmap. destruct (decide (i = j)) as [<-|Hij].
  - rewrite list_lookup_insert_eq by (by eapply lookup_lt_Some).
    rewrite Hi. simpl. by rewrite decide_True.
  - rewrite list_lookup_insert_ne by done.
    destruct (l !! j) as [x|] eqn:Hj; [|done]. simpl. f_equal.
    case_decide as Hx; [|done]. destruct Hij.
    apply (NoDup_lookup (id <$> l) i j k Hnd); rewrite list_lookup_fmap.
    + by rewrite Hi, <- Hk.
    + by rewrite Hj, <- Hx.
Qed.

(** The serials a call hands to [setStore] begin with the ids it has read. *)
Lemma effect_ids o s l :
  effect o s = Some l → (id <$> serials s) `prefix_of` (id <$> l).
Proof.
  destruct o as [now|now new|now v|now k st a|now st|now a|now p|now]; simpl; try done.
  - intros [= <-]. rewrite fmap_app. by apply prefix_app_r.
  - destruct (list_find _ _) as [[i u]|] eqn:Hf; [|done]. intros [= <-].
    apply list_find_Some in Hf as (Hi & Hk & _).
    rewrite list_fmap_insert, list_insert_id; [done|].
    by rewrite list_lookup_fmap, Hi, <- Hk.
  - destruct (list_find _ _) as [[i u]|] eqn:Hf; [|done]. intros [= <-].
    apply list_find_Some in Hf as (Hi & Hk & _).
    rewrite list_fmap_insert, list_insert_id; [done|].
    by rewrite list_lookup_fmap, Hi.
Qed.

Lemma perform_keeps_serials o w s :
  stored w = Some s →
  ∃ s', stored (perform o w) = Some s' ∧ asns s' = asns s ∧ products s' = products s ∧
        (id <$> serials s) `prefix_of` (id <$> serials s').
Proof.
  intros Hs. pose proof (perform_stored o w) as Hp. unfold answered in Hp.
  rewrite Hs in Hp. simpl in Hp. destruct Hp as [Hp | [Hp | (l & Hl & Hp)]].
  - exists s. by rewrite Hp.
  - exists s. by rewrite Hp.
  - eexists. split; [exact Hp|]. simpl. repeat split. by apply (effect_ids o).
Qed.

(** X2.  Whatever the subscribers do, no sequence of calls of the per-domain
    manager removes, reorders or renames a serial or touches the ASNs and the
    products: the record afterwards has the same ASNs and products, and the
    ids of its serials begin with the ids from before. *)
Theorem X2_store_only_grows ops w s :
  stored w = Some s →
  ∃ s', stored (performAll ops w) = Some s' ∧ asns s' = asns s ∧
        products s' = products s ∧
        (id <$> serials s) `prefix_of` (id <$> serials s').
Proof.
  revert w s. induction ops as [|o ops IH]; intros w s Hs.
  - exists s. by repeat split.
  - destruct (perform_keeps_serials o w s Hs) as (s1 & H1 & Ha1 & Hp1 & Hpre1).
    destruct (IH (perform o w) s1 H1) as (s2 & H2 & Ha2 & Hp2 & Hpre2).
    exists s2. rewrite performAll_cons. split; [done|].
    split; [congruence|]. split; [congruence|]. by etrans.
Qed.

Lemma X2_store_only_grows_witness :
  let unit := seedSerial "6" "2" "MEM002DDR5002" unassigned None 7 7 in
  let w := mkWorld true (Some (defaultStore 0)) [mkCallback 1 true] [] in
  let ops := [AddSerials 1 [unit]; UpdateSerialStatus 2 "2" unassigned None;
              UpdateSerial 3 unit] in
  ∃ s', stored (performAll ops w) = Some s' ∧ asns s' = getDefaultASNs ∧
        products s' = getDefaultProducts ∧
        (id <$> getDefaultSerials) `prefix_of` (id <$> serials s').
Proof. intros unit w ops. by apply (X2_store_only_grows ops w (defaultStore 0)). Defined.

(** X3.  [addSerials] appends without looking for duplicates: on a store that
    holds a record, with subscribers that do not raise, two calls leave the
    record that one call with the two lists joined leaves, whose serials are
    the old ones followed by all the new ones. *)
Theorem X3_addSerials_appends s d subs tr t1 t2 a b :
  quiet subs →
  let w := mkWorld d (Some s) subs tr in
  stored (performAll [AddSerials t1 a; AddSerials t2 b] w)
    = stored (performAll [AddSerials t2 (a ++ b)] w) ∧
  stored (performAll [AddSerials t1 a; AddSerials t2 b] w)
    = Some {| serials := serials s ++ a ++ b; asns := asns s; products := products s;
              lastUpdated := t2 |}.
Proof.
  intros Hq w. subst w. rewrite !performAll_cons. cbn [performAll foldl].
  rewrite (perform_quiet (AddSerials t1 a) d (Some s) subs tr Hq).
  unfold answered. cbn [stored default from_option effect instant].
  rewrite !perform_quiet_stored by done. cbn [effect instant].
  unfold stamp, withSerials. simpl. by rewrite <- app_assoc.
Qed.

Lemma X3_addSerials_appends_witness :
  let unit := seedSerial "1" "1" "CPU001X7001" unassigned None 7 7 in
  let w := mkWorld true (Some (defaultStore 0)) [] [] in
  stored (performAll [AddSerials 1 [unit]; AddSerials 2 [unit]] w)
    = stored (performAll [AddSerials 2 ([unit] ++ [unit])] w) ∧
  stored (performAll [AddSerials 1 [unit]; AddSerials 2 [unit]] w)
    = Some {| serials := getDefaultSerials ++ [unit] ++ [unit]; asns := getDefaultASNs;
              products := getDefaultProducts; lastUpdated := 2 |}.
Proof.
  intros unit w.
  apply (X3_addSerials_appends (defaultStore 0) true [] [] 1 2 [unit] [unit]).
  constructor.
Defined.

(** X4.  [updateSerial] on a store that holds a record, with subscribers that
    do not raise: when no serial has the id of the given one nothing is
    written; otherwise the first serial with that id is replaced by the given
    one, the serials at the other positions, their number, the ASNs and the
    products are kept. *)
Theorem X4_updateSerial_frame s d subs tr now v :
  quiet subs →
  let w := mkWorld d (Some s) subs tr in
  match list_find (λ x, id x = id v) (serials s) with
  | None =>
      updateSerial now v w =
        (Resolved (), mkWorld true (Some s) subs ((tr ++ opening d) ++ [EvGet true]))
  | Some (i, u) =>
      ∃ w' s', updateSerial now v w = (Resolved (), w') ∧ stored w' = Some s' ∧
               serials s' !! i = Some v ∧
               (∀ j, j ≠ i → serials s' !! j = serials s !! j) ∧
               (∀ j x, (j < i)%nat → serials s !! j = Some x → id x ≠ id v) ∧
               length (serials s') = length (serials s) ∧
               asns s' = asns s ∧ products s' = products s ∧ lastUpdated s' = now
  end.
Proof.
  intros Hq w. subst w. destruct (list_find _ _) as [[i u]|] eqn:Hf.
  - rewrite (updateSerial_found _ _ _ _ _ _ _ _ Hf), (setStore_quiet _ _ _ _ _ _ Hq).
    apply list_find_Some in Hf as (Hi & Hk & Hfirst).
    eexists _, _. split; [reflexivity|]. split; [reflexivity|]. simpl.
    split; [apply list_lookup_insert_eq; by eapply lookup_lt_Some|].
    split; [intros j Hj; by apply list_lookup_insert_ne|].
    split; [intros j x Hj Hx; by eapply Hfirst|].
    by rewrite length_insert.
  - by apply updateSerial_unknown.
Qed.

Lemma X4_updateSerial_frame_witness :
  let v := seedSerial "2" "9" "REPLACED" unassigned None 7 7 in
  ∃ w' s', updateSerial 5 v (mkWorld true (Some (defaultStore 0)) [] []) = (Resolved (), w') ∧
           stored w' = Some s' ∧ serials s' !! 1%nat = Some v ∧
           length (serials s') = 5%nat.
Proof.
  intros v.
  pose proof (X4_updateSerial_frame (defaultStore 0) true [] [] 5 v) as H.
  cbv zeta in H. change (list_find (λ x, id x = id v) (serials (defaultStore 0)))
    with (Some (1%nat, seedSerial "2" "1" "CPU001X7002" assigned (Some "1")
                         1705363200000 1705795200000)) in H.
  destruct H as (w' & s' & Hu & Hs & Hv & _ & _ & Hlen & _); [constructor|].
  exists w', s'. by rewrite Hlen.
Defined.

End PerDomainMutations.

(** ** Status updates seen through the queries *)

Section AssignFlow.
Import SerialStoreManager SerialStoreFacts.

Lemma getSerialsByASN_hit now a s d subs tr :
  getSerialsByASN now a (mkWorld d (Some s) subs tr) =
    (Resolved (filter (λ x, asn_id x = Some a) (serials s)),
     mkWorld true (Some s) subs ((tr ++ opening d) ++ [EvGet true])).
Proof. unfold getSerialsByASN, await, resolve. by rewrite getStore_hit. Qed.

Lemma getSerialsByStatus_hit now st s d subs tr :
  getSerialsByStatus now st (mkWorld d (Some s) subs tr) =
    (Resolved (filter (λ x, status x = st) (serials s)),
     mkWorld true (Some s) subs ((tr ++ opening d) ++ [EvGet true])).
Proof. unfold getSerialsByStatus, await, resolve. by rewrite getStore_hit. Qed.

(** [updateSerialStatus] on a world that holds a record with unique ids and
    whose subscribers do not raise: the serials are mapped. *)
Lemma updateSerialStatus_quiet_map now k st a s d subs tr :
  quiet subs → uniqueIds (serials s) →
  ∃ s' tr',
    updateSerialStatus now k st a (mkWorld d (Some s) subs tr) =
      (Resolved (), mkWorld true (Some s') subs tr') ∧
    serials s' = ((λ x, if decide (id x = k) then withStatus x st a now else x)
                    <$> serials s) ∧
    asns s' = asns s ∧ products s' = products s.
Proof.
  intros Hq Hnd. destruct (list_find (λ x, id x = k) (serials s)) as [[i u]|] eqn:Hf.
  - rewrite (updateSerialStatus_found _ _ _ _ _ _ _ _ _ _ Hf),
      (setStore_quiet _ _ _ _ _ _ Hq).
    eexists _, _. split; [reflexivity|]. simpl. repeat split.
    by apply (insert_found_as_map (λ x, withStatus x st a now)).
  - rewrite (updateSerialStatus_unknown _ _ _ _ _ _ _ _ Hf).
    eexists _, _. split; [reflexivity|]. repeat split.
    symmetry. apply (fmap_if_none (λ x, id x = k)). by apply (list_find_None (λ x, id x = k)).
Qed.

(** X5.  A status update seen through the queries, on a store that holds a
    record, with subscribers that do not raise.  After
    [updateSerialStatus(k, st, asnId)] for an id that a serial has, that serial
    is in the list of [getSerialsByStatus(st)] and, when [asnId] is given, in
    the list of [getSerialsByASN(asnId)].  When the ids of the store are
    unique it is in no other list: a serial with the id [k] is listed for the
    status [st] only and for the ASN [asnId] only, for no ASN when [asnId] is
    omitted. *)
Theorem X5_status_update_moves_serial s d subs tr now k st asnId i u t :
  quiet subs →
  list_find (λ x, id x = k) (serials s) = Some (i, u) →
  let w' := (updateSerialStatus now k st asnId (mkWorld d (Some s) subs tr)).2 in
  let byStatus := λ st', (getSerialsByStatus t st' w').1 in
  let byASN := λ a, (getSerialsByASN t a w').1 in
  (∃ l, byStatus st = Resolved l ∧ withStatus u st asnId now ∈ l) ∧
  (∀ a, asnId = Some a → ∃ l, byASN a = Resolved l ∧ withStatus u st asnId now ∈ l) ∧
  (uniqueIds (serials s) →
   (∀ st' l x, byStatus st' = Resolved l → x ∈ l → id x = k → st' = st) ∧
   (∀ a l x, byASN a = Resolved l → x ∈ l → id x = k → asnId = Some a)).
Proof.
  intros Hq Hf w' byStatus byASN. subst w' byStatus byASN.
  rewrite (updateSerialStatus_found _ _ _ _ _ _ _ _ _ _ Hf),
    (setStore_quiet _ _ _ _ _ _ Hq). cbn [snd].
  assert (Hin : withStatus u st asnId now
                ∈ <[i := withStatus u st asnId now]> (serials s)).
  { apply list_elem_of_lookup. exists i. apply list_lookup_insert_eq.
    apply list_find_Some in Hf as (Hi & _). by eapply lookup_lt_Some. }
  split; [|split].
  - rewrite getSerialsByStatus_hit. eexists. split; [reflexivity|].
    by apply list_elem_of_filter.
  - intros a ->. rewrite getSerialsByASN_hit. eexists. split; [reflexivity|].
    by apply list_elem_of_filter.
  - intros Hnd.
    rewrite (insert_found_as_map (λ x, withStatus x st asnId now) k _ i u Hnd Hf).
    split.
    + intros st' l x. rewrite getSerialsByStatus_hit. intros [= <-].
      intros [Hst (y & -> & Hy)%list_elem_of_fmap]%list_elem_of_filter Hk.
      simpl in *. case_decide as Hy'; [done|]. by destruct Hy'.
    + intros a l x. rewrite getSerialsByASN_hit. intros [= <-].
      intros [Ha (y & -> & Hy)%list_elem_of_fmap]%list_elem_of_filter Hk.
      simpl in *. case_decide as Hy'; [done|]. by destruct Hy'.
Qed.

Lemma X5_status_update_moves_serial_witness :
  let u3 := seedSerial "3" "1" "CPU001X7003" unassigned None 1705449600000 1705449600000 in
  let w' := (updateSerialStatus 9 "3" blocked (Some "1")
               (mkWorld true (Some (defaultStore 0)) [] [])).2 in
  (∃ l, (getSerialsByASN 10 "1" w').1 = Resolved l ∧
        withStatus u3 blocked (Some "1") 9 ∈ l) ∧
  (∀ l x, (getSerialsByStatus 10 unassigned w').1 = Resolved l → x ∈ l → id x ≠ "3").
Proof.
  intros u3 w'.
  destruct (X5_status_update_moves_serial (defaultStore 0) true [] [] 9 "3" blocked
              (Some "1") 2%nat u3 10) as (_ & Hasn & Huniq); [constructor|reflexivity|].
  split; [by apply Hasn|].
  destruct Huniq as [Hst _]; [by apply (bool_decide_unpack _)|].
  intros l x Hl Hx Hk. by specialize (Hst unassigned l x Hl Hx Hk).
Defined.

Lemma countsOf_app l new : countsOf (l ++ new) = addCounts (countsOf l) (countsOf new).
Proof. unfold countsOf, addCounts. simpl. by rewrite !filter_app, !length_app. Qed.

(** X6.  The counts after [addSerials], on a store that holds a record, with
    subscribers that do not raise: each field of [getSerialCounts] is its
    value from before plus the count of the added units, none of which is
    left out or merged whatever its serial number. *)
Theorem X6_counts_after_addSerials s d subs tr now new t :
  quiet subs →
  let w := mkWorld d (Some s) subs tr in
  (getSerialCounts t w).1 = Resolved (countsOf (serials s)) ∧
  (getSerialCounts t (addSerials now new w).2).1
    = Resolved (addCounts (countsOf (serials s)) (countsOf new)).
Proof.
  intros Hq w. subst w. split.
  - unfold getSerialCounts, await, resolve. by rewrite getStore_hit.
  - rewrite addSerials_hit, (setStore_quiet _ _ _ _ _ _ Hq). cbn [snd].
    unfold getSerialCounts, await, resolve. rewrite getStore_hit. simpl.
    by rewrite countsOf_app.
Qed.

Lemma X6_counts_after_addSerials_witness :
  let unit := seedSerial "1" "1" "CPU001X7001" blocked (Some "1") 7 7 in
  (getSerialCounts 3 (addSerials 2 [unit; unit]
                        (mkWorld true (Some (defaultStore 0)) [] [])).2).1
    = Resolved {| total := 7; unassigned_count := 3; blocked_count := 3;
                  assigned_count := 1 |}.
Proof.
  intros unit.
  by destruct (X6_counts_after_addSerials (defaultStore 0) true [] [] 2 [unit; unit] 3)
    as [_ ->]; [constructor|].
Defined.

End AssignFlow.

(** ** The two managers side by side *)

Section TwoManagers.
Import SerialStoreFacts GlobalStoreFacts.

(** X7.  With unique ids the two managers compute the same serials: for
    [addSerials], [updateSerial] and [updateSerialStatus] with the same
    arguments, the record the per-domain store writes (its subscribers not
    raising) and the state the global store sets have the same list of
    serials, when they had before. *)
Theorem X7_managers_agree_on_unique_ids o a s d subs tr g :
  asAction o = Some a →
  uniqueIds (SerialStoreManager.serials s) →
  quiet subs →
  GlobalStoreManager.serials (GlobalStoreManager.state g) = SerialStoreManager.serials s →
  ∃ s', SerialStoreManager.stored
          (SerialStoreManager.perform o (SerialStoreManager.mkWorld d (Some s) subs tr))
          = Some s' ∧
        SerialStoreManager.serials s'
          = GlobalStoreManager.serials
              (GlobalStoreManager.state (GlobalStoreManager.dispatch a g).2).
Proof.
  intros Ha Hnd Hq Hg. rewrite (perform_quiet_stored o s d subs tr Hq).
  eexists. split; [reflexivity|].
  destruct o as [now|now new|now v|now k st asn|now st|now asn|now p|now];
    simpl in Ha; try done; injection Ha as <-;
    cbn [GlobalStoreManager.dispatch];
    unfold GlobalStoreManager.addSerials, GlobalStoreManager.updateSerial,
      GlobalStoreManager.updateSerialStatus;
    rewrite setState_eq;
    destruct (forEach_call (GlobalStoreManager.subscribers g)) as [called ok];
    cbn [snd GlobalStoreManager.state GlobalStoreManager.merge GlobalStoreManager.serials
         GlobalStoreManager.u_serials default from_option effect]; rewrite Hg.
  - done.
  - destruct (list_find _ _) as [[i u]|] eqn:Hf; simpl.
    + exact (insert_found_as_map (λ _, v) (id v) _ i u Hnd Hf).
    + symmetry. apply (fmap_if_none (λ x, id x = id v)).
      by apply (list_find_None (λ x, id x = id v)).
  - destruct (list_find _ _) as [[i u]|] eqn:Hf; simpl.
    + exact (insert_found_as_map (λ x, withStatus x st asn now) k _ i u Hnd Hf).
    + symmetry. apply (fmap_if_none (λ x, id x = k)).
      by apply (list_find_None (λ x, id x = k)).
Qed.

Lemma X7_managers_agree_on_unique_ids_witness :
  let g := (GlobalStoreManager.init 1 (GlobalStoreManager.created 0 None)).2 in
  let o := SerialStoreManager.UpdateSerialStatus 5 "4" assigned (Some "2") in
  ∃ s', SerialStoreManager.stored
          (SerialStoreManager.perform o
             (SerialStoreManager.mkWorld true (Some (SerialStoreManager.defaultStore 0)) [] []))
          = Some s' ∧
        SerialStoreManager.serials s'
          = GlobalStoreManager.serials
              (GlobalStoreManager.state
                 (GlobalStoreManager.dispatch
                    (GlobalStoreManager.UpdateSerialStatus 5 "4" assigned (Some "2")) g).2).
Proof.
  intros g o.
  apply (X7_managers_agree_on_unique_ids o _ (SerialStoreManager.defaultStore 0)
           true [] [] g).
  - reflexivity.
  - by apply (bool_decide_unpack _).
  - constructor.
  - reflexivity.
Defined.

End TwoManagers.

(** ** Assigning the selected serials *)

Section Assigning.
Import SerialStoreManager SerialStoreFacts SerialGridView.

Lemma blockAll_cons k ids a now l :
  blockAll ids a now ((λ x, if decide (id x = k) then withStatus x blocked (Some a) now
                            else x) <$> l)
    = blockAll (k :: ids) a now l.
Proof.
  unfold blockAll. rewrite <- list_fmap_compose. apply list_fmap_ext.
  intros _ x _. simpl. destruct (decide (id x = k)) as [Hk|Hk].
  - rewrite (decide_True (P := id x ∈ k :: ids)) by (rewrite Hk; apply list_elem_of_here).
    simpl. by case_decide.
  - destruct (decide (id x ∈ ids)) as [Hin|Hin].
    + by rewrite (decide_True (P := id x ∈ k :: ids)) by (by apply list_elem_of_further).
    + rewrite (decide_False (P := id x ∈ k :: ids)); [done|].
      by intros [?|?]%elem_of_cons.
Qed.

Lemma assignEach_quiet now a ids s d subs tr :
  quiet subs → uniqueIds (serials s) →
  ∃ d' s' tr',
    assignEach now a ids (mkWorld d (Some s) subs tr) =
      (Resolved (), mkWorld d' (Some s') subs tr') ∧
    serials s' = blockAll ids a now (serials s) ∧
    asns s' = asns s ∧ products s' = products s.
Proof.
  intros Hq. revert s d tr. induction ids as [|k ids IH]; intros s d tr Hnd.
  - exists d, s, tr. split; [done|]. unfold blockAll. repeat split.
    rewrite <- (list_fmap_id (serials s)) at 1. apply list_fmap_ext.
    intros _ x _. cbv beta. rewrite decide_False; [done|]. by intros ?%elem_of_nil.
  - destruct (updateSerialStatus_quiet_map now k blocked (Some a) s d subs tr Hq Hnd)
      as (s1 & tr1 & Hu & Hs1 & Ha1 & Hp1).
    destruct (IH s1 true tr1) as (d' & s' & tr' & He & Hs' & Ha' & Hp').
    { unfold uniqueIds. rewrite Hs1, <- list_fmap_compose.
      erewrite list_fmap_ext; [exact Hnd|]. intros _ x _. simpl. by case_decide. }
    exists d', s', tr'. cbn [assignEach]. unfold await at 1. rewrite Hu.
    split; [exact He|]. rewrite Hs', Hs1, blockAll_cons. split; [done|].
    split; congruence.
Qed.

(** X8.  [handleAssignSelected] of the grid view, on a store that holds a
    record with unique ids, with subscribers that do not raise: the serials
    whose id is among the ids to assign (the given ones, or else the selected
    ones) are blocked for the ASN of the view, all other serials, the ASNs and
    the products are as before, and the selection is empty.  The two lists of
    the view are loaded from the new record: each of those serials is in the
    list of blocked serials, none of them is in the inventory list. *)
Theorem X8_handleAssignSelected p now serialIds v s d subs tr :
  quiet subs → uniqueIds (serials s) →
  let ids := default (selectedSerials v) serialIds in
  let a := ASN.id (asn p) in
  ∃ v' w' s',
    handleAssignSelected p now serialIds v (mkWorld d (Some s) subs tr) = (Resolved v', w') ∧
    stored w' = Some s' ∧
    serials s' = blockAll ids a now (serials s) ∧
    asns s' = asns s ∧ products s' = products s ∧
    selectedSerials v' = [] ∧
    (∀ x, x ∈ serials s → id x ∈ ids →
          withStatus x blocked (Some a) now ∈ blockedSerials v') ∧
    (∀ x, x ∈ inventorySerials v' → id x ∉ ids) ∧
    (∀ x, x ∈ serials s → id x ∉ ids → x ∈ serials s').
Proof.
  intros Hq Hnd ids a.
  destruct (assignEach_quiet now a ids s d subs tr Hq Hnd)
    as (d' & s' & tr' & He & Hs' & Ha' & Hp').
  unfold handleAssignSelected. fold ids. fold a. rewrite He.
  unfold loadSerials. fold a. rewrite getSerialsByASN_hit, getSerialsByStatus_hit.
  eexists _, _, s'. split; [reflexivity|]. cbn [stored].
  split; [done|]. split; [done|]. split; [done|]. split; [done|].
  split; [done|]. cbn [blockedSerials inventorySerials withLists]. rewrite Hs'.
  split; [|split].
  - intros x Hx Hin. apply list_elem_of_filter. split; [done|].
    apply list_elem_of_filter. split; [done|].
    unfold blockAll. apply list_elem_of_fmap. exists x. by rewrite decide_True.
  - intros x [Hst (y & -> & Hy)%list_elem_of_fmap]%list_elem_of_filter.
    case_decide as Hin; [done|]. done.
  - intros x Hx Hin. unfold blockAll. apply list_elem_of_fmap. exists x.
    by rewrite decide_False.
Qed.

Lemma X8_handleAssignSelected_witness :
  let p := mkProps (ASN.mk "2" "sup2" "buy2" "ASN-2024-002" ASN.submitted None None 0 0 [])
             None false false in
  let v := mkView [] [] ["3"; "5"; "no-such-id"] "" "all" [] 1 in
  ∃ v' w' s',
    handleAssignSelected p 9 None v (mkWorld true (Some (defaultStore 0)) [] [])
      = (Resolved v', w') ∧
    stored w' = Some s' ∧
    serials s' = blockAll ["3"; "5"; "no-such-id"] "2" 9 getDefaultSerials ∧
    selectedSerials v' = [] ∧
    id <$> blockedSerials v' = ["3"; "5"] ∧
    id <$> inventorySerials v' = ["4"].
Proof.
  intros p v.
  destruct (X8_handleAssignSelected p 9 None v (defaultStore 0) true [] [])
    as (v' & w' & s' & Hh & Hst & Hs & _ & _ & Hsel & _);
    [constructor|by apply (bool_decide_unpack _)|].
  exists v', w', s'. split; [exact Hh|]. split; [exact Hst|]. split; [exact Hs|].
  split; [exact Hsel|].
  vm_compute in Hh. injection Hh as <- _. by vm_compute.
Defined.

End Assigning.

(** ** The global store: persistence *)

Section GlobalPersistence.
Import GlobalStoreManager GlobalStoreFacts.

Lemma dispatch_frame a g :
  t0 (dispatch a g).2 = t0 g ∧ db (dispatch a g).2 = db g ∧
  subscribers (dispatch a g).2 = subscribers g.
Proof.
  destruct (dispatch_is_setState a) as (now & updater & ->). rewrite setState_eq.
  by destruct (forEach_call (subscribers g)) as [called ok].
Qed.

Lemma dispatchAll_snoc l a g : dispatchAll (l ++ [a]) g = (dispatch a (dispatchAll l g)).2.
Proof. unfold dispatchAll. by rewrite foldl_app. Qed.

Lemma dispatchAll_frame l g :
  t0 (dispatchAll l g) = t0 g ∧ db (dispatchAll l g) = db g ∧
  subscribers (dispatchAll l g) = subscribers g.
Proof.
  induction l as [|a l IH] using rev_ind; [done|].
  rewrite dispatchAll_snoc. destruct (dispatch_frame a (dispatchAll l g)) as (-> & -> & ->).
  exact IH.
Qed.

(** [init] on a manager without subscribers. *)
Lemma init_created now t r :
  init now (created t r) =
    (Resolved (),
     {| t0 := t; db := true; stored := r;
        state := match r with
                 | Some result => reloaded result now
                 | None =>
                     {| serials := getDefaultSerials; asns := getDefaultASNs;
                        products := getDefaultProducts; ui := ui (defaultState t);
                        system := system (defaultState t) |}
                 end;
        subscribers := [];
        trace := [EvOpen; EvGet (bool_decide (is_Some r))] |}).
Proof. by destruct r. Qed.

(** X9.  Saving and loading in the global store: after a sequence of actions
    that is not empty, on a manager whose database is open and whose
    subscribers do not raise, the record is the state, and a manager created
    later on that database loads this state, all of it but [lastUpdated],
    which is the instant of the load. *)
Theorem X9_saved_state_is_loaded l a g t now :
  db g = true → quiet (subscribers g) →
  let g' := dispatchAll (l ++ [a]) g in
  stored g' = Some (state g') ∧
  state (init now (created t (stored g'))).2 = reloaded (state g') now.
Proof.
  intros Hdb Hq g'. subst g'. rewrite dispatchAll_snoc.
  destruct (dispatchAll_frame l g) as (_ & Hdb' & Hsubs').
  destruct (dispatch_is_setState a) as (now' & updater & ->).
  rewrite setState_quiet by (by rewrite Hsubs').
  cbn [snd stored state]. rewrite Hdb', Hdb. split; [done|].
  by rewrite init_created.
Qed.

Lemma X9_saved_state_is_loaded_witness :
  let g := (init 1 (created 0 None)).2 in
  let g' := dispatchAll ([DeleteSerial 2 "1"] ++ [AddError 3 "e"]) g in
  stored g' = Some (state g') ∧
  state (init 9 (created 5 (stored g'))).2 = reloaded (state g') 9.
Proof.
  intros g g'. apply (X9_saved_state_is_loaded [DeleteSerial 2 "1"] (AddError 3 "e") g 5 9).
  - reflexivity.
  - constructor.
Defined.

(** The state [loadState] sets depends on the record and on [t0] only. *)
Lemma init_state now g :
  state (init now g).2 =
    match stored g with
    | Some result => reloaded result now
    | None =>
        {| serials := getDefaultSerials; asns := getDefaultASNs;
           products := getDefaultProducts; ui := ui (defaultState (t0 g));
           system := system (defaultState (t0 g)) |}
    end.
Proof.
  unfold init, loadState, notifySubscribers, setW. cbn [db stored subscribers state t0].
  destruct (forEach_call (subscribers g)) as [called [|]]; by destruct (stored g).
Qed.

Lemma dispatch_closed_db a g :
  db g = false → stored (dispatch a g).2 = stored g ∧ puts (trace (dispatch a g).2) = puts (trace g).
Proof.
  intros Hdb. destruct (dispatch_is_setState a) as (now & updater & ->).
  rewrite setState_eq. destruct (forEach_call (subscribers g)) as [called ok].
  cbn [snd stored trace]. rewrite Hdb, andb_false_r. split; [done|].
  by rewrite !state_puts_app, state_puts_EvCall, !app_nil_r.
Qed.

(** X10.  Actions before [init]: as long as the database of the manager is not
    open, actions change the state in memory and write nothing, and the
    [init] that follows sets the state from the record (or the seed) alone, so
    that what those actions did is gone. *)
Theorem X10_actions_before_init_are_lost l g now :
  db g = false →
  stored (dispatchAll l g) = stored g ∧
  puts (trace (dispatchAll l g)) = puts (trace g) ∧
  state (init now (dispatchAll l g)).2 = state (init now g).2.
Proof.
  intros Hdb.
  assert (H : stored (dispatchAll l g) = stored g ∧
              puts (trace (dispatchAll l g)) = puts (trace g)).
  { induction l as [|a l IH] using rev_ind; [done|].
    rewrite dispatchAll_snoc. destruct (dispatchAll_frame l g) as (_ & Hdb' & _).
    destruct (dispatch_closed_db a (dispatchAll l g)) as [-> ->]; [congruence|].
    exact IH. }
  destruct H as [Hst Hp]. split; [done|]. split; [done|].
  rewrite !init_state, Hst. by destruct (dispatchAll_frame l g) as (-> & _ & _).
Qed.

Lemma X10_actions_before_init_are_lost_witness :
  let unit := seedSerial "6" "2" "MEM002DDR5002" unassigned None 7 7 in
  let l := [AddSerials 1 [unit]; SetActiveTab 2 "asn"] in
  serials (state (dispatchAll l (created 0 None))) = [unit] ∧
  stored (dispatchAll l (created 0 None)) = None ∧
  state (init 3 (dispatchAll l (created 0 None))).2 = state (init 3 (created 0 None)).2.
Proof.
  intros unit l. split; [reflexivity|].
  destruct (X10_actions_before_init_are_lost l (created 0 None) 3) as (Hst & _ & Hinit);
    [reflexivity|].
  by split.
Defined.

End GlobalPersistence.

(** ** The global store: collections *)

Section GlobalCollections.
Import GlobalStoreManager GlobalStoreFacts.

Ltac run_action :=
  unfold deleteSerial, deleteASN, deleteProduct, addSerials, addASN, addProduct,
    updateSerial, updateASN, updateProduct, toggleModal;
  rewrite ?setState_eq;
  repeat match goal with
         | |- context [forEach_call ?l] =>
             let called := fresh "called" in
             let ok := fresh "ok" in
             destruct (forEach_call l) as [called ok]
         end;
  cbn [fst snd state merge serials asns products ui system u_serials u_asns u_products
       u_ui u_system default from_option];
  unfold Datatypes.id.

(** X11.  Deleting by id in the global store: [deleteSerial], [deleteASN] and
    [deleteProduct] take out every element with the id, and nothing else: an
    element is in the collection afterwards exactly when it was before and
    has another id; the two other collections are not touched. *)
Theorem X11_delete_by_id g now k :
  let gs := state (deleteSerial now k g).2 in
  let ga := state (deleteASN now k g).2 in
  let gp := state (deleteProduct now k g).2 in
  ((∀ x, x ∈ serials gs ↔ x ∈ serials (state g) ∧ id x ≠ k) ∧
   asns gs = asns (state g) ∧ products gs = products (state g)) ∧
  ((∀ x, x ∈ asns ga ↔ x ∈ asns (state g) ∧ ASN.id x ≠ k) ∧
   serials ga = serials (state g) ∧ products ga = products (state g)) ∧
  ((∀ x, x ∈ products gp ↔ x ∈ products (state g) ∧ Product.id x ≠ k) ∧
   serials gp = serials (state g) ∧ asns gp = asns (state g)).
Proof.
  cbv zeta. run_action.
  split_and!; try done; intros x; rewrite list_elem_of_filter; tauto.
Qed.

Lemma filter_snoc_out {A} (P : A → Prop) `{!∀ x, Decision (P x)} (l : list A) x :
  ¬ P x → filter P (l ++ [x]) = filter P l.
Proof. intros Hx. by rewrite filter_app, filter_cons, decide_False, filter_nil, app_nil_r. Qed.

Lemma filter_all_in {A} (P : A → Prop) `{!∀ x, Decision (P x)} (l : list A) :
  Forall P l → filter P l = l.
Proof.
  induction 1 as [|x l Hx _ IH]; [done|]. by rewrite filter_cons, decide_True, IH.
Qed.

(** X12.  Adding and then deleting by the id of what was added, in the global
    store, gives the collection that deleting alone gives: the added element
    is gone together with every older element of that id, and when the id was
    new the collection is the one from before the two actions. *)
Theorem X12_add_then_delete g t1 t2 :
  (∀ asn,
      asns (state (dispatchAll [AddASN t1 asn; DeleteASN t2 (ASN.id asn)] g))
        = asns (state (deleteASN t2 (ASN.id asn) g).2) ∧
      (Forall (λ x, ASN.id x ≠ ASN.id asn) (asns (state g)) →
       asns (state (dispatchAll [AddASN t1 asn; DeleteASN t2 (ASN.id asn)] g))
         = asns (state g))) ∧
  (∀ p,
      products (state (dispatchAll [AddProduct t1 p; DeleteProduct t2 (Product.id p)] g))
        = products (state (deleteProduct t2 (Product.id p) g).2) ∧
      (Forall (λ x, Product.id x ≠ Product.id p) (products (state g)) →
       products (state (dispatchAll [AddProduct t1 p; DeleteProduct t2 (Product.id p)] g))
         = products (state g))) ∧
  (∀ u,
      serials (state (dispatchAll [AddSerials t1 [u]; DeleteSerial t2 (id u)] g))
        = serials (state (deleteSerial t2 (id u) g).2) ∧
      (Forall (λ x, id x ≠ id u) (serials (state g)) →
       serials (state (dispatchAll [AddSerials t1 [u]; DeleteSerial t2 (id u)] g))
         = serials (state g))).
Proof.
  unfold dispatchAll. cbn [foldl dispatch].
  split; [|split]; intros x; run_action.
  - rewrite (filter_snoc_out (λ y, ASN.id y ≠ ASN.id x)) by (by intros H; apply H).
    split; [done|]. apply filter_all_in.
  - rewrite (filter_snoc_out (λ y, Product.id y ≠ Product.id x)) by (by intros H; apply H).
    split; [done|]. apply filter_all_in.
  - rewrite (filter_snoc_out (λ y, id y ≠ id x)) by (by intros H; apply H).
    split; [done|]. apply filter_all_in.
Qed.

Lemma X12_add_then_delete_witness :
  let g := (init 1 (created 0 None)).2 in
  let p := Product.mk "9" "b" "s" "NEW-9" "new" None None 0 0 in
  products (state (dispatchAll [AddProduct 2 p; DeleteProduct 3 "9"] g))
    = products (state g).
Proof.
  intros g p.
  apply (proj2 (proj1 (proj2 (X12_add_then_delete g 2 3)) p)).
  by repeat constructor.
Defined.

(** X13.  [deleteASN] does not look at the serials: a serial that names the
    deleted ASN is still there afterwards, with its status and its [asn_id],
    which then is the id of no ASN of the state; when the serial is blocked or
    assigned the status invariant is broken. *)
Theorem X13_deleteASN_leaves_serials g now k x :
  x ∈ serials (state g) → asn_id x = Some k →
  let g' := (deleteASN now k g).2 in
  serials (state g') = serials (state g) ∧
  x ∈ serials (state g') ∧
  (k ∉ ASN.id <$> asns (state g')) ∧
  (status x ≠ unassigned → ¬ statusInvariant (asns (state g')) x).
Proof.
  intros Hx Hk. cbv zeta. run_action.
  assert (Hgone : k ∉ (ASN.id <$> filter (λ asn, ASN.id asn ≠ k) (asns (state g)))).
  { intros (y & -> & [Hne _]%list_elem_of_filter)%list_elem_of_fmap. by apply Hne. }
  split_and!; try done.
  intros Hst [_ Href]. destruct (Href Hst) as (a & Ha & Hin).
  rewrite Hk in Ha. injection Ha as <-. by apply Hgone.
Qed.

Lemma X13_deleteASN_leaves_serials_witness :
  let g := (init 1 (created 0 None)).2 in
  let x := seedSerial "1" "1" "CPU001X7001" blocked (Some "1") 1705276800000 1705708800000 in
  let g' := (deleteASN 2 "1" g).2 in
  x ∈ serials (state g') ∧ ¬ statusInvariant (asns (state g')) x.
Proof.
  intros g x g'.
  destruct (X13_deleteASN_leaves_serials g 2 "1" x) as (_ & Hin & _ & Hbroken).
  - apply list_elem_of_here.
  - reflexivity.
  - split; [exact Hin|]. by apply Hbroken.
Defined.

(** X14.  What an action of the global store touches: every action stamps
    [lastUpdated] with its instant and leaves the handle and the subscribers
    alone; an action on serials, ASNs or products leaves the UI part, the
    loading flag and the errors as they are; every other action leaves the
    serials, the ASNs and the products as they are. *)
Theorem X14_action_frame a g :
  let g' := (dispatch a g).2 in
  lastUpdated (system (state g')) = actionInstant a ∧
  t0 g' = t0 g ∧ db g' = db g ∧ subscribers g' = subscribers g ∧
  (onData a = true →
   ui (state g') = ui (state g) ∧
   loading (system (state g')) = loading (system (state g)) ∧
   errors (system (state g')) = errors (system (state g))) ∧
  (onData a = false →
   serials (state g') = serials (state g) ∧ asns (state g') = asns (state g) ∧
   products (state g') = products (state g)).
Proof.
  cbv zeta. destruct (dispatch_frame a g) as (-> & -> & ->).
  destruct a; cbn [dispatch actionInstant onData];
    unfold updateSerialStatus, setActiveTab, setSelectedSerial, setSelectedASN,
      setSelectedProduct, setSearchTerm, setFilter, setLoading, addError, clearErrors;
    run_action; split_and!; done.
Qed.

(** X15.  [toggleModal]: without [open] the flag of the modal is negated, so
    that two such calls give back the flags from before; with [open] the flag
    is the given value; the flags of the other modals are not touched. *)
Theorem X15_toggleModal g modal t1 t2 :
  modals (ui (state (dispatchAll [ToggleModal t1 modal None; ToggleModal t2 modal None] g)))
    = modals (ui (state g)) ∧
  (∀ open,
      let m' := modals (ui (state (toggleModal t1 modal open g).2)) in
      modalOf modal m' = default (negb (modalOf modal (modals (ui (state g))))) open ∧
      ∀ other, other ≠ modal → modalOf other m' = modalOf other (modals (ui (state g)))).
Proof.
  split.
  - unfold dispatchAll. cbn [foldl dispatch]. run_action.
    destruct (modals (ui (state g))) as [b1 b2 b3 b4 b5 b6 b7].
    destruct modal; simpl; by rewrite negb_involutive.
  - intros open. cbv zeta. run_action. split.
    + by destruct modal.
    + intros other Hne. by destruct modal, other.
Qed.

End GlobalCollections.

Lemma X14_action_frame_witness :
  let g := (GlobalStoreManager.init 1 (GlobalStoreManager.created 0 None)).2 in
  let g1 := (GlobalStoreManager.dispatch (GlobalStoreManager.DeleteSerial 5 "1") g).2 in
  let g2 := (GlobalStoreManager.dispatch (GlobalStoreManager.AddError 6 "e") g).2 in
  GlobalStoreManager.ui (GlobalStoreManager.state g1)
    = GlobalStoreManager.ui (GlobalStoreManager.state g) ∧
  GlobalStoreManager.serials (GlobalStoreManager.state g2)
    = GlobalStoreManager.serials (GlobalStoreManager.state g).
Proof.
  intros g g1 g2. subst g1 g2. split.
  - by destruct (X14_action_frame (GlobalStoreManager.DeleteSerial 5 "1") g)
      as (_ & _ & _ & _ & [H _] & _).
  - by destruct (X14_action_frame (GlobalStoreManager.AddError 6 "e") g)
      as (_ & _ & _ & _ & _ & [H _]).
Defined.

Lemma X15_toggleModal_witness :
  let g := GlobalStoreManager.created 0 None in
  let m' := GlobalStoreManager.modals
              (GlobalStoreManager.ui
                 (GlobalStoreManager.state
                    (GlobalStoreManager.toggleModal 1 GlobalStoreManager.MAddSerial None g).2)) in
  GlobalStoreManager.modalOf GlobalStoreManager.MAddSerial m' = true ∧
  GlobalStoreManager.modalOf GlobalStoreManager.MAddASN m' = false.
Proof.
  intros g m'.
  destruct (proj2 (X15_toggleModal g GlobalStoreManager.MAddSerial 1 2) None) as [H1 H2].
  split; [exact H1|]. by apply H2.
Defined.

(** ** The global store: subscribers *)

Section GlobalSubscribers.
Import GlobalStoreManager GlobalStoreFacts.

Lemma forEach_call_fails cbs c :
  c ∈ cbs → cb_throws c = true → (forEach_call cbs).2 = false.
Proof.
  induction cbs as [|x cbs IH]; [by intros ?%elem_of_nil|].
  intros Hin Hc. simpl. destruct (cb_throws x) eqn:Hx; [done|].
  apply elem_of_cons in Hin as [->|Hin]; [congruence|].
  specialize (IH Hin Hc). by destruct (forEach_call cbs).
Qed.

Lemma dispatch_raising a g c :
  c ∈ subscribers g → cb_throws c = true →
  (dispatch a g).1 = Threw ∧ stored (dispatch a g).2 = stored g ∧
  puts (trace (dispatch a g).2) = puts (trace g).
Proof.
  intros Hin Hc. destruct (dispatch_is_setState a) as (now & updater & ->).
  rewrite setState_eq. pose proof (forEach_call_fails _ _ Hin Hc) as Hok.
  destruct (forEach_call (subscribers g)) as [called ok]. simpl in Hok. subst ok.
  cbn [fst snd stored trace andb]. split; [done|]. split; [done|].
  by rewrite !state_puts_app, state_puts_EvCall, !app_nil_r.
Qed.

(** X16.  A callback that raises when it is called: [subscribe] raises, but
    has registered the callback before calling it; from then on every action
    raises in its notification round, after the state in memory has changed
    and before anything is written, so that the record stays what it was. *)
Theorem X16_raising_subscriber_stops_persistence c g l :
  cb_throws c = true →
  let g1 := (subscribe c g).2 in
  (subscribe c g).1 = Threw ∧ c ∈ subscribers g1 ∧
  stored (dispatchAll l g1) = stored g ∧
  puts (trace (dispatchAll l g1)) = puts (trace g) ∧
  ∀ a, (dispatch a (dispatchAll l g1)).1 = Threw.
Proof.
  intros Hc g1.
  assert (Hin : c ∈ subscribers g1) by apply set_add_elem.
  assert (Hinv : c ∈ subscribers (dispatchAll l g1) ∧
                 stored (dispatchAll l g1) = stored g ∧
                 puts (trace (dispatchAll l g1)) = puts (trace g)).
  { induction l as [|a l IH] using rev_ind.
    - split; [done|]. split; [done|]. change (dispatchAll [] g1) with g1.
      subst g1. unfold subscribe, setW.
      cbn [snd trace]. by rewrite state_puts_app, app_nil_r.
    - destruct IH as (Hin' & Hst & Hp). rewrite dispatchAll_snoc.
      destruct (dispatch_frame a (dispatchAll l g1)) as (_ & _ & ->).
      destruct (dispatch_raising a _ c Hin' Hc) as (_ & -> & ->). done. }
  destruct Hinv as (Hin' & Hst & Hp).
  split; [by unfold subscribe; simpl; rewrite Hc|].
  split; [done|]. split; [done|]. split; [done|].
  intros a. by destruct (dispatch_raising a _ c Hin' Hc).
Qed.

Lemma X16_raising_subscriber_stops_persistence_witness :
  let c := mkCallback 4 true in
  let g := (init 1 (created 0 None)).2 in
  let g1 := (subscribe c g).2 in
  let l := [AddSerials 2 []; DeleteProduct 3 "1"] in
  stored (dispatchAll l g1) = None ∧
  length (products (state (dispatchAll l g1))) = 1%nat ∧
  (dispatch (ClearErrors 4) (dispatchAll l g1)).1 = Threw.
Proof.
  intros c g g1 l.
  destruct (X16_raising_subscriber_stops_persistence c g l) as (_ & _ & Hst & _ & Hthrow);
    [reflexivity|].
  split; [exact Hst|]. split; [reflexivity|]. apply Hthrow.
Defined.

Lemma dispatch_calls a g :
  ∃ called, calls (trace (dispatch a g).2) = calls (trace g) ++ called ∧
            ∀ x, x ∈ called → x ∈ cb_id <$> subscribers g.
Proof.
  destruct (dispatch_is_setState a) as (now & updater & ->). rewrite setState_eq.
  pose proof (forEach_call_called (subscribers g)) as Hsub.
  destruct (forEach_call (subscribers g)) as [called ok]. exists called.
  cbn [snd trace fst] in *. rewrite !state_calls_app, state_calls_EvCall.
  split; [|done]. by destruct (ok && db g); simpl; rewrite app_nil_r.
Qed.

Lemma dispatchAll_not_subscribed l g x :
  x ∉ cb_id <$> subscribers g →
  notified x (trace (dispatchAll l g)) = notified x (trace g).
Proof.
  intros Hx. induction l as [|a l IH] using rev_ind; [done|].
  rewrite dispatchAll_snoc. destruct (dispatch_calls a (dispatchAll l g)) as (called & Hc & Hin).
  unfold notified in *. rewrite Hc, filter_app, length_app, IH.
  rewrite (count_not_in x called); [lia|]. intros Hxc. apply Hx.
  destruct (dispatchAll_frame l g) as (_ & _ & <-). by apply Hin.
Qed.

(** X17.  Subscribing and unsubscribing in the global store: [subscribe]
    calls the callback once, at once, with the current state, also when the
    callback is registered already; the subscribers are a set; a callback that
    has unsubscribed is not called by any later action. *)
Theorem X17_global_subscribe_unsubscribe :
  (∀ c g, trace (subscribe c g).2 = trace g ++ [EvCall (cb_id c) (state g)] ∧
          subscribers (subscribe c (subscribe c g).2).2 = subscribers (subscribe c g).2) ∧
  (∀ c g, c ∉ subscribers g →
          subscribers (unsubscribe c (subscribe c g).2) = subscribers g) ∧
  (∀ l c g,
      NoDup (cb_id <$> subscribers g) → c ∈ subscribers g →
      notified (cb_id c) (trace (dispatchAll l (unsubscribe c g)))
        = notified (cb_id c) (trace g)).
Proof.
  split; [|split].
  - intros c g. split; [done|]. unfold subscribe, setW. cbn [snd subscribers].
    apply set_add_idem.
  - intros c g Hc. unfold unsubscribe, subscribe, setW, set_add. cbn [snd subscribers].
    rewrite decide_False by done. unfold set_delete.
    rewrite filter_app, filter_cons, decide_False by (by intros H; apply H).
    rewrite filter_nil, app_nil_r. by apply set_delete_absent.
  - intros l c g Hnd Hc. rewrite dispatchAll_not_subscribed.
    + unfold unsubscribe, setW. cbn [trace]. by rewrite app_nil_r.
    + unfold unsubscribe, setW. cbn [subscribers]. by apply set_delete_id_gone.
Qed.

Lemma X17_global_subscribe_unsubscribe_witness :
  let c := mkCallback 7 false in
  let g := (subscribe c (created 0 None)).2 in
  subscribers (unsubscribe c g) = [] ∧
  notified 7 (trace (dispatchAll [AddError 1 "e"; ClearErrors 2] (unsubscribe c g)))
    = notified 7 (trace g).
Proof.
  intros c g. destruct X17_global_subscribe_unsubscribe as (_ & Hround & Hgone).
  split.
  - apply (Hround c (created 0 None)). by intros ?%elem_of_nil.
  - apply (Hgone _ c g); by apply (bool_decide_unpack _).
Defined.

End GlobalSubscribers.


(** ** The global store: filtered lists *)

Lemma toLowerChar_idem c : toLowerChar (toLowerChar c) = toLowerChar c.
Proof. by destruct c as [[] [] [] [] [] [] [] []]. Qed.

Lemma toLowerCase_idem s : toLowerCase (toLowerCase s) = toLowerCase s.
Proof. induction s as [|c s IH]; [done|]. simpl. by rewrite toLowerChar_idem, IH. Qed.

Lemma toLowerCase_empty s : toLowerCase s = EmptyString ↔ s = EmptyString.
Proof. by destruct s. Qed.

Lemma prefix_refl s : String.prefix s s = true.
Proof. induction s as [|c s IH]; [done|]. simpl. by destruct (ascii_dec c c). Qed.

Lemma includes_refl s : includes s s = true.
Proof. destruct s; simpl; [done|]. by rewrite prefix_refl; destruct (ascii_dec a a). Qed.

Lemma includes_empty s : includes s EmptyString = true.
Proof. by destruct s. Qed.

Section GlobalFilters.
Import GlobalStoreManager GlobalStoreFacts GlobalStoreDerived.

(** The filtered serials after the filter and the search term were set. *)
Lemma getFilteredSerials_after g t1 t2 flt term :
  getFilteredSerials
    (dispatchAll [SetFilter t1 (FSerialStatus flt); SetSearchTerm t2 KSerials term] g) =
  let l := match flt with
           | Some st => filter (λ s, status s = st) (serials (state g))
           | None => serials (state g)
           end in
  if decide (term = EmptyString) then l
  else filter (λ s, includes (toLowerCase (serial_number s)) (toLowerCase term)
                    || includes (toLowerCase (part_number_id s)) (toLowerCase term)) l.
Proof.
  unfold dispatchAll. cbn [foldl dispatch]. unfold setFilter, setSearchTerm.
  rewrite !setState_eq.
  repeat match goal with
         | |- context [forEach_call ?l] => destruct (forEach_call l) as [? ?]
         end.
  unfold getFilteredSerials. by destruct flt.
Qed.

(** X18.  [getFilteredSerials] after [setFilter] and [setSearchTerm]: with the
    filter 'all' and an empty term it is the list of all serials, with a
    status and an empty term it is the list of [getSerialsByStatus]; the term
    counts up to the case of its letters; a serial that passes the status
    filter is found by its whole serial number and by its whole part number
    id, typed in any case; and whatever is found is a serial of the state that
    passes the status filter. *)
Theorem X18_filtered_serials g t1 t2 :
  let found := λ flt term,
    getFilteredSerials
      (dispatchAll [SetFilter t1 (FSerialStatus flt); SetSearchTerm t2 KSerials term] g) in
  found None EmptyString = serials (state g) ∧
  (∀ st, found (Some st) EmptyString = getSerialsByStatus st g) ∧
  (∀ flt term term', toLowerCase term = toLowerCase term' →
                     found flt term = found flt term') ∧
  (∀ flt term x,
      x ∈ serials (state g) → flt = None ∨ flt = Some (status x) →
      toLowerCase term = toLowerCase (serial_number x)
      ∨ toLowerCase term = toLowerCase (part_number_id x) →
      x ∈ found flt term) ∧
  (∀ flt term x,
      x ∈ found flt term →
      x ∈ serials (state g) ∧ (flt = None ∨ flt = Some (status x))).
Proof.
  cbv zeta. split_and!.
  - by rewrite getFilteredSerials_after.
  - intros st. by rewrite getFilteredSerials_after.
  - intros flt term term' Heq. rewrite !getFilteredSerials_after. cbv zeta.
    destruct (decide (term = EmptyString)) as [->|Hne].
    + symmetry in Heq. apply toLowerCase_empty in Heq as ->. done.
    + rewrite decide_False; [by rewrite Heq|].
      intros ->. by apply Hne, toLowerCase_empty.
  - intros flt term x Hx Hflt Hterm. rewrite getFilteredSerials_after. cbv zeta.
    assert (Hl : x ∈ match flt with
                     | Some st => filter (λ s, status s = st) (serials (state g))
                     | None => serials (state g)
                     end).
    { destruct Hflt as [->| ->]; [done|]. by apply list_elem_of_filter. }
    case_decide; [done|]. apply list_elem_of_filter. split; [|done].
    apply orb_True. destruct Hterm as [-> | ->]; [left|right];
      apply Is_true_true, includes_refl.
  - intros flt term x. rewrite getFilteredSerials_after. cbv zeta.
    assert (Hl : x ∈ match flt with
                     | Some st => filter (λ s, status s = st) (serials (state g))
                     | None => serials (state g)
                     end → x ∈ serials (state g) ∧ (flt = None ∨ flt = Some (status x))).
    { destruct flt as [st|]; [|by auto].
      intros [<- ?]%list_elem_of_filter. auto. }
    case_decide; [done|]. intros [_ ?]%list_elem_of_filter. by apply Hl.
Qed.

Lemma X18_filtered_serials_witness :
  let g := (init 1 (created 0 None)).2 in
  let found := λ flt term,
    getFilteredSerials
      (dispatchAll [SetFilter 2 (FSerialStatus flt); SetSearchTerm 3 KSerials term] g) in
  found None "cpu001X7003" = found None "CPU001x7003" ∧
  seedSerial "3" "1" "CPU001X7003" unassigned None 1705449600000 1705449600000
    ∈ found (Some unassigned) "cpu001x7003" ∧
  serial_number <$> found (Some unassigned) "00" = ["CPU001X7003"; "CPU001X7004"; "MEM002DDR5001"].
Proof.
  intros g found.
  destruct (X18_filtered_serials g 2 3) as (_ & _ & Hcase & Hfind & _).
  split; [by apply Hcase|]. split; [|reflexivity].
  apply Hfind.
  - apply list_elem_of_further, list_elem_of_further, list_elem_of_here.
  - by right.
  - by left.
Defined.

End GlobalFilters.

Section GlobalFiltersMore.
Import GlobalStoreManager GlobalStoreFacts GlobalStoreDerived.

Lemma getFilteredASNs_after g t1 t2 flt term :
  getFilteredASNs
    (dispatchAll [SetFilter t1 (FAsnStatus flt); SetSearchTerm t2 KAsns term] g) =
  let l := match flt with
           | Some st => filter (λ a, ASN.status a = st) (asns (state g))
           | None => asns (state g)
           end in
  if decide (term = EmptyString) then l
  else filter (λ a, includes (toLowerCase (ASN.asn_number a)) (toLowerCase term) : Prop) l.
Proof.
  unfold dispatchAll. cbn [foldl dispatch]. unfold setFilter, setSearchTerm.
  rewrite !setState_eq.
  repeat match goal with
         | |- context [forEach_call ?l] => destruct (forEach_call l) as [? ?]
         end.
  unfold getFilteredASNs. by destruct flt.
Qed.

Lemma getFilteredProducts_after g t term :
  getFilteredProducts (setSearchTerm t KProducts term g).2 =
  if decide (term = EmptyString) then products (state g)
  else filter (λ p, includes (toLowerCase (Product.buyer_part_number p)) (toLowerCase term)
                    || includes (toLowerCase (Product.description p)) (toLowerCase term))
         (products (state g)).
Proof.
  unfold setSearchTerm. rewrite setState_eq.
  destruct (forEach_call (subscribers g)) as [? ?]. done.
Qed.

(** X19.  [getFilteredASNs] and [getFilteredProducts] after the search term
    was set: an empty term does not filter; an ASN that passes the status
    filter is found by its whole number and a product by its whole part number
    or its whole description, typed in any case; what is found is in the
    state. *)
Theorem X19_filtered_asns_and_products g t1 t2 :
  let foundASNs := λ flt term,
    getFilteredASNs
      (dispatchAll [SetFilter t1 (FAsnStatus flt); SetSearchTerm t2 KAsns term] g) in
  let foundProducts := λ term, getFilteredProducts (setSearchTerm t1 KProducts term g).2 in
  foundASNs None EmptyString = asns (state g) ∧
  foundProducts EmptyString = products (state g) ∧
  (∀ flt term a,
      a ∈ asns (state g) → flt = None ∨ flt = Some (ASN.status a) →
      toLowerCase term = toLowerCase (ASN.asn_number a) → a ∈ foundASNs flt term) ∧
  (∀ term p,
      p ∈ products (state g) →
      toLowerCase term = toLowerCase (Product.buyer_part_number p)
      ∨ toLowerCase term = toLowerCase (Product.description p) →
      p ∈ foundProducts term) ∧
  (∀ flt term a, a ∈ foundASNs flt term → a ∈ asns (state g)) ∧
  (∀ term p, p ∈ foundProducts term → p ∈ products (state g)).
Proof.
  cbv zeta. split_and!.
  - by rewrite getFilteredASNs_after.
  - by rewrite getFilteredProducts_after.
  - intros flt term a Ha Hflt Hterm. rewrite getFilteredASNs_after. cbv zeta.
    assert (Hl : a ∈ match flt with
                     | Some st => filter (λ a, ASN.status a = st) (asns (state g))
                     | None => asns (state g)
                     end).
    { destruct Hflt as [->| ->]; [done|]. by apply list_elem_of_filter. }
    case_decide; [done|]. apply list_elem_of_filter. split; [|done].
    rewrite Hterm. apply Is_true_true, includes_refl.
  - intros term p Hp Hterm. rewrite getFilteredProducts_after.
    case_decide; [done|]. apply list_elem_of_filter. split; [|done].
    apply orb_True. destruct Hterm as [-> | ->]; [left|right];
      apply Is_true_true, includes_refl.
  - intros flt term a. rewrite getFilteredASNs_after. cbv zeta.
    assert (Hl : a ∈ match flt with
                     | Some st => filter (λ a, ASN.status a = st) (asns (state g))
                     | None => asns (state g)
                     end → a ∈ asns (state g)).
    { destruct flt as [st|]; [|done]. by intros [_ ?]%list_elem_of_filter. }
    case_decide; [done|]. intros [_ ?]%list_elem_of_filter. by apply Hl.
  - intros term p. rewrite getFilteredProducts_after.
    case_decide; [done|]. by intros [_ ?]%list_elem_of_filter.
Qed.

Lemma X19_filtered_asns_and_products_witness :
  let g := (init 1 (created 0 None)).2 in
  let p := Product.mk "1" "ACME-CPU-001" "INTEL-i7-13700K" "CPU001"
             "Intel Core i7-13700K Processor"
             (Some (QArith_base.Qmake 45099 100)) (Some "37.5 x 37.5 x 7.4 mm")
             1704067200000 1704067200000 in
  let a := ASN.mk "1" "sup1" "buy1" "ASN001" ASN.draft (Some 1706745600000)
             (Some 1707091200000) 1706140800000 1706140800000 [] in
  p ∈ getFilteredProducts (setSearchTerm 2 KProducts "cpu001" g).2 ∧
  a ∈ getFilteredASNs
        (dispatchAll [SetFilter 2 (FAsnStatus (Some ASN.draft));
                      SetSearchTerm 3 KAsns "asn001"] g).
Proof.
  intros g p a.
  destruct (X19_filtered_asns_and_products g 2 3) as (_ & _ & Hasn & Hprod & _).
  split.
  - apply Hprod; [apply list_elem_of_here|by left].
  - apply Hasn; [apply list_elem_of_here|by right|done].
Defined.

End GlobalFiltersMore.

(** ** The forms that add serials *)

Lemma trimStart_idem s : trimStart (trimStart s) = trimStart s.
Proof.
  induction s as [|c rest IH]; [done|]. simpl.
  destruct (isWhiteSpace c) eqn:Ec; [done|]. simpl. by rewrite Ec.
Qed.

Lemma trimEnd_idem s : trimEnd (trimEnd s) = trimEnd s.
Proof.
  induction s as [|c rest IH]; [done|]. simpl.
  destruct (trimEnd rest) as [|c' rest'] eqn:E.
  - destruct (isWhiteSpace c) eqn:Ec; [done|]. simpl. by rewrite Ec.
  - change (trimEnd (String c (String c' rest'))) with
      (match trimEnd (String c' rest') with
       | EmptyString => if isWhiteSpace c then EmptyString else String c EmptyString
       | rest'' => String c rest''
       end).
    by rewrite IH.
Qed.

Lemma trimStart_length s : (String.length (trimStart s) ≤ String.length s)%nat.
Proof.
  induction s as [|c rest IH]; [done|]. simpl.
  destruct (isWhiteSpace c); simpl; lia.
Qed.

(** Trimming the end of a string leaves its first character in place. *)
Lemma trimStart_trimEnd s : trimStart s = s → trimStart (trimEnd s) = trimEnd s.
Proof.
  destruct s as [|c rest]; [done|]. simpl.
  destruct (isWhiteSpace c) eqn:Ec.
  - intros H. pose proof (trimStart_length rest) as Hl. rewrite H in Hl. simpl in Hl. lia.
  - intros _. destruct (trimEnd rest); simpl; by rewrite Ec.
Qed.

Lemma trim_idem s : trim (trim s) = trim s.
Proof.
  unfold trim. rewrite (trimStart_trimEnd _ (trimStart_idem s)). apply trimEnd_idem.
Qed.

Section Attributes.
Import AddSerialsForm.

Lemma createAttributesJson_snoc attrs a :
  createAttributesJson (attrs ++ [a]) =
    if bool_decide (trim a.1 ≠ EmptyString ∧ trim a.2 ≠ EmptyString)
    then setProperty (trim a.1) (trim a.2) (createAttributesJson attrs)
    else createAttributesJson attrs.
Proof. unfold createAttributesJson. by rewrite foldl_app. Qed.

Lemma lookup_setProperty_ne key value acc k :
  key ≠ k → setProperty key value acc !! k = acc !! k.
Proof. intros Hne. unfold setProperty. case_decide; [done|]. by apply lookup_insert_ne. Qed.

Lemma lookup_setProperty_eq key value acc :
  key ≠ "__proto__" → setProperty key value acc !! key = Some value.
Proof. intros Hne. unfold setProperty. rewrite decide_False by done. apply lookup_insert_eq. Qed.

Lemma createAttributesJson_later attrs (a : string * string) rest :
  Forall (λ b, trim b.1 ≠ trim a.1) rest →
  createAttributesJson (attrs ++ rest) !! trim a.1 = createAttributesJson attrs !! trim a.1.
Proof.
  induction rest as [|b rest IH] using rev_ind; intros Hrest.
  - by rewrite app_nil_r.
  - apply Forall_app in Hrest as [Hrest Hb%Forall_inv].
    rewrite app_assoc, createAttributesJson_snoc. case_bool_decide.
    + rewrite lookup_setProperty_ne by done. by apply IH.
    + by apply IH.
Qed.

(** X20.  The attributes object built by [createAttributesJson] holds trimmed,
    non-empty keys and values only, each taken from one of the pairs, and
    never the key [__proto__].  A pair whose key and value are not blank and
    whose trimmed key is not [__proto__] is found under its trimmed key with
    its trimmed value unless a later pair has the same trimmed key.  A pair
    with a blank key, a blank value or the trimmed key [__proto__] is lost:
    the object is the one built from the list without it. *)
Theorem X20_attributes_are_trimmed attrs :
  (∀ k v, createAttributesJson attrs !! k = Some v →
     k ≠ EmptyString ∧ v ≠ EmptyString ∧ trim k = k ∧ trim v = v ∧
     k ≠ "__proto__" ∧
     ∃ a, a ∈ attrs ∧ trim a.1 = k ∧ trim a.2 = v) ∧
  (∀ before (a : string * string) rest,
     attrs = before ++ a :: rest →
     trim a.1 ≠ EmptyString → trim a.2 ≠ EmptyString →
     trim a.1 ≠ "__proto__" →
     Forall (λ b, trim b.1 ≠ trim a.1) rest →
     createAttributesJson attrs !! trim a.1 = Some (trim a.2)) ∧
  (∀ before (a : string * string) rest,
     attrs = before ++ a :: rest →
     trim a.1 = EmptyString ∨ trim a.2 = EmptyString ∨ trim a.1 = "__proto__" →
     createAttributesJson attrs = createAttributesJson (before ++ rest)).
Proof.
  split; [|split].
  - induction attrs as [|a attrs IH] using rev_ind; intros k v.
    + unfold createAttributesJson. simpl. by rewrite lookup_empty.
    + rewrite createAttributesJson_snoc.
      assert (Hold : createAttributesJson attrs !! k = Some v →
                k ≠ EmptyString ∧ v ≠ EmptyString ∧ trim k = k ∧ trim v = v ∧
                k ≠ "__proto__" ∧
                ∃ a0, a0 ∈ attrs ++ [a] ∧ trim a0.1 = k ∧ trim a0.2 = v).
      { intros (? & ? & ? & ? & ? & a0 & ? & ? & ?)%IH. repeat split; try done.
        exists a0. split; [|done]. apply elem_of_app. by left. }
      case_bool_decide as Hb; [|done].
      destruct (decide (trim a.1 = k)) as [<-|Hne].
      * unfold setProperty. case_decide as Hproto; [done|].
        rewrite lookup_insert_eq. intros [= <-]. destruct Hb as [Hk Hv].
        repeat split; try done; try apply trim_idem.
        exists a. split; [|done]. apply elem_of_app. right. apply list_elem_of_here.
      * by rewrite lookup_setProperty_ne.
  - intros before a rest -> Hk Hv Hproto Hrest.
    replace (before ++ a :: rest) with ((before ++ [a]) ++ rest) by by rewrite <- app_assoc.
    rewrite (createAttributesJson_later _ a rest Hrest), createAttributesJson_snoc.
    rewrite bool_decide_eq_true_2 by done. by apply lookup_setProperty_eq.
  - intros before a rest -> Hlost. unfold createAttributesJson.
    rewrite !foldl_app. cbn [foldl]. f_equal.
    case_bool_decide as Hb; [|done].
    destruct Hlost as [Hk|[Hv|Hproto]]; [by destruct Hb|by destruct Hb|].
    unfold setProperty. by rewrite decide_True.
Qed.

Lemma X20_attributes_are_trimmed_witness :
  let attrs := [(" color ", "red"); ("size", " "); (" __proto__ ", "x");
                ("color", " blue ")] in
  createAttributesJson attrs !! "color" = Some "blue" ∧
  ("color" ≠ EmptyString ∧ "blue" ≠ EmptyString ∧ trim "color" = "color" ∧
   trim "blue" = "blue" ∧ "color" ≠ "__proto__" ∧
   ∃ a, a ∈ attrs ∧ trim a.1 = "color" ∧ trim a.2 = "blue") ∧
  createAttributesJson attrs =
    createAttributesJson [(" color ", "red"); ("size", " "); ("color", " blue ")] ∧
  createAttributesJson attrs !! "__proto__" = None.
Proof.
  intros attrs.
  destruct (X20_attributes_are_trimmed attrs) as (Hin & Hlast & Hlost).
  assert (H : createAttributesJson attrs !! "color" = Some "blue").
  { apply (Hlast [(" color ", "red"); ("size", " "); (" __proto__ ", "x")]
             ("color", " blue ") []).
    - reflexivity.
    - by vm_compute.
    - by vm_compute.
    - by vm_compute.
    - constructor. }
  split; [exact H|]. split; [apply Hin, H|]. split.
  - apply (Hlost [(" color ", "red"); ("size", " ")] (" __proto__ ", "x")
             [("color", " blue ")]); [reflexivity|]. right; right. by vm_compute.
  - destruct (createAttributesJson attrs !! "__proto__") as [v|] eqn:E; [|done].
    by destruct (Hin _ _ E) as (_ & _ & _ & _ & Hne & _).
Defined.

End Attributes.

Section SingleEntry.
Import SerialStoreManager AddSerialsForm AddSerialsFormSingle.

(** X21.  [handleSingleAdd] does nothing at all for a blank serial number: no
    toast, the fields and the store as they were, the database not even
    opened.  Otherwise, with subscribers that do not raise, exactly one unit
    is appended to the serials: unassigned, without ASN, of the product of
    the form, numbered by the trimmed text, with an id made of the instant
    alone; the fields are cleared and the toast carries the text as typed. *)
Theorem X21_handleSingleAdd product now f w :
  quiet (subscribers w) →
  (trim (singleSerial f) = EmptyString →
     handleSingleAdd product now f w = (Resolved None, f, w)) ∧
  (trim (singleSerial f) ≠ EmptyString →
     ∃ w' s' u,
       handleSingleAdd product now f w =
         (Resolved (Some (SerialAdded (singleSerial f))),
          mkSingle EmptyString None [] false, w') ∧
       stored w' = Some s' ∧
       serials s' = readable w ++ [u] ∧
       serial_number u = trim (singleSerial f) ∧
       status u = unassigned ∧ asn_id u = None ∧
       part_number_id u = Product.id product ∧
       expiry_date u = expiryDate f ∧
       attributes_json u = Some (createAttributesJson (attributes f)) ∧
       id u = "serial_" +:+ toString now).
Proof.
  intros Hq. split; intros Hs; unfold handleSingleAdd.
  - by rewrite decide_True.
  - rewrite decide_False by done.
    match goal with |- context [addSerials now [?x] w] => set (u := x) end.
    destruct (SerialStoreFacts.addSerials_quiet now [u] w Hq)
      as (w' & s' & -> & Hst & Hser & _).
    by exists w', s', u.
Qed.

Lemma X21_handleSingleAdd_witness :
  handleSingleAdd (Product.mk "1" "" "" "CPU-001-X7" "" None None 0 0) 7
    (mkSingle "   " None [] false) fresh =
    (Resolved None, mkSingle "   " None [] false, fresh) ∧
  ∃ w' s' u,
    handleSingleAdd (Product.mk "1" "" "" "CPU-001-X7" "" None None 0 0) 7
      (mkSingle " SN-9 " (Some 99) [("lot", "A")] false) fresh =
      (Resolved (Some (SerialAdded " SN-9 ")), mkSingle EmptyString None [] false, w') ∧
    stored w' = Some s' ∧
    serials s' = readable fresh ++ [u] ∧
    serial_number u = trim " SN-9 " ∧
    status u = unassigned ∧ asn_id u = None ∧
    part_number_id u = "1" ∧
    expiry_date u = Some 99 ∧
    attributes_json u = Some (createAttributesJson [("lot", "A")]) ∧
    id u = "serial_" +:+ toString 7.
Proof.
  split.
  - apply (X21_handleSingleAdd (Product.mk "1" "" "" "CPU-001-X7" "" None None 0 0) 7
             (mkSingle "   " None [] false) fresh); [constructor|reflexivity].
  - apply (X21_handleSingleAdd (Product.mk "1" "" "" "CPU-001-X7" "" None None 0 0) 7
             (mkSingle " SN-9 " (Some 99) [("lot", "A")] false) fresh);
      [constructor|by vm_compute].
Defined.

End SingleEntry.

Section Preview.
Import AddSerialsForm AddSerialsFormSingle.

Lemma take_seqZ (k : nat) m n : take k (seqZ m n) = seqZ m (Z.min n (Z.of_nat k)).
Proof.
  destruct (decide (n ≤ Z.of_nat k)) as [Hle|Hgt].
  - rewrite Z.min_l by done. apply take_ge. rewrite length_seqZ. lia.
  - rewrite Z.min_r by lia.
    replace n with (Z.of_nat k + (n - Z.of_nat k)) at 1 by lia.
    rewrite seqZ_app by lia.
    rewrite take_app_length'; [done|]. rewrite length_seqZ. lia.
Qed.

(** X22.  On an input that passes the first guard of [handleBulkGenerate],
    the preview shows the serial numbers of the first five units that the
    handler generates from it, followed by an ellipsis exactly when there are
    more than five; the preview has no bound on the size of the range. *)
Theorem X22_preview_agrees_with_generation product now f a b :
  parseInt (startNumber f) = Some a → parseInt (endNumber f) = Some b →
  safeInteger a → safeInteger b →
  trim (prefix f) ≠ EmptyString → a ≤ b →
  getBulkPreview f =
    take 5 (serial_number <$> generateRange product f now a b)
    ++ (if decide (5 < length (generateRange product f now a b))%nat then ["..."] else []).
Proof.
  intros Ha Hb _ _ Hp Hab. unfold getBulkPreview. rewrite Ha, Hb.
  rewrite bool_decide_eq_false_2 by done.
  rewrite (proj2 (Z.ltb_ge b a)) by done. cbn [orb].
  f_equal.
  - rewrite generateRange_serial_numbers, <- fmap_take, (take_seqZ 5).
    replace (Z.min (b - a + 1) (Z.of_nat 5)) with (Z.min (b - a + 1) 5) by lia.
    replace (seqZ a (Z.min (b - a + 1) 5)) with (seqZ (a + 0) (Z.min (b - a + 1) 5))
      by (f_equal; lia).
    by rewrite <- (fmap_add_seqZ a 0), <- list_fmap_compose.
  - rewrite generateRange_length.
    destruct (5 <? b - a + 1) eqn:E.
    + apply Z.ltb_lt in E. rewrite decide_True; [done|lia].
    + apply Z.ltb_ge in E. rewrite decide_False; [done|lia].
Qed.

Lemma X22_preview_agrees_with_generation_witness :
  getBulkPreview (mkForm "SN-" "8" "2000" None [] false) =
    take 5 (serial_number <$>
              generateRange (Product.mk "1" "" "" "CPU-001-X7" "" None None 0 0)
                (mkForm "SN-" "8" "2000" None [] false) 7 8 2000)
    ++ (if decide (5 < length (generateRange
                                 (Product.mk "1" "" "" "CPU-001-X7" "" None None 0 0)
                                 (mkForm "SN-" "8" "2000" None [] false) 7 8 2000))%nat
        then ["..."] else []).
Proof.
  apply (X22_preview_agrees_with_generation
           (Product.mk "1" "" "" "CPU-001-X7" "" None None 0 0) 7
           (mkForm "SN-" "8" "2000" None [] false) 8 2000).
  - reflexivity.
  - reflexivity.
  - unfold safeInteger. lia.
  - unfold safeInteger. lia.
  - by vm_compute.
  - lia.
Defined.

End Preview.

(** ** Numbers typed as decimal text *)

Lemma to_int_proper z :
  Z.to_int z ≠ Decimal.Pos Decimal.Nil ∧ Z.to_int z ≠ Decimal.Neg Decimal.Nil.
Proof.
  destruct z as [|p|p]; split; try discriminate; simpl; intros [= E];
    by apply DecimalPos.Unsigned.to_uint_nonnil in E.
Qed.

Lemma toString_inj i j : toString i = toString j → i = j.
Proof.
  unfold toString. intros H. apply DecimalZ.to_int_inj.
  pose proof (NilZero.isi _ (proj1 (to_int_proper i)) (proj2 (to_int_proper i))) as Hi.
  pose proof (NilZero.isi _ (proj1 (to_int_proper j)) (proj2 (to_int_proper j))) as Hj.
  rewrite H in Hi. congruence.
Qed.

Ltac digit_step :=
  cbn [NilEmpty.string_of_uint parseDigits];
  match goal with
  | |- context [digitValue 10 ?c] =>
      let v := eval vm_compute in (digitValue 10 c) in
      change (digitValue 10 c) with v
  end; cbv iota beta.

Lemma parseDigits_acc d acc :
  parseDigits 10 (NilEmpty.string_of_uint d) (Some (Z.pos acc)) =
    Some (Z.pos (Pos.of_uint_acc d acc)).
Proof.
  revert acc. induction d as [|d IH|d IH|d IH|d IH|d IH|d IH|d IH|d IH|d IH|d IH];
    intros acc; [done|..]; digit_step; cbn [default Pos.of_uint_acc];
    rewrite <- IH; do 2 f_equal; unfold Datatypes.id; lia.
Qed.

Lemma parseDigits_uint d :
  parseDigits 10 (NilEmpty.string_of_uint d) (Some 0) = Some (Z.of_N (Pos.of_uint d)).
Proof.
  induction d as [|d IH|d IH|d IH|d IH|d IH|d IH|d IH|d IH|d IH|d IH];
    [done|..]; digit_step; cbn [default Pos.of_uint]; unfold Datatypes.id;
    [exact IH|..]; cbn [Z.of_N]; rewrite <- parseDigits_acc; do 2 f_equal.
Qed.

Lemma parseDigits_start d :
  d ≠ Decimal.Nil →
  parseDigits 10 (NilEmpty.string_of_uint d) None =
    parseDigits 10 (NilEmpty.string_of_uint d) (Some 0).
Proof. destruct d; [done|..]; intros _; reflexivity. Qed.

Lemma parseInt_unsigned d :
  d ≠ Decimal.Nil →
  parseInt (NilEmpty.string_of_uint d) =
    (λ m, 1 * m) <$> parseDigits 10 (NilEmpty.string_of_uint d) None.
Proof.
  destruct d as [|d|d|d|d|d|d|d|d|d|d]; [done|..]; intros _;
    try reflexivity; destruct d; reflexivity.
Qed.

Lemma parseInt_negative d :
  parseInt (String "-" (NilEmpty.string_of_uint d)) =
    (λ m, -1 * m) <$> parseDigits 10 (NilEmpty.string_of_uint d) None.
Proof.
  destruct d as [|d|d|d|d|d|d|d|d|d|d]; try reflexivity; destruct d; reflexivity.
Qed.

Lemma NilZero_string_of_uint d :
  d ≠ Decimal.Nil → NilZero.string_of_uint d = NilEmpty.string_of_uint d.
Proof. by destruct d. Qed.

(** [parseInt] reads the decimal text of an integer back. *)
Lemma parseInt_toString z : parseInt (toString z) = Some z.
Proof.
  unfold toString. destruct z as [|p|p]; [done|..]; cbn [Z.to_int NilZero.string_of_int];
    pose proof (DecimalPos.Unsigned.to_uint_nonnil p) as Hn;
    rewrite (NilZero_string_of_uint _ Hn).
  - rewrite (parseInt_unsigned _ Hn), (parseDigits_start _ Hn), parseDigits_uint.
    rewrite DecimalPos.Unsigned.of_to. simpl. f_equal.
  - rewrite parseInt_negative, (parseDigits_start _ Hn), parseDigits_uint.
    rewrite DecimalPos.Unsigned.of_to. simpl. f_equal.
Qed.

Section Batches.
Import SerialStoreManager AddSerialsForm.

Lemma generated_id_inj product f now i j :
  id (generated product f now i) = id (generated product f now j) → i = j.
Proof.
  cbn [id generated]. intros H. apply toString_inj.
  by do 3 apply (inj (String.app _)) in H.
Qed.

Lemma generateRange_uniqueIds product f now a b :
  uniqueIds (generateRange product f now a b).
Proof.
  unfold uniqueIds, generateRange. rewrite <- list_fmap_compose.
  apply NoDup_fmap_2_strong; [|apply NoDup_seqZ].
  intros i j _ _. apply generated_id_inj.
Qed.

(** X23.  The ids of the units generated by one call of the bulk handler are
    pairwise distinct, for any range.  They are made of the instant and the
    number only: a number that two ranges generated at the same instant have
    in common gets the same id in both. *)
Theorem X23_batch_ids product f now a b :
  safeInteger a → safeInteger b →
  uniqueIds (generateRange product f now a b) ∧
  ∀ product' f' a' b' i, safeInteger a' → safeInteger b' → a ≤ i ≤ b → a' ≤ i ≤ b' →
    ∃ u u', u ∈ generateRange product f now a b ∧
            u' ∈ generateRange product' f' now a' b' ∧
            id u = id u' ∧
            serial_number u = prefix f +:+ padStart 3 "0" (toString i) ∧
            serial_number u' = prefix f' +:+ padStart 3 "0" (toString i).
Proof.
  intros _ _. split.
  - apply generateRange_uniqueIds.
  - intros product' f' a' b' i _ _ Hi Hi'.
    exists (generated product f now i), (generated product' f' now i).
    split; [|split; [|done]].
    + apply list_elem_of_fmap_2, elem_of_seqZ. lia.
    + apply list_elem_of_fmap_2, elem_of_seqZ. lia.
Qed.

Lemma X23_batch_ids_witness :
  uniqueIds (generateRange (Product.mk "1" "" "" "CPU-001-X7" "" None None 0 0)
               (mkForm "A" "1" "5" None [] false) 7 1 5) ∧
  ∃ u u', u ∈ generateRange (Product.mk "1" "" "" "CPU-001-X7" "" None None 0 0)
                (mkForm "A" "1" "5" None [] false) 7 1 5 ∧
          u' ∈ generateRange (Product.mk "2" "" "" "RAM-002-Y8" "" None None 0 0)
                 (mkForm "B" "4" "9" None [] false) 7 4 9 ∧
          id u = id u' ∧
          serial_number u = "A" +:+ padStart 3 "0" (toString 4) ∧
          serial_number u' = "B" +:+ padStart 3 "0" (toString 4).
Proof.
  destruct (X23_batch_ids (Product.mk "1" "" "" "CPU-001-X7" "" None None 0 0)
              (mkForm "A" "1" "5" None [] false) 7 1 5) as [Hu Hshared];
    [unfold safeInteger; lia..|].
  split; [exact Hu|].
  apply (Hshared (Product.mk "2" "" "" "RAM-002-Y8" "" None None 0 0)
           (mkForm "B" "4" "9" None [] false) 4 9 4); unfold safeInteger; lia.
Defined.

(** X24.  With subscribers that do not raise, [handleBulkGenerate] comes to
    its end in one of three ways.  It refuses the input as invalid or the
    range as too large, and then the form and the store, trace included, are
    exactly as before; or it appends between 1 and 1001 new units, all
    unassigned and with pairwise distinct ids, behind the serials that were
    there, and clears the form. *)
Theorem X24_bulk_outcomes product now f w :
  quiet (subscribers w) →
  from_option safeInteger True (parseInt (startNumber f)) →
  from_option safeInteger True (parseInt (endNumber f)) →
  handleBulkGenerate product now f w = (Resolved InvalidInput, f, w) ∨
  handleBulkGenerate product now f w = (Resolved RangeTooLarge, f, w) ∨
  ∃ w' s' new,
    handleBulkGenerate product now f w =
      (Resolved (SerialsGenerated (length new)), cleared, w') ∧
    (1 ≤ length new ≤ 1001)%nat ∧
    stored w' = Some s' ∧ serials s' = readable w ++ new ∧
    uniqueIds new ∧
    Forall (λ u, status u = unassigned ∧ asn_id u = None ∧
                 part_number_id u = Product.id product) new.
Proof.
  intros Hq _ _.
  destruct (parseInt (startNumber f)) as [a|] eqn:Ha;
    [|left; unfold handleBulkGenerate; by rewrite Ha].
  destruct (parseInt (endNumber f)) as [b|] eqn:Hb;
    [|left; unfold handleBulkGenerate; by rewrite Ha, Hb].
  destruct (decide (trim (prefix f) = EmptyString)) as [Hp|Hp].
  { left. unfold handleBulkGenerate. rewrite Ha, Hb. by rewrite bool_decide_eq_true_2. }
  destruct (decide (b < a)) as [Hlt|Hge].
  { left. unfold handleBulkGenerate. rewrite Ha, Hb.
    rewrite (proj2 (Z.ltb_lt b a)) by done. by rewrite orb_true_r. }
  destruct (decide (1000 < b - a)) as [Hbig|Hcap].
  { right; left. by apply (handleBulkGenerate_range_too_large _ _ _ a b). }
  right; right.
  rewrite (handleBulkGenerate_accepted _ _ _ a b) by (done || lia).
  destruct (SerialStoreFacts.addSerials_quiet now (generateRange product f now a b) w Hq)
    as (w' & s' & -> & Hst & Hser & _).
  exists w', s', (generateRange product f now a b).
  split; [done|]. rewrite generateRange_length. split; [lia|].
  split; [done|]. split; [done|]. split; [apply generateRange_uniqueIds|].
  unfold generateRange. apply Forall_fmap, Forall_true. by intros i.
Qed.

Lemma X24_bulk_outcomes_witness :
  let product := Product.mk "1" "" "" "CPU-001-X7" "" None None 0 0 in
  let f := mkForm "SN-" "8" "11" None [] false in
  handleBulkGenerate product 7 f fresh = (Resolved InvalidInput, f, fresh) ∨
  handleBulkGenerate product 7 f fresh = (Resolved RangeTooLarge, f, fresh) ∨
  ∃ w' s' new,
    handleBulkGenerate product 7 f fresh =
      (Resolved (SerialsGenerated (length new)), cleared, w') ∧
    (1 ≤ length new ≤ 1001)%nat ∧
    stored w' = Some s' ∧ serials s' = readable fresh ++ new ∧
    uniqueIds new ∧
    Forall (λ u, status u = unassigned ∧ asn_id u = None ∧
                 part_number_id u = Product.id product) new.
Proof.
  intros product f. apply (X24_bulk_outcomes product 7 f fresh).
  - constructor.
  - unfold safeInteger. simpl. lia.
  - unfold safeInteger. simpl. lia.
Defined.

(** X25.  Any range of integers typed in decimal, negative numbers and zero
    included, is taken by the handler when the prefix is not blank and the
    difference is at most 1000: with subscribers that do not raise, one unit
    per integer of the range is appended in increasing order, numbered by the
    prefix followed by the decimal text of the integer, minus sign included,
    padded with zeros to three characters. *)
Theorem X25_decimal_range product now pre expiry attrs busy a b w :
  quiet (subscribers w) →
  safeInteger a → safeInteger b →
  trim pre ≠ EmptyString → a ≤ b → b - a ≤ 1000 →
  ∃ w' s' new,
    handleBulkGenerate product now
      (mkForm pre (toString a) (toString b) expiry attrs busy) w =
      (Resolved (SerialsGenerated (Z.to_nat (b - a + 1))), cleared, w') ∧
    stored w' = Some s' ∧ serials s' = readable w ++ new ∧
    serial_number <$> new = ((λ i, pre +:+ padStart 3 "0" (toString i)) <$> seqZ a (b - a + 1)).
Proof.
  intros Hq _ _ Hp Hab Hcap.
  rewrite (handleBulkGenerate_accepted _ _ _ a b); try done; try apply parseInt_toString.
  destruct (SerialStoreFacts.addSerials_quiet now
              (generateRange product (mkForm pre (toString a) (toString b) expiry attrs busy)
                 now a b) w Hq)
    as (w' & s' & -> & Hst & Hser & _).
  eexists w', s', _. rewrite generateRange_length.
  split; [done|]. split; [done|]. split; [done|].
  apply generateRange_serial_numbers.
Qed.

Lemma X25_decimal_range_witness :
  ∃ w' s' new,
    handleBulkGenerate (Product.mk "1" "" "" "CPU-001-X7" "" None None 0 0) 7
      (mkForm "N" (toString (-2)) (toString 1) None [] false) fresh =
      (Resolved (SerialsGenerated (Z.to_nat (1 - -2 + 1))), cleared, w') ∧
    stored w' = Some s' ∧ serials s' = readable fresh ++ new ∧
    serial_number <$> new =
      ((λ i, "N" +:+ padStart 3 "0" (toString i)) <$> seqZ (-2) (1 - -2 + 1)).
Proof.
  apply (X25_decimal_range (Product.mk "1" "" "" "CPU-001-X7" "" None None 0 0) 7
           "N" None [] false (-2) 1 fresh).
  - constructor.
  - unfold safeInteger. lia.
  - unfold safeInteger. lia.
  - by vm_compute.
  - lia.
  - lia.
Defined.

End Batches.

Section Importing.
Import SerialStoreManager ImportSerialsForm.

Lemma serialLines_trimmed text :
  Forall (λ line, line ≠ EmptyString ∧ trim line = line) (serialLines text).
Proof.
  unfold serialLines. apply Forall_fmap, Forall_forall.
  intros line [Hline _]%list_elem_of_filter. split; [done|apply trim_idem].
Qed.

Lemma imported_serial_numbers product f now random lines :
  serial_number <$> imap (imported product f now random) lines = lines.
Proof.
  rewrite fmap_imap.
  rewrite (imap_ext _ (const Datatypes.id)) by done.
  by rewrite imap_const, list_fmap_id.
Qed.

Lemma imported_unassigned product f now random lines :
  Forall (λ u, status u = unassigned ∧ asn_id u = None ∧
               part_number_id u = Product.id product)
    (imap (imported product f now random) lines).
Proof.
  apply Forall_forall. intros u (i & Hu)%list_elem_of_lookup_1.
  rewrite list_lookup_imap in Hu.
  destruct (lines !! i); [|done]. by injection Hu as <-.
Qed.

(** X26.  [handleImport] does nothing without a file.  With a file it takes
    every line of the text that is not blank as one serial number, the whole
    line trimmed, whatever its contents: a file with no such line is answered
    with "No data" and leaves the store as it was; otherwise, with
    subscribers that do not raise, one unassigned unit per line is appended
    in the order of the file and the form is closed.  No serial number of an
    import is empty or has white space around it. *)
Theorem X26_handleImport product now random f w :
  quiet (subscribers w) →
  (csvFile f = None → handleImport product now random f w = (Resolved None, f, w)) ∧
  (∀ file, csvFile f = Some file → serialLines (file_text file) = [] →
     handleImport product now random f w =
       (Resolved (Some NoData), withBusy f false (closed f), w)) ∧
  (∀ file, csvFile f = Some file → serialLines (file_text file) ≠ [] →
     ∃ w' s' new,
       handleImport product now random f w =
         (Resolved (Some (SerialsImported (length (serialLines (file_text file))))),
          withBusy f false true, w') ∧
       stored w' = Some s' ∧ serials s' = readable w ++ new ∧
       serial_number <$> new = serialLines (file_text file) ∧
       Forall (λ u, status u = unassigned ∧ asn_id u = None ∧
                    part_number_id u = Product.id product) new ∧
       Forall (λ u, serial_number u ≠ EmptyString ∧
                    trim (serial_number u) = serial_number u) new).
Proof.
  intros Hq. split; [|split].
  - intros Hf. unfold handleImport. by rewrite Hf.
  - intros file Hf Hlines. unfold handleImport. rewrite Hf, Hlines. done.
  - intros file Hf Hlines. unfold handleImport. rewrite Hf. cbv zeta.
    rewrite length_imap. rewrite decide_False by by destruct (serialLines (file_text file)).
    destruct (SerialStoreFacts.addSerials_quiet now
                (imap (imported product f now random) (serialLines (file_text file))) w Hq)
      as (w' & s' & -> & Hst & Hser & _).
    eexists w', s', _. split; [done|]. split; [done|]. split; [done|].
    split; [apply imported_serial_numbers|]. split; [apply imported_unassigned|].
    apply (Forall_fmap serial_number (λ line, line ≠ EmptyString ∧ trim line = line)).
    rewrite imported_serial_numbers. apply serialLines_trimmed.
Qed.

Lemma X26_handleImport_witness :
  let product := Product.mk "1" "" "" "CPU-001-X7" "" None None 0 0 in
  let text := String "010" ("SN-1, first" +:+ String "013" (String "010"
                (String "010" ("  SN-2  " +:+ String "010" EmptyString)))) in
  let f := mkImport (Some (mkFile "text/csv" text)) None [] false false in
  serialLines text = ["SN-1, first"; "SN-2"] ∧
  ∃ w' s' new,
    handleImport product 7 (λ _, "0.5") f fresh =
      (Resolved (Some (SerialsImported (length (serialLines text)))),
       withBusy f false true, w') ∧
    stored w' = Some s' ∧ serials s' = readable fresh ++ new ∧
    serial_number <$> new = serialLines text ∧
    Forall (λ u, status u = unassigned ∧ asn_id u = None ∧
                 part_number_id u = Product.id product) new ∧
    Forall (λ u, serial_number u ≠ EmptyString ∧
                 trim (serial_number u) = serial_number u) new.
Proof.
  intros product text f.
  assert (Hlines : serialLines text = ["SN-1, first"; "SN-2"]) by by vm_compute.
  split; [exact Hlines|].
  destruct (X26_handleImport product 7 (λ _, "0.5") f fresh) as (_ & _ & Himport);
    [constructor|].
  apply (Himport (mkFile "text/csv" text)); [reflexivity|].
  change (file_text (mkFile "text/csv" text)) with text. by rewrite Hlines.
Defined.

End Importing.

(** ** The pages of the grid view *)

Lemma slice_page {A} (L : list A) (n : Z) :
  1 ≤ n →
  slice L ((n - 1) * 100) ((n - 1) * 100 + 100) =
    take 100 (drop (Z.to_nat ((n - 1) * 100)) L).
Proof.
  intros Hn. unfold slice.
  rewrite (proj2 (Z.ltb_ge ((n - 1) * 100) 0)) by lia.
  rewrite (proj2 (Z.ltb_ge ((n - 1) * 100 + 100) 0)) by lia.
  set (start := (n - 1) * 100). set (len := Z.of_nat (length L)).
  destruct (decide (start ≤ len)) as [Hle|Hgt].
  - rewrite (Z.min_l start len) by done.
    destruct (decide (start + 100 ≤ len)) as [Hfull|Hpart].
    + rewrite Z.min_l by done. by replace (Z.to_nat (start + 100 - start)) with 100%nat by lia.
    + rewrite Z.min_r by lia.
      rewrite !take_ge; [done|rewrite length_drop; lia|rewrite length_drop; lia].
  - rewrite (Z.min_r start len) by lia. rewrite Z.min_r by lia.
    rewrite Z.sub_diag. simpl. rewrite (drop_ge L (Z.to_nat start)) by lia. done.
Qed.

Lemma pages_take {A} (L : list A) (k : nat) :
  concat ((λ n, take 100 (drop (Z.to_nat ((n - 1) * 100)) L)) <$> seqZ 1 (Z.of_nat k)) =
    take (100 * k) L.
Proof.
  induction k as [|k IH]; [done|].
  replace (Z.of_nat (S k)) with (Z.of_nat k + 1) by lia.
  rewrite seqZ_app by lia. rewrite fmap_app, concat_app, IH.
  change (seqZ (1 + Z.of_nat k) 1) with [1 + Z.of_nat k]. simpl.
  rewrite app_nil_r.
  replace (Z.to_nat ((1 + Z.of_nat k - 1) * 100)) with (100 * k)%nat by lia.
  rewrite take_take_drop. f_equal. lia.
Qed.

Section Pages.
Import SerialGridView.

Lemma filterSerials_withPage p v n l : filterSerials p (withPage v n) l = filterSerials p v l.
Proof. done. Qed.

Lemma getFilteredSerials_page p v n l :
  1 ≤ n →
  getFilteredSerials p (withPage v n) l =
    take 100 (drop (Z.to_nat ((n - 1) * 100)) (filterSerials p v l)).
Proof.
  intros Hn. unfold getFilteredSerials. cbv zeta. rewrite filterSerials_withPage.
  cbn [currentPage withPage]. unfold ITEMS_PER_PAGE. by apply slice_page.
Qed.

(** X27.  The pages of the grid view cut the filtered list into consecutive
    pieces: the pages from 1 to [getTotalPages] put one after the other are
    the filtered list, each of them holds between 1 and 100 serials, and a
    page behind the last one is empty.  The two buttons keep the page between
    1 and the number of pages of their list. *)
Theorem X27_pages_cover_the_filtered_list p v l :
  let total := getTotalPages p v l in
  concat ((λ n, getFilteredSerials p (withPage v n) l) <$> seqZ 1 total)
    = filterSerials p v l ∧
  (∀ n, 1 ≤ n ≤ total →
        (1 ≤ length (getFilteredSerials p (withPage v n) l) ≤ 100)%nat) ∧
  (∀ n, total < n → getFilteredSerials p (withPage v n) l = []) ∧
  (1 ≤ currentPage v ≤ total →
     1 ≤ currentPage (previousPage v) ≤ total ∧
     1 ≤ currentPage (nextPage total v) ≤ total).
Proof.
  intros total.
  assert (Htotal : total = (Z.of_nat (length (filterSerials p v l)) + 99) / 100).
  { unfold total, getTotalPages, ITEMS_PER_PAGE. f_equal. lia. }
  assert (H0 : 0 ≤ total) by (rewrite Htotal; apply Z.div_pos; lia).
  assert (Hlo : 100 * total - 99 ≤ Z.of_nat (length (filterSerials p v l)) ≤ 100 * total).
  { pose proof (Z.div_mod (Z.of_nat (length (filterSerials p v l)) + 99) 100 ltac:(lia)) as Hd.
    pose proof (Z.mod_pos_bound (Z.of_nat (length (filterSerials p v l)) + 99) 100 ltac:(lia)).
    rewrite <- Htotal in Hd. lia. }
  split; [|split; [|split]].
  - rewrite <- (Z2Nat.id total H0).
    erewrite list_fmap_ext; [rewrite (pages_take (filterSerials p v l) (Z.to_nat total))|].
    + apply take_ge. lia.
    + intros _ n [Hn _]%list_elem_of_lookup_2%elem_of_seqZ. cbv beta.
      by apply getFilteredSerials_page.
  - intros n Hn. rewrite getFilteredSerials_page by lia.
    rewrite length_take, length_drop. lia.
  - intros n Hn. rewrite getFilteredSerials_page by lia. rewrite drop_ge by lia. done.
  - intros Hv. unfold previousPage, nextPage. cbn [currentPage withPage]. lia.
Qed.

End Pages.

Lemma X27_pages_cover_the_filtered_list_witness :
  let p := SerialGridView.mkProps
             (ASN.mk "2" "sup2" "buy2" "ASN-2024-002" ASN.submitted None None 0 0 [])
             None false false in
  let v := SerialGridView.mkView [] [] [] "cpu" "all" [] 1 in
  1 ≤ SerialGridView.currentPage v ≤ SerialGridView.getTotalPages p v getDefaultSerials ∧
  (1 ≤ SerialGridView.currentPage (SerialGridView.previousPage v)
     ≤ SerialGridView.getTotalPages p v getDefaultSerials ∧
   1 ≤ SerialGridView.currentPage
         (SerialGridView.nextPage (SerialGridView.getTotalPages p v getDefaultSerials) v)
     ≤ SerialGridView.getTotalPages p v getDefaultSerials) ∧
  (1 ≤ length (SerialGridView.getFilteredSerials p (SerialGridView.withPage v 1)
                 getDefaultSerials) ≤ 100)%nat.
Proof.
  intros p v.
  assert (Hv : 1 ≤ SerialGridView.currentPage v
               ≤ SerialGridView.getTotalPages p v getDefaultSerials).
  { split; by apply (bool_decide_unpack _). }
  destruct (X27_pages_cover_the_filtered_list p v getDefaultSerials)
    as (_ & Hlen & _ & Hbuttons).
  split; [exact Hv|]. split; [exact (Hbuttons Hv)|]. apply Hlen. exact Hv.
Defined.

(** ** Selecting a page of the grid view *)

Lemma foldl_ids_add {A} (key : A → string) (page : list A) sel x :
  x ∈ foldl (λ acc u, ids_add (key u) acc) sel page ↔ x ∈ sel ∨ x ∈ key <$> page.
Proof.
  revert sel. induction page as [|u page IH]; intros sel; simpl.
  - rewrite elem_of_nil. tauto.
  - rewrite IH, elem_of_cons. unfold ids_add. case_decide as Hin.
    + split; [tauto|]. intros [?|[->|?]]; tauto.
    + rewrite elem_of_app, list_elem_of_singleton. tauto.
Qed.

Lemma foldl_ids_delete {A} (key : A → string) (page : list A) sel x :
  x ∈ foldl (λ acc u, ids_delete (key u) acc) sel page ↔ x ∈ sel ∧ x ∉ key <$> page.
Proof.
  revert sel. induction page as [|u page IH]; intros sel; simpl.
  - rewrite elem_of_nil. tauto.
  - rewrite IH, not_elem_of_cons. unfold ids_delete. rewrite list_elem_of_filter. tauto.
Qed.

Lemma foldl_ids_add_NoDup {A} (key : A → string) (page : list A) sel :
  NoDup sel → NoDup (foldl (λ acc u, ids_add (key u) acc) sel page).
Proof.
  revert sel. induction page as [|u page IH]; intros sel Hnd; [done|]. simpl.
  apply IH. unfold ids_add. case_decide as Hin; [done|].
  apply NoDup_app. split; [done|]. split; [|apply NoDup_singleton].
  intros y Hy ->%list_elem_of_singleton. done.
Qed.

Lemma foldl_ids_delete_NoDup {A} (key : A → string) (page : list A) sel :
  NoDup sel → NoDup (foldl (λ acc u, ids_delete (key u) acc) sel page).
Proof.
  revert sel. induction page as [|u page IH]; intros sel Hnd; [done|]. simpl.
  apply IH. by apply NoDup_filter.
Qed.

Section Selecting.
Import SerialGridView.

Lemma getFilteredSerials_withSelection p v sel l :
  getFilteredSerials p (withSelection v sel) l = getFilteredSerials p v l.
Proof. done. Qed.

(** X28.  [handleSelectAll] on the serials of the current page.  When one of
    them is not selected, all of them are put into the selection and nothing
    is taken out; when all of them are selected (which is so for an empty
    page), exactly they are taken out.  The selection never holds an id
    twice.  Two calls in a row, the first with a serial of the page not yet
    selected, leave the selection from before without the ids of the page:
    serials selected on other pages stay selected. *)
Theorem X28_handleSelectAll p v l :
  let page := getFilteredSerials p v l in
  let v' := handleSelectAll p v l in
  (NoDup (selectedSerials v) → NoDup (selectedSerials v')) ∧
  ((∃ u, u ∈ page ∧ id u ∉ selectedSerials v) →
     ∀ x, x ∈ selectedSerials v' ↔ x ∈ selectedSerials v ∨ x ∈ id <$> page) ∧
  ((∀ u, u ∈ page → id u ∈ selectedSerials v) →
     ∀ x, x ∈ selectedSerials v' ↔ x ∈ selectedSerials v ∧ x ∉ id <$> page) ∧
  ((∃ u, u ∈ page ∧ id u ∉ selectedSerials v) →
     ∀ x, x ∈ selectedSerials (handleSelectAll p v' l) ↔
          x ∈ selectedSerials v ∧ x ∉ id <$> page).
Proof.
  intros page v'.
  assert (Hsome : (∃ u, u ∈ page ∧ id u ∉ selectedSerials v) →
            selectedSerials v' =
              foldl (λ sel serial, ids_add (id serial) sel) (selectedSerials v) page).
  { intros (u & Hu & Hnot). unfold v', handleSelectAll. cbv zeta. fold page.
    rewrite bool_decide_eq_false_2; [done|].
    rewrite Forall_forall. intros Hall. by apply Hnot, Hall. }
  assert (Hall : ∀ w, (∀ u, u ∈ getFilteredSerials p w l → id u ∈ selectedSerials w) →
            selectedSerials (handleSelectAll p w l) =
              foldl (λ sel serial, ids_delete (id serial) sel) (selectedSerials w)
                (getFilteredSerials p w l)).
  { intros w Hw. unfold handleSelectAll. cbv zeta.
    rewrite bool_decide_eq_true_2; [done|]. by rewrite Forall_forall. }
  split; [|split; [|split]].
  - intros Hnd. unfold v', handleSelectAll. cbv zeta. fold page.
    case_bool_decide; cbn [selectedSerials withSelection].
    + by apply foldl_ids_delete_NoDup.
    + by apply foldl_ids_add_NoDup.
  - intros Hex x. rewrite (Hsome Hex). apply foldl_ids_add.
  - intros Hp x. unfold v'. rewrite (Hall v Hp). apply foldl_ids_delete.
  - intros Hex x.
    assert (Hpage : getFilteredSerials p v' l = page).
    { unfold v', handleSelectAll. cbv zeta. by case_bool_decide. }
    rewrite Hall.
    + rewrite Hpage, foldl_ids_delete, (Hsome Hex), foldl_ids_add. tauto.
    + rewrite Hpage. intros u Hu. rewrite (Hsome Hex), foldl_ids_add. right.
      by apply list_elem_of_fmap_2.
Qed.

Lemma X28_handleSelectAll_witness :
  let p := mkProps (ASN.mk "2" "sup2" "buy2" "ASN-2024-002" ASN.submitted None None 0 0 [])
             None false false in
  let v := mkView [] [] ["1"; "zz"] "" "all" [] 1 in
  NoDup (selectedSerials (handleSelectAll p v getDefaultSerials)) ∧
  (∀ x, x ∈ selectedSerials (handleSelectAll p v getDefaultSerials) ↔
        x ∈ selectedSerials v ∨ x ∈ id <$> getFilteredSerials p v getDefaultSerials) ∧
  (∀ x, x ∈ selectedSerials
              (handleSelectAll p (handleSelectAll p v getDefaultSerials) getDefaultSerials) ↔
        x ∈ selectedSerials v ∧ x ∉ id <$> getFilteredSerials p v getDefaultSerials).
Proof.
  intros p v.
  destruct (X28_handleSelectAll p v getDefaultSerials) as (Hnd & Hadd & _ & Htwice).
  assert (Hex : ∃ u, u ∈ getFilteredSerials p v getDefaultSerials ∧
                     id u ∉ selectedSerials v).
  { exists (seedSerial "2" "1" "CPU001X7002" assigned (Some "1") 1705363200000 1705795200000).
    split; [|by apply (bool_decide_unpack _)].
    apply list_elem_of_further, list_elem_of_here. }
  split; [|split].
  - apply Hnd. by apply (bool_decide_unpack _).
  - by apply Hadd.
  - by apply Htwice.
Defined.

End Selecting.

Section SelectingOne.
Import SerialStoreManager SerialGridView.

Lemma ids_delete_add k sel : k ∉ sel → ids_delete k (ids_add k sel) = sel.
Proof.
  intros Hk. unfold ids_add, ids_delete. rewrite decide_False by done.
  rewrite filter_app, filter_cons, decide_False by (by intros []). simpl.
  rewrite app_nil_r. apply filter_all_in, Forall_forall. by intros x Hx ->.
Qed.

(** X29.  [handleSerialSelection] in a view that was not launched with an
    assignment context changes the selection only: the store is not touched,
    and selecting a serial that was not selected and taking it out again
    gives the selection from before.  In a view launched with an assignment
    context, on a store that holds a record with unique ids and with
    subscribers that do not raise, selecting a serial blocks this one serial
    for the ASN and empties the whole selection: the serials selected before
    are neither assigned nor selected afterwards. *)
Theorem X29_handleSerialSelection p now k v s d subs tr :
  quiet subs → uniqueIds (serials s) →
  let w := mkWorld d (Some s) subs tr in
  (contextLaunched p && hasAssignmentContext p = false →
     ∀ selected,
       handleSerialSelection p now k selected v w =
         (Resolved (withSelection v (if selected then ids_add k (selectedSerials v)
                                     else ids_delete k (selectedSerials v))), w)) ∧
  (contextLaunched p && hasAssignmentContext p = false → k ∉ selectedSerials v →
     ∃ v1, handleSerialSelection p now k true v w = (Resolved v1, w) ∧
           handleSerialSelection p now k false v1 w = (Resolved v, w)) ∧
  (contextLaunched p && hasAssignmentContext p = true →
     ∃ v' w' s',
       handleSerialSelection p now k true v w = (Resolved v', w') ∧
       stored w' = Some s' ∧
       serials s' = blockAll [k] (ASN.id (asn p)) now (serials s) ∧
       selectedSerials v' = [] ∧
       (∀ x, x ∈ serials s → id x ≠ k → x ∈ serials s')).
Proof.
  intros Hq Hnd w.
  assert (Hplain : contextLaunched p && hasAssignmentContext p = false →
            ∀ selected u,
              handleSerialSelection p now k selected u w =
                (Resolved (withSelection u (if selected then ids_add k (selectedSerials u)
                                            else ids_delete k (selectedSerials u))), w)).
  { intros Hc selected u. unfold handleSerialSelection. cbv zeta.
    replace (contextLaunched p && selected && hasAssignmentContext p)
      with (contextLaunched p && hasAssignmentContext p && selected)
      by (by destruct (contextLaunched p), selected, (hasAssignmentContext p)).
    by rewrite Hc. }
  split; [|split].
  - intros Hc selected. by apply Hplain.
  - intros Hc Hk. eexists. split; [by apply Hplain|]. rewrite Hplain by done.
    cbn [selectedSerials withSelection]. rewrite ids_delete_add by done.
    by destruct v.
  - intros Hc. unfold handleSerialSelection. cbv zeta.
    replace (contextLaunched p && true && hasAssignmentContext p)
      with (contextLaunched p && hasAssignmentContext p)
      by (by destruct (contextLaunched p), (hasAssignmentContext p)).
    rewrite Hc. unfold handleAssignSelected. cbn [default].
    destruct (assignEach_quiet now (ASN.id (asn p)) [k] s d subs tr Hq Hnd)
      as (d' & s' & tr' & He & Hs' & _ & _).
    fold w in He. unfold Datatypes.id. rewrite He.
    unfold loadSerials. rewrite getSerialsByASN_hit, getSerialsByStatus_hit.
    eexists _, _, s'. split; [reflexivity|]. cbn [stored].
    split; [done|]. split; [done|]. split; [done|].
    intros x Hx Hne. rewrite Hs'. unfold blockAll. apply list_elem_of_fmap. exists x.
    rewrite decide_False; [done|]. by intros ?%list_elem_of_singleton.
Qed.

Lemma X29_handleSerialSelection_witness :
  let a := ASN.mk "2" "sup2" "buy2" "ASN-2024-002" ASN.submitted None None 0 0 [] in
  let v := mkView [] [] ["3"] "" "all" [] 1 in
  let w := mkWorld true (Some (defaultStore 0)) [] [] in
  (∃ v1, handleSerialSelection (mkProps a None false false) 9 "4" true v w
           = (Resolved v1, w) ∧
         handleSerialSelection (mkProps a None false false) 9 "4" false v1 w
           = (Resolved v, w)) ∧
  ∃ v' w' s',
    handleSerialSelection (mkProps a None true true) 9 "4" true v w = (Resolved v', w') ∧
    stored w' = Some s' ∧
    serials s' = blockAll ["4"] "2" 9 getDefaultSerials ∧
    selectedSerials v' = [] ∧
    (∀ x, x ∈ getDefaultSerials → id x ≠ "4" → x ∈ serials s').
Proof.
  intros a v w.
  assert (Hnd : uniqueIds (serials (defaultStore 0))) by by apply (bool_decide_unpack _).
  split.
  - destruct (X29_handleSerialSelection (mkProps a None false false) 9 "4" v
                (defaultStore 0) true [] []) as (_ & Hback & _);
      [constructor|exact Hnd|].
    apply Hback; [reflexivity|]. by apply (bool_decide_unpack _).
  - destruct (X29_handleSerialSelection (mkProps a None true true) 9 "4" v
                (defaultStore 0) true [] []) as (_ & _ & Hassign);
      [constructor|exact Hnd|].
    by apply Hassign.
Defined.

End SelectingOne.
